(** * TuneFlip: the batch conversion pipeline of [src/lib/convert.ts] and the
    loudness glue of the converter it imports from [./ffmpeg.js] (the
    [createConverter] found in [src/lib/shortpath.ts], lines 52-279),
    embedded shallowly.

    Conventions of the embedding.
    - A JavaScript string is the list of its UTF-16 code units ([jsstring]);
      [js "abc"] turns an ASCII literal into one.
    - A JavaScript number is an integer ([Z]) where the code only counts
      (concurrency, bitrate, indices) and a rational ([Q], kept reduced)
      where it measures (seconds, percentages).  NaN and the infinities are
      explicit constructors where the code tests for them; IEEE rounding is
      not modelled.
    - [undefined] is [None].
    - The transcoding engine, the glob library, [node:path] beyond
      [extname] and [basename], and the random temporary names are given
      from outside: records of functions and outcomes that the pipeline
      consumes, so that every function stays executable.
    - Paths follow the POSIX flavour of [node:path]. *)

From Stdlib Require Import ZArith QArith Qround Strings.String Strings.Ascii
  Numbers.DecimalString.
From stdpp Require Import gmap list fin_maps.

Local Open Scope Z_scope.
#[local] Set Warnings "-clear-no-such-hyp".

(** ** JavaScript strings and the built-ins the code calls *)

Module JS.

Abbreviation jsstring := (list N).

Definition js (s : string) : jsstring :=
  List.map N_of_ascii (list_ascii_of_string s).

(** Truthiness of a string: [''] is falsy. *)
Definition truthy (s : jsstring) : bool :=
  match s with [] => false | _ => true end.

(** WhiteSpace and LineTerminator code units: what [\s] and [trim] accept. *)
Definition isLineTerminator (c : N) : bool :=
  ((c =? 10) || (c =? 13) || (c =? 8232) || (c =? 8233))%N.

Definition isSpace (c : N) : bool :=
  (isLineTerminator c || (c =? 9) || (c =? 11) || (c =? 12) || (c =? 32)
   || (c =? 160) || (c =? 5760) || ((8192 <=? c) && (c <=? 8202))
   || (c =? 8239) || (c =? 8287) || (c =? 12288) || (c =? 65279))%N.

Definition isDigit (c : N) : bool := ((48 <=? c) && (c <=? 57))%N.
Definition isUpper (c : N) : bool := ((65 <=? c) && (c <=? 90))%N.
Definition isLower (c : N) : bool := ((97 <=? c) && (c <=? 122))%N.

(** [\w]: ASCII letters, digits and the underscore. *)
Definition isWordChar (c : N) : bool :=
  (isDigit c || isUpper c || isLower c || (c =? 95))%N.

(** [toLowerCase], on the ASCII range; other code units are kept. *)
Definition lowerUnit (c : N) : N := if isUpper c then (c + 32)%N else c.
Definition toLowerCase (s : jsstring) : jsstring := List.map lowerUnit s.

Definition eqs (a b : jsstring) : bool := bool_decide (a = b).

Fixpoint isPrefix (p s : jsstring) : bool :=
  match p, s with
  | [], _ => true
  | a :: p', b :: s' => (a =? b)%N && isPrefix p' s'
  | _ :: _, [] => false
  end.

Definition startsWith (s p : jsstring) : bool := isPrefix p s.

(** [s.indexOf(pat)], [None] standing for -1. *)
Fixpoint indexOfFrom (pat s : jsstring) (i : nat) : option nat :=
  if isPrefix pat s then Some i
  else match s with
       | [] => None
       | _ :: s' => indexOfFrom pat s' (S i)
       end.

Definition indexOf (s pat : jsstring) : option nat := indexOfFrom pat s 0.

(** [s.lastIndexOf(pat)]: the right-most position where [pat] starts. *)
Fixpoint lastIndexOfFrom (pat s : jsstring) (i : nat) : option nat :=
  match s with
  | [] => if isPrefix pat [] then Some i else None
  | _ :: s' =>
      match lastIndexOfFrom pat s' (S i) with
      | Some j => Some j
      | None => if isPrefix pat s then Some i else None
      end
  end.

Definition lastIndexOf (s pat : jsstring) : option nat :=
  lastIndexOfFrom pat s 0.

(** [s.slice(a, b)] for [0 <= a] and [0 <= b]. *)
Definition slice (s : jsstring) (a b : nat) : jsstring :=
  take (b - a) (drop a s).

(** [s.split(sep)] with a string separator. *)
Fixpoint splitGo (sep s cur : jsstring) (skip : nat) : list jsstring :=
  match s with
  | [] => [rev cur]
  | c :: s' =>
      match skip with
      | S k => splitGo sep s' cur k
      | O =>
          if isPrefix sep s
          then rev cur :: splitGo sep s' [] (length sep - 1)
          else splitGo sep s' (c :: cur) 0
      end
  end.

Definition split (s sep : jsstring) : list jsstring :=
  match sep with
  | [] => List.map (fun c => [c]) s
  | _ => splitGo sep s [] 0
  end.

Fixpoint trimStart (s : jsstring) : jsstring :=
  match s with
  | c :: s' => if isSpace c then trimStart s' else s
  | [] => []
  end.

Definition trim (s : jsstring) : jsstring :=
  rev (trimStart (rev (trimStart s))).

(** GetSubstitution for a replacement string when the pattern is a string:
    there are no captures, so [$1]..[$99] and [$<] stay as they are. *)
Fixpoint getSubstitution (matched before after rep : jsstring) : jsstring :=
  match rep with
  | 36%N :: rest =>
      match rest with
      | 36%N :: rest' => 36%N :: getSubstitution matched before after rest'
      | 38%N :: rest' => matched ++ getSubstitution matched before after rest'
      | 96%N :: rest' => before ++ getSubstitution matched before after rest'
      | 39%N :: rest' => after ++ getSubstitution matched before after rest'
      | _ => 36%N :: getSubstitution matched before after rest
      end
  | c :: rest => c :: getSubstitution matched before after rest
  | [] => []
  end.

(** [s.replace(pat, rep)] with a string pattern: the first occurrence only. *)
Definition replace (s pat rep : jsstring) : jsstring :=
  match indexOf s pat with
  | None => s
  | Some i =>
      let before := take i s in
      let after := drop (i + length pat) s in
      before ++ getSubstitution pat before after rep ++ after
  end.

(** [String(n)] for an integer. *)
Definition StringOfZ (z : Z) : jsstring :=
  js (NilZero.string_of_int (Z.to_int z)).

(** [a || b] and [a ?? b] on optional strings. *)
Definition orElse (a b : option jsstring) : option jsstring :=
  match a with
  | Some s => if truthy s then a else b
  | None => b
  end.

Definition nullish {A} (a b : option A) : option A :=
  match a with Some _ => a | None => b end.

End JS.

Export JS.

(** ** Regular expressions: a backtracking matcher with the priorities of
    the ECMAScript one (alternatives left to right, greedy and lazy stars,
    numbered captures, [^], [$] and [\b]) *)

Module Regex.

Inductive re :=
| Eps
| Unit (p : N -> bool)
| Seq (a b : re)
| Alt (a b : re)
| Star (greedy : bool) (a : re)
| Group (n : nat) (a : re)
| Bol
| Eol
| WordBoundary.

Definition Caps := list (nat * (nat * nat)).
Definition MatchEnd := option (nat * Caps).

Definition wordAt (s : jsstring) (i : nat) : bool :=
  match s !! i with Some u => isWordChar u | None => false end.

Definition wordBefore (s : jsstring) (i : nat) : bool :=
  match i with O => false | S j => wordAt s j end.

(** [m s r i c k]: match [r] in [s] at index [i] with captures [c], then
    continue with [k].  A star gives up an iteration that consumed nothing,
    so [S (length s - i)] rounds are all it can ever use. *)
Fixpoint m (s : jsstring) (r : re) (i : nat) (c : Caps)
    (k : nat -> Caps -> MatchEnd) {struct r} : MatchEnd :=
  match r with
  | Eps => k i c
  | Unit p =>
      match s !! i with
      | Some u => if p u then k (S i) c else None
      | None => None
      end
  | Seq a b => m s a i c (fun j c' => m s b j c' k)
  | Alt a b =>
      match m s a i c k with
      | Some x => Some x
      | None => m s b i c k
      end
  | Star greedy a =>
      (fix loop (n : nat) (i : nat) (c : Caps) {struct n} : MatchEnd :=
         match n with
         | O => k i c
         | S n' =>
             if greedy then
               match m s a i c (fun j c' =>
                        if Nat.leb j i then None else loop n' j c') with
               | Some x => Some x
               | None => k i c
               end
             else
               match k i c with
               | Some x => Some x
               | None => m s a i c (fun j c' =>
                            if Nat.leb j i then None else loop n' j c')
               end
         end) (S (length s - i)) i c
  | Group n a => m s a i c (fun j c' => k j ((n, (i, j)) :: c'))
  | Bol => if Nat.eqb i 0 then k i c else None
  | Eol => if Nat.eqb i (length s) then k i c else None
  | WordBoundary =>
      if xorb (wordBefore s i) (wordAt s i) then k i c else None
  end.

Definition matchAt (r : re) (s : jsstring) (i : nat) : MatchEnd :=
  m s r i [] (fun j c => Some (j, c)).

(** The first match at or after [i]: (start, end, captures). *)
Fixpoint execFrom (r : re) (s : jsstring) (fuel i : nat)
    : option (nat * nat * Caps) :=
  match matchAt r s i with
  | Some (j, c) => Some (i, j, c)
  | None =>
      match fuel with
      | O => None
      | S f => execFrom r s f (S i)
      end
  end.

Definition execAfter (r : re) (s : jsstring) (i : nat)
    : option (nat * nat * Caps) :=
  if Nat.ltb (length s) i then None else execFrom r s (length s - i) i.

(** [r.exec(s)] and [s.match(r)] without the [g] flag. *)
Definition exec (r : re) (s : jsstring) : option (nat * nat * Caps) :=
  execAfter r s 0.

Definition test (r : re) (s : jsstring) : bool :=
  match exec r s with Some _ => true | None => false end.

Fixpoint capLookup (c : Caps) (n : nat) : option (nat * nat) :=
  match c with
  | [] => None
  | (n', span) :: c' => if Nat.eqb n n' then Some span else capLookup c' n
  end.

(** [m[n]] of a match array. *)
Definition group (s : jsstring) (c : Caps) (n : nat) : option jsstring :=
  match capLookup c n with
  | Some (a, b) => Some (slice s a b)
  | None => None
  end.

(** [s.replace(r, rep)] with the [g] flag and a replacement free of [$]. *)
Fixpoint replaceAllGo (r : re) (rep s : jsstring) (fuel last from : nat)
    : jsstring :=
  match fuel with
  | O => drop last s
  | S f =>
      match execAfter r s from with
      | None => drop last s
      | Some (a, b, _) =>
          slice s last a ++ rep
            ++ replaceAllGo r rep s f b (if Nat.eqb b a then S b else b)
      end
  end.

Definition replaceAll (r : re) (rep s : jsstring) : jsstring :=
  replaceAllGo r rep s (S (S (length s))) 0 0.

(** [s.replace(r, rep)] without the [g] flag and a replacement free of [$]. *)
Definition replaceFirst (r : re) (rep s : jsstring) : jsstring :=
  match exec r s with
  | None => s
  | Some (a, b, _) => take a s ++ rep ++ drop b s
  end.

(** [s.split(r)] for a separator without capture groups. *)
Fixpoint splitByGo (r : re) (s : jsstring) (fuel p q : nat) : list jsstring :=
  match fuel with
  | O => [drop p s]
  | S f =>
      if Nat.leb (length s) q then [drop p s]
      else
        match matchAt r s q with
        | None => splitByGo r s f p (S q)
        | Some (e, _) =>
            if Nat.eqb e p then splitByGo r s f p (S q)
            else slice s p q :: splitByGo r s f e e
        end
  end.

Definition splitBy (r : re) (s : jsstring) : list jsstring :=
  match s with
  | [] => match matchAt r s 0 with Some _ => [] | None => [s] end
  | _ => splitByGo r s (2 * length s + 2) 0 0
  end.

(** Builders for the pieces the source's patterns are made of. *)
Definition eqU (c : N) : N -> bool := fun u => (u =? c)%N.
Definition eqCI (c : N) : N -> bool := fun u => (lowerUnit u =? lowerUnit c)%N.
Definition oneOf (cs : jsstring) : N -> bool :=
  fun u => existsb (fun c => (u =? c)%N) cs.

Definition dot : re := Unit (fun u => negb (isLineTerminator u)).
Definition ws : re := Unit isSpace.
Definition plus (greedy : bool) (a : re) : re := Seq a (Star greedy a).
Definition opt (a : re) : re := Alt a Eps.

Fixpoint lit (s : jsstring) : re :=
  match s with
  | [] => Eps
  | [c] => Unit (eqU c)
  | c :: s' => Seq (Unit (eqU c)) (lit s')
  end.

Fixpoint litCI (s : jsstring) : re :=
  match s with
  | [] => Eps
  | [c] => Unit (eqCI c)
  | c :: s' => Seq (Unit (eqCI c)) (litCI s')
  end.

Fixpoint seqs (rs : list re) : re :=
  match rs with
  | [] => Eps
  | [r] => r
  | r :: rs' => Seq r (seqs rs')
  end.

Fixpoint alts (rs : list re) : re :=
  match rs with
  | [] => Eps
  | [r] => r
  | r :: rs' => Alt r (alts rs')
  end.

End Regex.

(** The loop of a star, named: [m] on [Star greedy a] is this loop run
    for [S (length s - i)] rounds. *)

Module RegexLoop.
Import Regex.

Section StarLoop.
Variables (s : jsstring) (greedy : bool) (a : re).
Variable k : nat -> Caps -> MatchEnd.

Fixpoint starLoop (n : nat) (i : nat) (c : Caps) {struct n} : MatchEnd :=
  match n with
  | O => k i c
  | S n' =>
      if greedy then
        match m s a i c (fun j c' =>
                 if Nat.leb j i then None else starLoop n' j c') with
        | Some x => Some x
        | None => k i c
        end
      else
        match k i c with
        | Some x => Some x
        | None => m s a i c (fun j c' =>
                     if Nat.leb j i then None else starLoop n' j c')
        end
  end.

End StarLoop.

(** What a greedy star over one class that can run from [i] to [i + d]
    offers its continuation: the positions from [i + d] down to [i], the
    first that succeeds. *)
Fixpoint backtrack (k : nat -> Caps -> MatchEnd) (c : Caps) (i d : nat)
    : MatchEnd :=
  match d with
  | O => k i c
  | S d' =>
      match backtrack k c (S i) d' with
      | Some x => Some x
      | None => k i c
      end
  end.

(** The shape of [/^(.+?)\s*X\s*(.+)$/] for a class [X] of separators. *)
Definition reSides (sep : N -> bool) : re :=
  seqs [Bol; Group 1 (plus false dot); Star true ws; Unit sep;
        Star true ws; Group 2 (plus true dot); Eol].

(** [[^\.]] *)
Definition nonDot (u : N) : bool := negb (u =? 46)%N.

End RegexLoop.

(** ** [node:path], POSIX flavour: [extname] and [basename]

    Both look at the last component of the path, trailing slashes dropped. *)

Module Path.

Definition slash : N := 47%N.
Definition period : N := 46%N.

Fixpoint dropSlashes (s : jsstring) : jsstring :=
  match s with
  | c :: s' => if (c =? slash)%N then dropSlashes s' else s
  | [] => []
  end.

Fixpoint takeComponent (s : jsstring) : jsstring :=
  match s with
  | c :: s' => if (c =? slash)%N then [] else c :: takeComponent s'
  | [] => []
  end.

(** The last component, computed from the right end. *)
Definition lastComponent (p : jsstring) : jsstring :=
  rev (takeComponent (dropSlashes (rev p))).

(** [path.extname(p)]: from the last period of the last component on, unless
    there is none, it is the first character, or the component is [..]. *)
Definition extname (p : jsstring) : jsstring :=
  let c := lastComponent p in
  match lastIndexOf c [period] with
  | None => []
  | Some O => []
  | Some d => if eqs c [period; period] then [] else drop d c
  end.

Definition isSuffix (suffix s : jsstring) : bool :=
  isPrefix (rev suffix) (rev s).

(** [path.basename(p, suffix)], for a suffix that [extname] produced. *)
Definition basename (p : jsstring) (suffix : option jsstring) : jsstring :=
  let c := lastComponent p in
  match suffix with
  | None => c
  | Some ext =>
      if truthy ext && Nat.leb (length ext) (length p) then
        if eqs ext p then []
        else if isSuffix ext c && negb (eqs ext c)
             then take (length c - length ext) c
             else c
      else c
  end.

End Path.

(** ** JavaScript numbers as far as [parseTrim] and [buildBase] need them *)

Module Num.

Inductive jsnum :=
| NaN
| Inf (negative : bool)
| Fin (q : Q).

Definition isNaN (x : jsnum) : bool :=
  match x with NaN => true | _ => false end.

Definition ofZ (z : Z) : jsnum := Fin (inject_Z z).

Fixpoint spanDigits (s : jsstring) : jsstring * jsstring :=
  match s with
  | c :: s' =>
      if isDigit c then let '(d, r) := spanDigits s' in (c :: d, r)
      else ([], s)
  | [] => ([], [])
  end.

Definition digitsValue (base : Z) (ds : list Z) : Z :=
  fold_left (fun acc d => acc * base + d) ds 0.

Definition decDigit (c : N) : Z := Z.of_N c - 48.

(** A digit of a [0x], [0o] or [0b] literal, when it is one in that base. *)
Definition radixDigit (base : Z) (c : N) : option Z :=
  let v :=
    if isDigit c then Z.of_N c - 48
    else if isLower c then Z.of_N c - 87
    else if isUpper c then Z.of_N c - 55
    else 99 in
  if v <? base then Some v else None.

Definition radixLiteral (base : Z) (ds : jsstring) : jsnum :=
  match ds with
  | [] => NaN
  | _ =>
      match mapM (radixDigit base) ds with
      | Some vs => ofZ (digitsValue base vs)
      | None => NaN
      end
  end.

(** mantissa * 10^e, reduced. *)
Definition scale10 (mantissa e : Z) : Q :=
  if 0 <=? e then inject_Z (mantissa * 10 ^ e)
  else Qred (Qmake mantissa (Z.to_pos (10 ^ (- e)))).

(** ExponentPart, optional: [Some e] when the rest is empty or a well-formed
    exponent. *)
Definition exponentPart (r : jsstring) : option Z :=
  match r with
  | [] => Some 0
  | c :: r' =>
      if ((c =? 101) || (c =? 69))%N then
        let '(negative, r'') :=
          match r' with
          | 45%N :: t => (true, t)
          | 43%N :: t => (false, t)
          | _ => (false, r')
          end in
        match spanDigits r'' with
        | ((_ :: _) as ds, []) =>
            let e := digitsValue 10 (List.map decDigit ds) in
            Some (if negative : bool then - e else e)
        | _ => None
        end
      else None
  end.

(** StrUnsignedDecimalLiteral without [Infinity]. *)
Definition unsignedDecimal (t : jsstring) : option Q :=
  let '(ip, r1) := spanDigits t in
  let '(fp, r2) :=
    match r1 with
    | 46%N :: r => spanDigits r
    | _ => ([], r1)
    end in
  match ip ++ fp with
  | [] => None
  | ds =>
      match exponentPart r2 with
      | Some e =>
          Some (scale10 (digitsValue 10 (List.map decDigit ds))
                        (e - Z.of_nat (length fp)))
      | None => None
      end
  end.

Definition infinityWord : jsstring := js "Infinity".

Definition signedDecimal (t : jsstring) : jsnum :=
  let '(negative, u) :=
    match t with
    | 45%N :: r => (true, r)
    | 43%N :: r => (false, r)
    | _ => (false, t)
    end in
  if eqs u infinityWord then Inf negative
  else match unsignedDecimal u with
       | Some q => Fin (if negative : bool then Qred (- q) else q)
       | None => NaN
       end.

(** [Number(s)] on a string: StringToNumber. *)
Definition Number (s : jsstring) : jsnum :=
  match trim s with
  | [] => Fin 0
  | 48%N :: c :: r =>
      if ((c =? 120) || (c =? 88))%N then radixLiteral 16 r
      else if ((c =? 111) || (c =? 79))%N then radixLiteral 8 r
      else if ((c =? 98) || (c =? 66))%N then radixLiteral 2 r
      else signedDecimal (trim s)
  | t => signedDecimal t
  end.

(** [a - b]. *)
Definition sub (a b : jsnum) : jsnum :=
  match a, b with
  | NaN, _ | _, NaN => NaN
  | Inf x, Inf y => if Bool.eqb x y then NaN else Inf x
  | Inf x, Fin _ => Inf x
  | Fin _, Inf y => Inf (negb y)
  | Fin p, Fin q => Fin (Qred (p - q))
  end.

(** [Math.max(0, a)]. *)
Definition max0 (a : jsnum) : jsnum :=
  match a with
  | NaN => NaN
  | Inf true => Fin 0
  | Inf false => Inf false
  | Fin q => if Qle_bool q 0 then Fin 0 else Fin q
  end.

End Num.

(** ** [src/lib/convert.ts]: the functions without effects *)

Module Convert.
Import Regex Path Num.

Inductive result (A : Type) :=
| Ok (a : A)
| Throw (message : jsstring).
Arguments Ok {A} a.
Arguments Throw {A} message.

(** *** [isMediaLike], lines 57-63 *)

Definition VIDEO_EXTS : list jsstring :=
  List.map js [".mp4"; ".mov"; ".mkv"; ".avi"; ".webm"; ".flv"; ".wmv";
               ".m4v"; ".3gp"]%string.

Definition AUDIO_EXTS : list jsstring :=
  List.map js [".mp3"; ".wav"; ".m4a"; ".aac"; ".flac"; ".ogg"; ".opus";
               ".wma"]%string.

Definition includes (l : list jsstring) (x : jsstring) : bool :=
  existsb (eqs x) l.

Definition isMediaLike (path : jsstring) : bool :=
  let ext := toLowerCase (extname path) in
  includes VIDEO_EXTS ext || includes AUDIO_EXTS ext.

(** *** [parseTrim], lines 65-74 *)

Record TrimRange := {
  trimStart : option jsnum;
  trimEnd : option jsnum
}.

Definition emptyRange : TrimRange := {| trimStart := None; trimEnd := None |}.

Definition trimError : jsstring :=
  js "Invalid --trim format. Use start-end (seconds) or start".

(** [x ? Number(x) : undefined] for a component that may be missing. *)
Definition component (x : option jsstring) : option jsnum :=
  match x with
  | Some t => if truthy t then Some (Number t) else None
  | None => None
  end.

(** [Number.isNaN(v)]: false on [undefined]. *)
Definition isNaNValue (v : option jsnum) : bool :=
  match v with Some x => isNaN x | None => false end.

Definition truthyOpt (x : option jsstring) : bool :=
  match x with Some t => truthy t | None => false end.

Definition parseTrim (trim : option jsstring) : result TrimRange :=
  match trim with
  | None => Ok emptyRange
  | Some t =>
      if negb (truthy t) then Ok emptyRange
      else
        let parts := JS.split t (js "-") in
        let s := parts !! 0%nat in
        let e := parts !! 1%nat in
        let start := component s in
        let end_ := component e in
        if isNaNValue start || (truthyOpt e && isNaNValue end_)
        then Throw trimError
        else Ok {| trimStart := start; trimEnd := end_ |}
  end.

(** *** [detectFromFilename], lines 76-113 *)

Definition dashes : jsstring := [45; 8211]%N.
Definition openers : jsstring := js "([{".
Definition closers : jsstring := js ")]}".

(** [/\s*(?:\(|\[|\{).*?(?:\)|\]|\})\s*/g] *)
Definition reAnnotation : re :=
  seqs [Star true ws; Unit (oneOf openers); Star false dot;
        Unit (oneOf closers); Star true ws].

(** [/\b(official\s*video|official\s*audio|lyrics|audio\s*only|hd|4k|remaster(?:ed)?|mv|clip)\b/gi] *)
Definition reNoise : re :=
  seqs [WordBoundary;
        Group 1 (alts [
          seqs [litCI (js "official"); Star true ws; litCI (js "video")];
          seqs [litCI (js "official"); Star true ws; litCI (js "audio")];
          litCI (js "lyrics");
          seqs [litCI (js "audio"); Star true ws; litCI (js "only")];
          litCI (js "hd");
          litCI (js "4k");
          seqs [litCI (js "remaster"); opt (litCI (js "ed"))];
          litCI (js "mv");
          litCI (js "clip")]);
        WordBoundary].

(** [/\s{2,}/g] *)
Definition reSpaces : re := seqs [ws; ws; Star true ws].

Definition scrub (s : jsstring) : jsstring :=
  trim (replaceAll reSpaces (js " ")
          (replaceAll reNoise []
             (replaceAll reAnnotation (js " ") s))).

(** [/^(.+?)\s*[-–]\s*(.+)$/] *)
Definition reArtistDashTitle : re :=
  seqs [Bol; Group 1 (plus false dot); Star true ws; Unit (oneOf dashes);
        Star true ws; Group 2 (plus true dot); Eol].

(** [/^(.+?)\s+by\s+(.+)$/i] *)
Definition reTitleByArtist : re :=
  seqs [Bol; Group 1 (plus false dot); plus true ws; litCI (js "by");
        plus true ws; Group 2 (plus true dot); Eol].

(** [/^(.+?)\s*_\s*(.+)$/] *)
Definition reArtistUnderscoreTitle : re :=
  seqs [Bol; Group 1 (plus false dot); Star true ws; Unit (eqU 95);
        Star true ws; Group 2 (plus true dot); Eol].

(** [/\s*[-–]\s*/] *)
Definition reDash : re :=
  seqs [Star true ws; Unit (oneOf dashes); Star true ws].

Record Guess := {
  guessTitle : option jsstring;
  guessArtist : option jsstring
}.

Definition noGuess : Guess := {| guessTitle := None; guessArtist := None |}.

(** [fileBase.match(r)], reduced to the two groups the code reads. *)
Definition match2 (r : re) (fileBase : jsstring)
    : option (jsstring * jsstring) :=
  match exec r fileBase with
  | Some (_, _, c) =>
      Some (default [] (group fileBase c 1), default [] (group fileBase c 2))
  | None => None
  end.

Definition detectFromFilename (fileBase : jsstring) : Guess :=
  let dashed :=
    match match2 reArtistDashTitle fileBase with
    | Some (m1, m2) =>
        let artist := scrub m1 in
        let title := scrub m2 in
        if truthy artist && truthy title
        then Some {| guessTitle := Some title; guessArtist := Some artist |}
        else None
    | None => None
    end in
  match dashed with
  | Some g => g
  | None =>
  let by_ :=
    match match2 reTitleByArtist fileBase with
    | Some (m1, m2) =>
        let title := scrub m1 in
        let artist := scrub m2 in
        if truthy artist && truthy title
        then Some {| guessTitle := Some title; guessArtist := Some artist |}
        else None
    | None => None
    end in
  match by_ with
  | Some g => g
  | None =>
  let underscored :=
    match match2 reArtistUnderscoreTitle fileBase with
    | Some (m1, m2) =>
        let artist := scrub m1 in
        let title := scrub m2 in
        if truthy artist && truthy title
        then Some {| guessTitle := Some title; guessArtist := Some artist |}
        else None
    | None => None
    end in
  match underscored with
  | Some g => g
  | None =>
      match Regex.splitBy reDash fileBase with
      | [p0; p1] =>
          let artist := scrub p0 in
          let title := scrub p1 in
          if truthy artist && truthy title
          then {| guessTitle := Some title; guessArtist := Some artist |}
          else noGuess
      | _ => noGuess
      end
  end end end.

(** *** The output name, lines 168-183 *)

Definition defaultTemplate : jsstring := js "{basename}.mp3".

(** [/^\./] and [/\.[^\.]+$/] *)
Definition reLeadingDot : re := seqs [Bol; Unit (eqU period)].
Definition reLastExtension : re :=
  seqs [Unit (eqU period); plus true (Unit (fun u => negb (u =? period)%N));
        Eol].

Definition numberText (n : option Z) : jsstring :=
  match n with Some z => StringOfZ z | None => [] end.

(** [tpl]: the template with each placeholder handed to [replace] once, in
    the order basename, ext, bitrate, vbr. *)
Definition expandTemplate (template : option jsstring) (input : jsstring)
    (bitrateKbps vbrLevel : option Z) : jsstring :=
  let base := basename input (Some (extname input)) in
  let t0 :=
    match template with
    | Some t => if truthy t then t else defaultTemplate
    | None => defaultTemplate
    end in
  let t1 := JS.replace t0 (js "{basename}") base in
  let t2 := JS.replace t1 (js "{ext}")
              (replaceFirst reLeadingDot [] (extname input)) in
  let t3 := JS.replace t2 (js "{bitrate}") (numberText bitrateKbps) in
  JS.replace t3 (js "{vbr}") (numberText vbrLevel).

Definition extOut (format : option jsstring) : jsstring :=
  match format with
  | Some f =>
      if truthy f
      then if eqs f (js "aac") then js ".m4a" else period :: f
      else js ".mp3"
  | None => js ".mp3"
  end.

(** [baseName + extOut], the file name joined to the output directory. *)
Definition outputFileName (template format : option jsstring)
    (input : jsstring) (bitrateKbps vbrLevel : option Z) : jsstring :=
  let tpl := expandTemplate template input bitrateKbps vbrLevel in
  replaceFirst reLastExtension [] tpl ++ extOut format.

End Convert.

(** ** The converter ([createConverter], [src/lib/shortpath.ts] lines
    52-279): trimming and the two loudness passes *)

Module Ffmpeg.
Import Num Convert.

(** *** [buildBase], lines 174-187: what the trim range turns into on the
    command *)

Record BaseCommand := {
  startTime : option jsnum;   (* setStartTime *)
  duration : option jsnum     (* duration *)
}.

Definition buildBase (trim : option TrimRange) : BaseCommand :=
  let start := trim ≫= trimStart in
  let end_ := trim ≫= trimEnd in
  {| startTime := start;
     duration :=
       match end_, start with
       | Some e, Some s => Some (max0 (sub e s))
       | Some e, None => Some (max0 e)
       | None, _ => None
       end |}.

(** *** [measureLoudness], lines 136-172, and the filter of [toMp3], lines
    224-228

    The engine's run is given by the lines it wrote to stderr and by the
    event that ended it.  A parsed JSON object is a map from keys to values;
    a value is [null] or is carried by the text a template literal prints
    for it.  [JSON.parse] itself is a parameter: [None] when it throws. *)

Inductive JVal :=
| JNull
| JText (text : jsstring).

Inductive ProcessEnd :=
| OnEnd
| OnError (message : jsstring).

Definition lineFeed : jsstring := [10%N].

Definition collectStderr (lines : list jsstring) : jsstring :=
  fold_left (fun json line => json ++ line ++ lineFeed) lines [].

Section Loudness.

Variable JSONparse : jsstring -> option (gmap jsstring JVal).

Definition measureLoudness (lines : list jsstring) (ended : ProcessEnd)
    : result (gmap jsstring JVal) :=
  match ended with
  | OnError message => Throw message
  | OnEnd =>
      let json := collectStderr lines in
      match indexOf json (js "{"), lastIndexOf json (js "}") with
      | Some start, Some end_ =>
          match JSONparse (slice json start (end_ + 1)) with
          | Some obj => Ok obj
          | None => Ok ∅
          end
      | _, _ => Ok ∅
      end
  end.

(** [${ln.key ?? fallback}] *)
Definition statOr (ln : gmap jsstring JVal) (key fallback : string)
    : jsstring :=
  match ln !! js key with
  | Some (JText t) => t
  | Some JNull | None => js fallback
  end.

Definition loudnormFilter (ln : gmap jsstring JVal) : jsstring :=
  js "loudnorm=I=-16:TP=-1.5:LRA=11:measured_I=" ++ statOr ln "measured_I" "-16"
  ++ js ":measured_TP=" ++ statOr ln "measured_TP" "-1.5"
  ++ js ":measured_LRA=" ++ statOr ln "measured_LRA" "11"
  ++ js ":measured_thresh=" ++ statOr ln "measured_thresh" "-26"
  ++ js ":linear=true:print_format=summary".

(** The part of [toMp3] that decides the audio filter of the encode:
    [Throw] when pass 1 rejects, [Ok None] without normalization. *)
Definition pass2Filter (loudnorm : bool) (lines : list jsstring)
    (ended : ProcessEnd) : result (option jsstring) :=
  if loudnorm then
    match measureLoudness lines ended with
    | Throw message => Throw message
    | Ok pass2Loudnorm => Ok (Some (loudnormFilter pass2Loudnorm))
    end
  else Ok None.

End Loudness.

End Ffmpeg.

(** ** The concurrency bound, [convertPaths] lines 122-125 *)

Module Concurrency.

Inductive Throttle := ThrottleOff | ThrottleMedium | ThrottleLow.

(** [Math.max(1, Math.min(64, opts.concurrency ?? Math.max(1, Math.floor(cpus / 2))))] *)
Definition baseConc (concurrency : option Z) (cpus : Z) : Z :=
  Z.max 1 (Z.min 64 (match concurrency with
                     | Some c => c
                     | None => Z.max 1 (cpus / 2)
                     end)).

Definition effectiveConcurrency
    (concurrency : option Z) (throttle : option Throttle) (cpus : Z) : Z :=
  let concurrency0 := baseConc concurrency cpus in
  match throttle with
  | Some ThrottleLow => Z.min concurrency0 1
  | Some ThrottleMedium => Z.min concurrency0 2
  | _ => concurrency0
  end.

(** The bound as the specification words it. *)
Definition clamp (lo hi x : Z) : Z :=
  if x <? lo then lo else if hi <? x then hi else x.

Definition specRequested (concurrency : option Z) (cpus : Z) : Z :=
  match concurrency with Some c => c | None => cpus / 2 end.

Definition specCap (throttle : option Throttle) (c : Z) : Z :=
  match throttle with
  | Some ThrottleLow => if 1 <? c then 1 else c
  | Some ThrottleMedium => if 2 <? c then 2 else c
  | _ => c
  end.

Definition specConcurrency
    (concurrency : option Z) (throttle : option Throttle) (cpus : Z) : Z :=
  specCap throttle (clamp 1 64 (specRequested concurrency cpus)).

End Concurrency.

(** ** [convertPaths]: input resolution and the per-file pipeline

    The world that a run reads and changes is explicit: the files on disk,
    the directories it made, the callbacks and progress-bar calls it issued,
    the calls into the transcoding backend, the unlinks, the index counter
    and the bound given to the limiter.  Tasks are run one after the other
    in candidate order, which is the schedule of a bound of 1; tasks share
    only the index counter and the disk, so what one task emits does not
    depend on the schedule. *)

Module Task.
Import Regex Path Num Convert Concurrency.

Record File := {
  content : jsstring;
  mtime : Z
}.

Inductive Event :=
| FileStart (input : jsstring) (index total : nat) (output : jsstring)
| FileProgress (input : jsstring) (percent : Q)
| FileDone (input output : jsstring) (ok : bool) (error : option jsstring)
| BarCreate (input : jsstring)
| BarUpdate (input : jsstring) (value : Z)
| BarStop (input : jsstring).

Record EncodeArgs := {
  encInput : jsstring;
  encOutput : jsstring;
  encThreads : option Z;
  encLoudnorm : bool;
  encTrim : TrimRange;
  encMetadata : gmap jsstring jsstring
}.

Inductive BackendCall :=
| CallProbe (input : jsstring)
| CallExtractAttached (input : jsstring) (streamIndex : nat) (out : jsstring)
| CallExtractFrame (input : jsstring) (timeSec : Q) (out : jsstring)
| CallEncode (args : EncodeArgs).

Record World := {
  files : gmap jsstring File;
  dirs : gset jsstring;
  events : list Event;
  calls : list BackendCall;
  unlinks : list jsstring;
  idxCounter : nat;
  limiter : option Z
}.

(** *** What the outside answers *)

Inductive ProbeOutcome :=
| ProbeThrows
| ProbeTags (tags : gmap jsstring jsstring)
            (attachedPicStreamIndex : option nat).

(** An extraction may leave a file behind and may throw, independently. *)
Record ExtractOutcome := {
  extractWrites : option File;
  extractThrows : bool
}.

(** One call of the encoder: the percentages it reports, the file it leaves
    at the output path if any, and the message of its error if it rejects. *)
Record AttemptOutcome := {
  progress : list Q;
  written : option File;
  failure : option jsstring
}.

Record TaskEnv := {
  pausedPolls : nat;
  probe : ProbeOutcome;
  randAttached : jsstring;
  randFrame : jsstring;
  attachedExtract : ExtractOutcome;
  frameExtract : ExtractOutcome;
  attemptOutcome : nat -> AttemptOutcome
}.

Record Platform := {
  cwd : jsstring;
  cpus : Z;
  resolve : jsstring -> jsstring -> jsstring;
  join : jsstring -> jsstring -> jsstring;
  relative : jsstring -> jsstring -> jsstring;
  dirname : jsstring -> jsstring;
  fastGlob : gmap jsstring File -> list jsstring -> list jsstring;
  taskEnv : jsstring -> TaskEnv
}.

(** *** [ConvertOptions]

    [sampleRate] and [channels] are handed to the encoder as they are and
    [autoCover.enabled] is never read; they are left out.  A callback is
    represented by whether it was supplied. *)

Record CoverRule := {
  ruleTest : jsstring -> option bool;  (* new RegExp(pattern, 'i').test; None: it throws *)
  ruleTimeSec : Q
}.

Record Retry := {
  retryAttempts : Z;
  retryDelayMs : option Z
}.

Record ConvertOptions := {
  outDir : jsstring;
  bitrateKbps : option Z;
  vbrLevel : option Z;
  loudnorm : bool;
  trim : option jsstring;
  concurrency : option Z;
  keepStructure : bool;
  overwrite : bool;
  dryRun : bool;
  throttle : option Throttle;
  throttleDelayMs : option Z;
  autoMeta : option bool;
  preferDetected : option bool;
  coverFrameSec : option Q;
  coverFrameRules : list CoverRule;
  onFileStart : bool;
  onFileProgress : bool;
  onFileDone : bool;
  metadata : option (gmap jsstring jsstring);
  template : option jsstring;
  format : option jsstring;
  autoCoverTimeSec : option Q;
  retry : option Retry
}.

Record ConvertResult := {
  resInput : jsstring;
  resOutput : option jsstring;
  resOk : bool;
  resError : option jsstring
}.

(** *** A state monad over the world *)

Definition M (A : Type) : Type := World -> A * World.

Definition ret {A} (a : A) : M A := fun w => (a, w).

Definition bind {A B} (x : M A) (f : A -> M B) : M B :=
  fun w => let '(a, w') := x w in f a w'.

Declare Scope task_scope.
Delimit Scope task_scope with task.
Notation "x <- c1 ;; c2" := (bind c1 (fun x => c2))
  (at level 100, c1 at next level, right associativity) : task_scope.
Notation "c1 ;;; c2" := (bind c1 (fun _ => c2))
  (at level 100, right associativity) : task_scope.
Local Open Scope task_scope.

Definition when (b : bool) (c : M unit) : M unit :=
  if b then c else ret tt.

Definition emit (e : Event) : M unit := fun w =>
  (tt, {| files := files w; dirs := dirs w; events := events w ++ [e];
          calls := calls w; unlinks := unlinks w;
          idxCounter := idxCounter w; limiter := limiter w |}).

Definition call (c : BackendCall) : M unit := fun w =>
  (tt, {| files := files w; dirs := dirs w; events := events w;
          calls := calls w ++ [c]; unlinks := unlinks w;
          idxCounter := idxCounter w; limiter := limiter w |}).

Definition setFiles (f : gmap jsstring File -> gmap jsstring File) : M unit :=
  fun w =>
  (tt, {| files := f (files w); dirs := dirs w; events := events w;
          calls := calls w; unlinks := unlinks w;
          idxCounter := idxCounter w; limiter := limiter w |}).

(** [fs.mkdirSync(dir, { recursive: true })] *)
Definition mkdirSync (dir : jsstring) : M unit := fun w =>
  (tt, {| files := files w; dirs := {[dir]} ∪ dirs w; events := events w;
          calls := calls w; unlinks := unlinks w;
          idxCounter := idxCounter w; limiter := limiter w |}).

(** [fs.existsSync(path)], on files. *)
Definition existsSync (path : jsstring) : M bool := fun w =>
  (bool_decide (is_Some (files w !! path)), w).

(** [try { fs.unlinkSync(path) } catch {}] *)
Definition unlinkSync (path : jsstring) : M unit := fun w =>
  (tt, {| files := delete path (files w); dirs := dirs w; events := events w;
          calls := calls w; unlinks := unlinks w ++ [path];
          idxCounter := idxCounter w; limiter := limiter w |}).

(** [idxCounter++] *)
Definition nextIndex : M nat := fun w =>
  (idxCounter w,
   {| files := files w; dirs := dirs w; events := events w; calls := calls w;
      unlinks := unlinks w; idxCounter := S (idxCounter w);
      limiter := limiter w |}).

(** [pLimit(concurrency)] *)
Definition pLimit (bound : Z) : M unit := fun w =>
  (tt, {| files := files w; dirs := dirs w; events := events w;
          calls := calls w; unlinks := unlinks w;
          idxCounter := idxCounter w; limiter := Some bound |}).

Definition writeFile (path : jsstring) (f : option File) : M unit :=
  match f with
  | Some x => setFiles (fun fs => <[path := x]> fs)
  | None => ret tt
  end.

(** *** The merged metadata, lines 259-277 *)

Definition metadataKeys : list jsstring :=
  List.map js ["title"; "artist"; "album"; "genre"; "date"; "track";
               "comment"]%string.

Definition tagOf (tags : gmap jsstring jsstring) (key : string)
    : option jsstring := tags !! js key.

(** The [detected] object. *)
Definition detectedTags (autoTags fileNameTags : gmap jsstring jsstring)
    : gmap jsstring (option jsstring) :=
  list_to_map [
    (js "title", orElse (orElse (orElse (tagOf autoTags "title")
                                        (tagOf autoTags "itl"))
                                (tagOf autoTags "tracktitle"))
                        (tagOf fileNameTags "title"));
    (js "artist", orElse (orElse (orElse (tagOf autoTags "artist")
                                         (tagOf autoTags "album_artist"))
                                 (tagOf autoTags "author"))
                         (tagOf fileNameTags "artist"));
    (js "album", tagOf autoTags "album");
    (js "genre", tagOf autoTags "genre");
    (js "date", orElse (tagOf autoTags "date") (tagOf autoTags "year"));
    (js "track", tagOf autoTags "track");
    (js "comment", orElse (tagOf autoTags "comment")
                          (tagOf autoTags "description"))].

(** [obj[k]] where a property may hold [undefined]. *)
Definition prop (obj : gmap jsstring (option jsstring)) (k : jsstring)
    : option jsstring := obj !! k ≫= id.

(** [merged[k] = v]; a property set to [undefined] reads like a missing one. *)
Definition setProp (merged : gmap jsstring jsstring) (k : jsstring)
    (v : option jsstring) : gmap jsstring jsstring :=
  match v with
  | Some x => <[k := x]> merged
  | None => delete k merged
  end.

Definition mergeMetadata (preferDetected : bool)
    (autoTags fileNameTags manual : gmap jsstring jsstring)
    (coverPath : option jsstring) : gmap jsstring jsstring :=
  let detected := detectedTags autoTags fileNameTags in
  let merged :=
    fold_left
      (fun merged k =>
         setProp merged k
           (if preferDetected
            then nullish (prop detected k) (manual !! k)
            else nullish (manual !! k) (prop detected k)))
      metadataKeys ∅ in
  setProp merged (js "coverImagePath") coverPath.

(** The tags guessed from the file name, lines 220-226. *)
Definition fileNameTagsOf (autoMeta : option bool) (base : jsstring)
    : gmap jsstring jsstring :=
  let allowAuto := negb (bool_decide (autoMeta = Some false)) in
  if allowAuto then
    let guess := detectFromFilename base in
    setProp (setProp ∅ (js "artist")
               (guessArtist guess ≫= fun a =>
                  if truthy a then Some a else None))
            (js "title")
            (guessTitle guess ≫= fun t => if truthy t then Some t else None)
  else ∅.

(** *** The pipeline of one file, lines 167-309 *)

Definition errorText (message : jsstring) : jsstring :=
  if truthy message then message else js "Error".

Definition notAFunction : jsstring := js "convertFn is not a function".

(** The committed backend returns [toMp3], [extractFrame], [probeTags] and
    [extractAttachedPicture]; [toAac], [toFlac], [toOgg] and [toOpus] are
    [undefined] on it. *)
Definition hasEncoder (ext : jsstring) : bool :=
  let extLower := toLowerCase ext in
  negb (eqs extLower (js ".m4a") || eqs extLower (js ".aac")
        || eqs extLower (js ".flac") || eqs extLower (js ".ogg")
        || eqs extLower (js ".opus")).

Definition threadsOf (t : option Throttle) : option Z :=
  match t with
  | Some ThrottleLow => Some 1
  | Some ThrottleMedium => Some 2
  | _ => None
  end.

(** [Math.min(99, Math.max(1, Math.round(p)))] *)
Definition barValue (p : Q) : Z :=
  Z.min 99 (Z.max 1 (Qfloor (p + (1 # 2)))).

Definition falsyPath (p : option jsstring) : bool := negb (truthyOpt p).

(** [tempCoverPath] *)
Definition tempCoverPath (pf : Platform) (outDir rand suffix : jsstring)
    : jsstring :=
  join pf outDir (js ".tf-" ++ rand ++ suffix).

(** [while (isPaused()) await sleep(100)], for a gate that opens after
    finitely many polls. *)
Fixpoint waitIfPaused (polls : nat) : M unit :=
  match polls with
  | O => ret tt
  | S n => waitIfPaused n
  end.

Fixpoint firstRule (rules : list CoverRule) (base : jsstring) (tSec : Q) : Q :=
  match rules with
  | [] => tSec
  | r :: rules' =>
      match ruleTest r base with
      | Some true => ruleTimeSec r
      | _ => firstRule rules' base tSec
      end
  end.

Section Pipeline.

Variable pf : Platform.
Variable opts : ConvertOptions.

Definition useBars : bool :=
  negb (onFileStart opts || onFileProgress opts || onFileDone opts).

Definition baseOf (input : jsstring) : jsstring :=
  basename input (Some (extname input)).

Definition outDirOf (input : jsstring) : jsstring :=
  let relDir :=
    if keepStructure opts then relative pf (cwd pf) (dirname pf input)
    else [] in
  resolve pf (outDir opts) relDir.

Definition outputOf (input : jsstring) : jsstring :=
  join pf (outDirOf input)
    (outputFileName (template opts) (format opts) input
       (bitrateKbps opts) (vbrLevel opts)).

(** One extraction inside its own [try]: the cover path it yields. *)
Definition tryExtract (c : BackendCall) (tmp : jsstring)
    (o : ExtractOutcome) : M (option jsstring) :=
  call c ;;;
  writeFile tmp (extractWrites o) ;;;
  if extractThrows o then ret None
  else
    there <- existsSync tmp ;;
    ret (if there : bool then Some tmp else None).

(** [onProgress] *)
Definition reportProgress (input : jsstring) (p : Q) : M unit :=
  when useBars (emit (BarUpdate input (barValue p))) ;;;
  when (onFileProgress opts) (emit (FileProgress input p)).

Fixpoint reportAll (input : jsstring) (ps : list Q) : M unit :=
  match ps with
  | [] => ret tt
  | p :: ps' => reportProgress input p ;;; reportAll input ps'
  end.

(** [attempt()]: [None] when it resolves, the error otherwise. *)
Definition attempt (env : TaskEnv) (args : EncodeArgs) (i : nat)
    : M (option jsstring) :=
  if hasEncoder (extOut (format opts)) then
    let o := attemptOutcome env i in
    call (CallEncode args) ;;;
    reportAll (encInput args) (progress o) ;;;
    writeFile (encOutput args) (written o) ;;;
    ret (failure o)
  else ret (Some notAFunction).

(** The retry loop: [n] attempts left, the next one being number [i]. *)
Fixpoint attemptLoop (env : TaskEnv) (args : EncodeArgs) (n i : nat)
    (lastErr : option jsstring) : M (bool * option jsstring) :=
  match n with
  | O => ret (false, lastErr)
  | S n' =>
      r <- attempt env args i ;;
      match r with
      | None => ret (true, lastErr)
      | Some e => attemptLoop env args n' (S i) (Some e)
      end
  end.

Definition attemptsOf : nat :=
  Z.to_nat (Z.max 1 (match retry opts with
                     | Some r => retryAttempts r
                     | None => 1
                     end)).

(** Lines 207-218: probe the tags, and extract the attached picture when
    the user gave no cover.  Yields ([autoTags], [coverPath], [tempCover]). *)
Definition probeAndAttached (input : jsstring) (env : TaskEnv)
    (coverPath0 : option jsstring)
    : M (gmap jsstring jsstring * option jsstring * option jsstring) :=
  call (CallProbe input) ;;;
  match probe env with
  | ProbeThrows => ret (∅, coverPath0, None)
  | ProbeTags tags idx =>
      match idx with
      | Some streamIndex =>
          if falsyPath coverPath0 then
            let tmp := tempCoverPath pf (outDirOf input) (randAttached env)
                         (js ".cover.attached.jpg") in
            got <- tryExtract (CallExtractAttached input streamIndex tmp)
                     tmp (attachedExtract env) ;;
            match got with
            | Some p => ret (tags, Some p, Some p)
            | None => ret (tags, coverPath0, None)
            end
          else ret (tags, coverPath0, None)
      | None => ret (tags, coverPath0, None)
      end
  end.

(** Lines 227-239: a frame of the video when there is still no cover.
    Yields ([coverPath], [tempCover]). *)
Definition frameFallback (input : jsstring) (env : TaskEnv)
    (coverPath1 tempCover1 : option jsstring)
    : M (option jsstring * option jsstring) :=
  if falsyPath coverPath1 then
    let tSec0 :=
      default (default 5%Q (autoCoverTimeSec opts)) (coverFrameSec opts) in
    let tSec := firstRule (coverFrameRules opts) (baseOf input) tSec0 in
    let tmp := tempCoverPath pf (outDirOf input) (randFrame env)
                 (js ".cover.jpg") in
    got <- tryExtract (CallExtractFrame input tSec tmp) tmp
             (frameExtract env) ;;
    match got with
    | Some p => ret (Some p, Some p)
    | None => ret (coverPath1, tempCover1)
    end
  else ret (coverPath1, tempCover1).

Definition doneResult (input out : jsstring) : ConvertResult :=
  {| resInput := input; resOutput := Some out; resOk := true;
     resError := None |}.

Definition failedResult (input out e : jsstring) : ConvertResult :=
  {| resInput := input; resOutput := Some out; resOk := false;
     resError := Some (errorText e) |}.

(** Lines 292-294 and 203-205: the success epilogue. *)
Definition reportDone (input out : jsstring) : M (result ConvertResult) :=
  when useBars (emit (BarUpdate input 100) ;;; emit (BarStop input)) ;;;
  when (onFileDone opts) (emit (FileDone input out true None)) ;;;
  ret (Ok (doneResult input out)).

(** The body of the [try] block: [Ok] is its [return], [Throw] what the
    [catch] receives.  The sleeps (throttle delay, retry delay) and the
    console output change nothing that is modelled and are left out. *)
Definition tryBody (trimRange : TrimRange) (input out : jsstring)
    (env : TaskEnv) : M (result ConvertResult) :=
  waitIfPaused (pausedPolls env) ;;;
  if dryRun opts then reportDone input out
  else
    let manual := default ∅ (metadata opts) in
    probed <- probeAndAttached input env (manual !! js "coverImagePath") ;;
    let '(autoTags, coverPath1, tempCover1) := probed in
    let fileNameTags := fileNameTagsOf (autoMeta opts) (baseOf input) in
    framed <- frameFallback input env coverPath1 tempCover1 ;;
    let '(coverPath, tempCover) := framed in
    let args :=
      {| encInput := input; encOutput := out;
         encThreads := threadsOf (throttle opts);
         encLoudnorm := loudnorm opts;
         encTrim := trimRange;
         encMetadata :=
           mergeMetadata (bool_decide (preferDetected opts = Some true))
             autoTags fileNameTags manual coverPath |} in
    ran <- attemptLoop env args attemptsOf 0 None ;;
    let '(okRun, lastErr) := ran in
    if okRun : bool then
      match tempCover with
      | Some tmp => unlinkSync tmp
      | None => ret tt
      end ;;;
      reportDone input out
    else ret (Throw (default [] lastErr)).

(** Lines 295-308: the [catch] block. *)
Definition catchBlock (input out e : jsstring) : M ConvertResult :=
  when useBars (emit (BarStop input)) ;;;
  when (onFileDone opts)
    (emit (FileDone input out false (Some (errorText e)))) ;;;
  ret (failedResult input out e).

Definition runTask (trimRange : TrimRange) (total : nat) (input : jsstring)
    : M ConvertResult :=
  let out := outputOf input in
  when (negb (dryRun opts)) (mkdirSync (outDirOf input)) ;;;
  there <- existsSync out ;;
  if negb (overwrite opts) && there then ret (doneResult input out)
  else
    index <- nextIndex ;;
    when (onFileStart opts) (emit (FileStart input index total out)) ;;;
    when useBars (emit (BarCreate input)) ;;;
    r <- tryBody trimRange input out (taskEnv pf input) ;;
    match r with
    | Ok res => ret res
    | Throw e => catchBlock input out e
    end.

Fixpoint runTasks (trimRange : TrimRange) (total : nat)
    (candidates : list jsstring) : M (list ConvertResult) :=
  match candidates with
  | [] => ret []
  | input :: rest =>
      r <- runTask trimRange total input ;;
      rs <- runTasks trimRange total rest ;;
      ret (r :: rs)
  end.

(** The percentages the attempts of one file report, in order: each
    attempt's list, up to and including the first attempt that resolves. *)
Fixpoint percentsLoop (env : TaskEnv) (n i : nat) : list Q :=
  match n with
  | O => []
  | S n' =>
      progress (attemptOutcome env i)
        ++ match failure (attemptOutcome env i) with
           | None => []
           | Some _ => percentsLoop env n' (S i)
           end
  end.

Definition reportedPercents (input : jsstring) : list Q :=
  if dryRun opts then []
  else if hasEncoder (extOut (format opts))
       then percentsLoop (taskEnv pf input) attemptsOf 0
       else [].

(** *** Input resolution, lines 136-152 *)

(** [/[\*\?\[\]\{\}!]/] *)
Definition reGlob : re := Unit (oneOf (js "*?[]{}!")).
Definition isGlob (s : jsstring) : bool := test reGlob s.

(** [/^[a-zA-Z]:\\/] *)
Definition reDrive : re :=
  seqs [Bol; Unit (fun u => isLower u || isUpper u); Unit (eqU 58);
        Unit (eqU 92)].

Definition absoluteOf (inp : jsstring) : jsstring :=
  if startsWith inp [92; 92]%N || test reDrive inp then inp
  else resolve pf (cwd pf) inp.

Definition isFile (fs : gmap jsstring File) (path : jsstring) : bool :=
  bool_decide (is_Some (fs !! path)).

(** The loop over the inputs: ([direct], [patterns]). *)
Fixpoint classify (fs : gmap jsstring File) (inputs : list jsstring)
    : list jsstring * list jsstring :=
  match inputs with
  | [] => ([], [])
  | inp :: rest =>
      let '(direct, patterns) := classify fs rest in
      if negb (truthy inp) then (direct, patterns)
      else
        let abs := absoluteOf inp in
        if isFile fs abs then (abs :: direct, patterns)
        else if isGlob inp then (direct, inp :: patterns)
        else (direct, patterns)
  end.

(** [Array.from(new Set(l))]: the first occurrence of each element, in order. *)
Fixpoint uniq (seen l : list jsstring) : list jsstring :=
  match l with
  | [] => []
  | x :: l' =>
      if bool_decide (x ∈ seen) then uniq seen l'
      else x :: uniq (x :: seen) l'
  end.

(** The paths that feed the candidate set: the literal files, then what
    the glob library returned for the patterns. *)
Definition sourcesOf (fs : gmap jsstring File) (inputs : list jsstring)
    : list jsstring :=
  let '(direct, patterns) := classify fs inputs in
  direct ++ match patterns with [] => [] | _ => fastGlob pf fs patterns end.

Definition candidatesOf (fs : gmap jsstring File) (inputs : list jsstring)
    : list jsstring :=
  let '(direct, patterns) := classify fs inputs in
  let globbed :=
    match patterns with
    | [] => []
    | _ => fastGlob pf fs patterns
    end in
  let all := uniq [] (direct ++ globbed) in
  List.filter isMediaLike all.

(** *** [convertPaths] *)

Definition convertPaths (inputs : list jsstring)
    : M (result (list ConvertResult)) :=
  let bound :=
    effectiveConcurrency (concurrency opts) (throttle opts) (cpus pf) in
  fun w =>
    let candidates := candidatesOf (files w) inputs in
    match candidates with
    | [] => (Ok [], w)
    | _ =>
        (pLimit bound ;;;
         match parseTrim (trim opts) with
         | Throw e => ret (Throw e)
         | Ok trimRange =>
             rs <- runTasks trimRange (length candidates) candidates ;;
             ret (Ok rs)
         end) w
    end.

End Pipeline.

End Task.

(** ** The rest of the converter and [src/lib/shortpath.ts]

    [isAscii] and [getShortPathIfAscii] (lines 8-23), [probeTags] (lines
    53-103) and [toMp3] (lines 189-276).  The engine's processes are given
    by how they end; what [toMp3] hands to the engine is a record of the
    calls it made on the command. *)

Module Backend.
Import Regex Path Num Convert Ffmpeg.

(** *** [isAscii] and [getShortPathIfAscii] *)

(** [/^[\x00-\x7F]*$/] *)
Definition reAscii : re :=
  seqs [Bol; Star true (Unit (fun u => (u <=? 127)%N)); Eol].

Definition isAscii (str : jsstring) : bool := test reAscii str.

Definition shortPathCommand (p : jsstring) : jsstring :=
  js "for %I in (" ++ [34%N] ++ p ++ [34%N] ++ js ") do @echo %~sI".

(** [platform] is [os.platform()]; [execSync] answers the standard output
    of the command, or [None] when it throws. *)
Definition getShortPathIfAscii (platform : jsstring)
    (execSync : jsstring -> option jsstring) (p : jsstring) : jsstring :=
  if negb (eqs platform (js "win32")) then p
  else if negb (isAscii p) then p
  else
    match execSync (shortPathCommand p) with
    | Some stdout =>
        let shortPath := trim stdout in
        if Nat.ltb 0 (length shortPath) then shortPath else p
    | None => p
    end.

(** *** The check of the input file, lines 57-68 and 192-203 *)

Inductive StatOutcome :=
| StatSize (size : Z)
| StatThrows (message : jsstring).

Definition includesText (s pat : jsstring) : bool :=
  match indexOf s pat with Some _ => true | None => false end.

Definition emptyInput : jsstring := js "Input file is empty (0 bytes)".

Definition checkInput (stat : StatOutcome) (input : jsstring) : result unit :=
  match stat with
  | StatSize size =>
      if size =? 0 then Throw emptyInput else Ok tt
  | StatThrows message =>
      if includesText message (js "ENOENT")
      then Throw (js "Input file not found: " ++ input)
      else Throw message
  end.

(** *** [probeTags] *)

(** A tag value is a string or something else ([typeof v !== 'string']). *)
Inductive TagValue :=
| TagString (s : jsstring)
| TagOther.

(** A tags object, by its entries in [Object.entries] order. *)
Definition TagEntries := list (jsstring * TagValue).

Record Stream := {
  streamTags : option TagEntries;
  attachedPic : bool             (* s?.disposition?.attached_pic is truthy *)
}.

Record ProbeData := {
  formatTags : option TagEntries;   (* data.format?.tags *)
  streams : option (list Stream)    (* data.streams *)
}.

Inductive FfprobeOutcome :=
| FfprobeError (message : jsstring)
| FfprobeNoData
| FfprobeData (data : ProbeData).

(** The lower-case names a plain object answers without owning them. *)
Definition inherited (key : jsstring) : bool :=
  eqs key (js "constructor") || eqs key (js "__proto__").

(** [tags[key]] is truthy. *)
Definition hasTag (tags : gmap jsstring jsstring) (key : jsstring) : bool :=
  inherited key
  || match tags !! key with Some v => truthy v | None => false end.

(** The body of the inner loop, lines 89-92. *)
Definition addEntry (tags : gmap jsstring jsstring)
    (entry : jsstring * TagValue) : gmap jsstring jsstring :=
  let key := toLowerCase entry.1 in
  match entry.2 with
  | TagString v => if hasTag tags key then tags else <[key := v]> tags
  | TagOther => tags
  end.

Definition tagCandidates (data : ProbeData) : list TagEntries :=
  default [] (formatTags data)
  :: List.map (fun s => default [] (streamTags s)) (default [] (streams data)).

Definition collectTags (candidates : list TagEntries)
    : gmap jsstring jsstring :=
  fold_left (fun tags t => fold_left addEntry t tags) candidates ∅.

(** The loop of lines 96-99: the first stream with an attached picture. *)
Fixpoint firstAttachedPic (ss : list Stream) (i : nat) : option nat :=
  match ss with
  | [] => None
  | s :: ss' => if attachedPic s then Some i else firstAttachedPic ss' (S i)
  end.

Definition invalidData : jsstring :=
  js "Invalid data found when processing input".

Definition corruptedMessage (input : jsstring) : jsstring :=
  js "Invalid or corrupted video file: " ++ input
  ++ js ". The file may be empty or in an unsupported format.".

Definition probeTags (input : jsstring) (stat : StatOutcome)
    (probed : FfprobeOutcome)
    : result (gmap jsstring jsstring * option nat) :=
  match checkInput stat input with
  | Throw e => Throw e
  | Ok _ =>
      match probed with
      | FfprobeError message =>
          if includesText message invalidData
          then Throw (corruptedMessage input)
          else Throw message
      | FfprobeNoData => Ok (∅, None)
      | FfprobeData data =>
          Ok (collectTags (tagCandidates data),
              firstAttachedPic (default [] (streams data)) 0)
      end
  end.

(** *** [toMp3] *)

(** [audioQuality(q)] or [audioBitrate(text)], lines 211-219. *)
Inductive AudioSetting :=
| AudioQuality (q : Z)
| AudioBitrate (text : jsstring).

Definition audioSetting (vbrLevel bitrateKbps : option Z) : AudioSetting :=
  match vbrLevel with
  | Some v => AudioQuality (Z.min 9 (Z.max 0 v))
  | None =>
      match bitrateKbps with
      | Some b => AudioBitrate (StringOfZ (Z.max 32 b) ++ js "k")
      | None => AudioBitrate (js "192k")
      end
  end.

Record ToMp3Options := {
  optInput : jsstring;
  optOutput : jsstring;
  optBitrateKbps : option Z;
  optVbrLevel : option Z;
  optSampleRate : option Z;
  optChannels : option Z;
  optLoudnorm : bool;
  optTrim : option TrimRange;
  optMetadata : option (gmap jsstring jsstring);
  optThreads : option Z
}.

(** [if (md.key) cmd.outputOption('-metadata', `key=${md.key}`)] *)
Definition tagOption (md : gmap jsstring jsstring) (key : string)
    : list jsstring :=
  match md !! js key with
  | Some v => if truthy v then [js "-metadata"; js key ++ js "=" ++ v] else []
  | None => []
  end.

(** Lines 238-244, in this order. *)
Definition tagOptions (md : gmap jsstring jsstring) : list jsstring :=
  tagOption md "title" ++ tagOption md "artist" ++ tagOption md "album"
  ++ tagOption md "genre" ++ tagOption md "date" ++ tagOption md "track"
  ++ tagOption md "comment".

Definition coverOf (md : option (gmap jsstring jsstring)) : option jsstring :=
  match md ≫= (fun m => m !! js "coverImagePath") with
  | Some c => if truthy c then Some c else None
  | None => None
  end.

(** [outOpts], lines 230-251. *)
Definition outOpts (o : ToMp3Options) : list jsstring :=
  [js "-map_metadata"; js "0"]
  ++ match optThreads o with
     | Some t => if 0 <? t then [js "-threads"; StringOfZ t] else []
     | None => []
     end
  ++ match optMetadata o with
     | Some md =>
         match coverOf (Some md) with
         | Some _ =>
             List.map js ["-map"; "0:a"; "-map"; "1"; "-c:v"; "copy";
                          "-disposition:v:1"; "attached_pic";
                          "-id3v2_version"; "3"]%string
         | None => List.map js ["-map"; "0:a"; "-id3v2_version"; "3"]%string
         end
     | None => []
     end.

(** A number option that is set and not zero: [if (sampleRate)]. *)
Definition truthyNumber (n : option Z) : option Z :=
  match n with
  | Some z => if z =? 0 then None else Some z
  | None => None
  end.

(** What [toMp3] has put on the command when it calls [save]. *)
Record Command := {
  cmdInputs : list jsstring;
  cmdBase : BaseCommand;
  cmdCodec : jsstring;
  cmdAudio : AudioSetting;
  cmdFrequency : option Z;
  cmdChannels : option Z;
  cmdFilter : option jsstring;
  cmdOutputOptions : list jsstring;
  cmdOutput : jsstring
}.

Section ToMp3.

(** [getShortPathIfAscii(path.resolve(p))] and [getShortPathIfAscii(p)]. *)
Variable resolvedShort : jsstring -> jsstring.
Variable short : jsstring -> jsstring.
Variable JSONparse : jsstring -> option (gmap jsstring JVal).

Definition buildCommand (o : ToMp3Options) (filter : option jsstring)
    : Command :=
  {| cmdInputs :=
       resolvedShort (optInput o)
       :: match coverOf (optMetadata o) with
          | Some c => [short c]
          | None => []
          end;
     cmdBase := buildBase (optTrim o);
     cmdCodec := js "libmp3lame";
     cmdAudio := audioSetting (optVbrLevel o) (optBitrateKbps o);
     cmdFrequency := truthyNumber (optSampleRate o);
     cmdChannels := truthyNumber (optChannels o);
     cmdFilter := filter;
     cmdOutputOptions :=
       match optMetadata o with
       | Some md => tagOptions md
       | None => []
       end ++ outOpts o;
     cmdOutput := resolvedShort (optOutput o) |}.

(** The engine processes [toMp3] starts, in order. *)
Inductive Process :=
| Measure (input : jsstring)
| Encode (command : Command).

(** The message of the error the encode rejects with, lines 260-268. *)
Definition encodeError (o : ToMp3Options) (message : jsstring) : jsstring :=
  if includesText message invalidData
  then corruptedMessage (optInput o)
  else js "FFmpeg error: " ++ message ++ js ". Input: " ++ optInput o
       ++ js ", Output: " ++ optOutput o.

(** [toMp3]: the processes it started and how it settled.  [measured] is
    the run of pass 1 (its stderr lines and its end), [encoded] the end of
    the encode. *)
Definition toMp3 (o : ToMp3Options) (stat : StatOutcome)
    (measured : list jsstring * ProcessEnd) (encoded : ProcessEnd)
    : list Process * result unit :=
  match checkInput stat (optInput o) with
  | Throw e => ([], Throw e)
  | Ok _ =>
      let started :=
        if optLoudnorm o then [Measure (resolvedShort (optInput o))] else [] in
      match pass2Filter JSONparse (optLoudnorm o) measured.1 measured.2 with
      | Throw e => (started, Throw e)
      | Ok filter =>
          (started ++ [Encode (buildCommand o filter)],
           match encoded with
           | OnEnd => Ok tt
           | OnError message => Throw (encodeError o message)
           end)
      end
  end.

End ToMp3.

End Backend.

(** ** The desktop shell's main process ([src/gui/main.ts], the unnamed
    part 001): folder expansion, the resume queue around [start-convert],
    and the output preview

    The queue file is kept as the value last written to it; reading it
    back gives that value. *)

Module Gui.
Import Regex Path Num Convert Task.

(** *** [isSupported] and [walkDir] *)

Definition SUPPORTED_EXTS : list jsstring :=
  List.map js [".mp3"; ".wav"; ".m4a"; ".aac"; ".flac"; ".ogg"; ".opus";
               ".wma"; ".webm"; ".mp4"; ".mkv"; ".mov"; ".avi"; ".wmv"]%string.

Definition isSupported (p : jsstring) : bool :=
  includes SUPPORTED_EXTS (toLowerCase (extname p)).

(** What is found at a path: a file, a directory with its entries in
    [readdirSync] order, something that is neither, or a place where
    [statSync] or [readdirSync] throws. *)
Inductive Node :=
| FileNode
| DirNode (entries : Entries)
| OtherNode
| Failing
with Entries :=
| NoEntries
| Entry (name : jsstring) (child : Node) (rest : Entries).

Scheme Node_mut := Induction for Node Sort Prop
  with Entries_mut := Induction for Entries Sort Prop.

(** [walkDir(startPath, out)]: what the list [out] has become, and whether
    the call threw.  [walkEntries] is the loop over the names of a
    directory. *)
Fixpoint walkDir (join : jsstring -> jsstring -> jsstring)
    (startPath : jsstring) (node : Node) (out : list jsstring)
    : list jsstring * bool :=
  match node with
  | FileNode =>
      (if isSupported startPath then out ++ [startPath] else out, false)
  | DirNode entries => walkEntries join startPath entries out
  | OtherNode => (out, false)
  | Failing => (out, true)
  end
with walkEntries (join : jsstring -> jsstring -> jsstring)
    (startPath : jsstring) (entries : Entries) (out : list jsstring)
    : list jsstring * bool :=
  match entries with
  | NoEntries => (out, false)
  | Entry name child rest =>
      let '(out', threw) := walkDir join (join startPath name) child out in
      if threw : bool then (out', true)
      else walkEntries join startPath rest out'
  end.

(** The handler of [fs:expandPaths]: every path is walked inside its own
    [try], then duplicates are removed. *)
Definition expandPaths (join : jsstring -> jsstring -> jsstring)
    (lookup : jsstring -> Node) (paths : list jsstring) : list jsstring :=
  uniq [] (fold_left (fun out p => (walkDir join p (lookup p) out).1) paths []).

(** *** The resume queue *)

Record Queue := {
  pending : list jsstring;
  done : list jsstring;
  fail : list jsstring
}.

Definition emptyQueue : Queue := {| pending := []; done := []; fail := [] |}.

(** Lines 97-103: the inputs of the run and the queue written before it. *)
Definition mergeInputs (q : Queue) (baseInputs : list jsstring)
    : list jsstring :=
  uniq [] (pending q ++ baseInputs).

Definition queueAtStart (q : Queue) (baseInputs : list jsstring) : Queue :=
  {| pending := mergeInputs q baseInputs; done := done q; fail := fail q |}.

(** [[...list, extra].filter(Boolean)] *)
Definition appended (l : list jsstring) (extra : option jsstring)
    : list jsstring :=
  List.filter truthy (l ++ match extra with Some x => [x] | None => [] end).

(** The queue update of [onFileDone], lines 146-151. *)
Definition onFileDoneQueue (q : Queue) (input : jsstring) (ok : bool) : Queue :=
  {| pending :=
       List.filter (fun p => negb (eqs p input)) (pending q);
     done := appended (done q) (if ok then Some input else None);
     fail := appended (fail q) (if ok then None else Some input) |}.

Definition onEventQueue (q : Queue) (e : Event) : Queue :=
  match e with
  | FileDone input _ ok _ => onFileDoneQueue q input ok
  | _ => q
  end.

(** The options the handler passes on: the three callbacks are always
    supplied, and [format] is not among them. *)
Definition handlerOptions (o : ConvertOptions) : ConvertOptions :=
  {| outDir := outDir o;
     bitrateKbps := bitrateKbps o; vbrLevel := vbrLevel o;
     loudnorm := loudnorm o;
     trim := trim o; concurrency := concurrency o;
     keepStructure := keepStructure o; overwrite := overwrite o;
     dryRun := dryRun o;
     throttle := throttle o; throttleDelayMs := throttleDelayMs o;
     autoMeta := autoMeta o; preferDetected := preferDetected o;
     coverFrameSec := coverFrameSec o; coverFrameRules := coverFrameRules o;
     onFileStart := true; onFileProgress := true; onFileDone := true;
     metadata := metadata o; template := template o; format := None;
     autoCoverTimeSec := autoCoverTimeSec o; retry := retry o |}.

(** The handler of [start-convert], on decoded paths: the result of the
    run, the world after it and the queue file after it.  The output
    directory is made first when it is not there. *)
Definition startConvert (pf : Platform) (o : ConvertOptions)
    (resumeEnabled : bool) (q : Queue) (inputs : list jsstring) (w : World)
    : result (list ConvertResult) * World * Queue :=
  let workingInputs := if resumeEnabled then mergeInputs q inputs else inputs in
  let run :=
    convertPaths pf (handlerOptions o) workingInputs
      (mkdirSync (outDir o) w).2 in
  let emitted := drop (length (events w)) (events run.2) in
  (run.1, run.2,
   if resumeEnabled
   then fold_left onEventQueue emitted (queueAtStart q inputs)
   else q).

(** *** [preview-output] *)

(** A number option that is truthy: set and not zero. *)
Definition shownNumber (n : option Z) : option jsstring :=
  match n with
  | Some z => if z =? 0 then None else Some (StringOfZ z)
  | None => None
  end.

(** [outName] of the preview, before it is joined to the directory. *)
Definition previewName (template : option jsstring) (input : jsstring)
    (bitrateKbps vbrLevel : option Z) : jsstring :=
  let t0 :=
    match template with
    | Some t => if truthy t then t else defaultTemplate
    | None => defaultTemplate
    end in
  let ext := replaceFirst reLeadingDot [] (extname input) in
  let base := basename input (Some (extname input)) in
  let n1 :=
    JS.replace (JS.replace t0 (js "{basename}") base) (js "{ext}") ext in
  let n2 :=
    match shownNumber bitrateKbps with
    | Some b => JS.replace n1 (js "{bitrate}") b
    | None => n1
    end in
  match shownNumber vbrLevel with
  | Some v => JS.replace n2 (js "{vbr}") v
  | None => n2
  end.

End Gui.

(** ** The properties, in the words of the specification *)

Module Spec.
Import Regex Path Num Convert Ffmpeg Concurrency Task.

(** *** Trimming *)

(** A component of the trim string that is there, is not empty and does not
    read as a number. *)
Definition nonNumeric (x : option jsstring) : Prop :=
  exists s, x = Some s /\ s <> [] /\ Number s = NaN.

(** *** Loudness *)

(** Pass 1 yields no parseable statistics: the collected stderr has no
    opening brace, or no closing brace, or [JSON.parse] throws on the text
    between the first opening and the last closing one. *)
Definition noParseableStats (JSONparse : jsstring -> option (gmap jsstring JVal))
    (lines : list jsstring) : Prop :=
  let json := collectStderr lines in
  match indexOf json (js "{"), lastIndexOf json (js "}") with
  | Some start, Some end_ => JSONparse (slice json start (end_ + 1)) = None
  | _, _ => True
  end.

Definition fallbackFilter : jsstring :=
  js "loudnorm=I=-16:TP=-1.5:LRA=11:measured_I=-16:measured_TP=-1.5:measured_LRA=11:measured_thresh=-26:linear=true:print_format=summary".

(** *** The file-name heuristic

    A pattern proposes a raw (artist, title) pair; a candidate is that pair
    scrubbed, kept when both sides are non-empty; the first pattern with a
    candidate wins. *)

Definition Pattern := jsstring -> option (jsstring * jsstring).

Definition artistDashTitle : Pattern := match2 reArtistDashTitle.

Definition titleByArtist : Pattern := fun fileBase =>
  match match2 reTitleByArtist fileBase with
  | Some (title, artist) => Some (artist, title)
  | None => None
  end.

Definition artistUnderscoreTitle : Pattern := match2 reArtistUnderscoreTitle.

Definition dashSplit : Pattern := fun fileBase =>
  match Regex.splitBy reDash fileBase with
  | [artist; title] => Some (artist, title)
  | _ => None
  end.

Definition patternsInOrder : list Pattern :=
  [artistDashTitle; titleByArtist; artistUnderscoreTitle; dashSplit].

Definition candidate (p : Pattern) (fileBase : jsstring)
    : option (jsstring * jsstring) :=
  match p fileBase with
  | Some (artist, title) =>
      if truthy (scrub artist) && truthy (scrub title)
      then Some (scrub artist, scrub title)
      else None
  | None => None
  end.

Fixpoint firstWinner (ps : list Pattern) (fileBase : jsstring)
    : option (jsstring * jsstring) :=
  match ps with
  | [] => None
  | p :: ps' =>
      match candidate p fileBase with
      | Some won => Some won
      | None => firstWinner ps' fileBase
      end
  end.

Definition guessOf (won : option (jsstring * jsstring)) : Guess :=
  match won with
  | Some (artist, title) =>
      {| guessTitle := Some title; guessArtist := Some artist |}
  | None => noGuess
  end.

(** *** Metadata precedence *)

Definition chosen (preferDetected : bool) (detected user : option jsstring)
    : option jsstring :=
  if preferDetected
  then match detected with Some d => Some d | None => user end
  else match user with Some u => Some u | None => detected end.

(** *** The media allow-list *)

Definition allowList : list jsstring :=
  List.map js [".mp4"; ".mov"; ".mkv"; ".avi"; ".webm"; ".flv"; ".wmv";
               ".m4v"; ".3gp"; ".mp3"; ".wav"; ".m4a"; ".aac"; ".flac";
               ".ogg"; ".opus"; ".wma"]%string.

(** *** The events of one file *)

Definition eventInput (e : Event) : jsstring :=
  match e with
  | FileStart input _ _ _ | FileProgress input _ | FileDone input _ _ _
  | BarCreate input | BarUpdate input _ | BarStop input => input
  end.

Definition eventsFor (input : jsstring) (es : list Event) : list Event :=
  List.filter (fun e => eqs (eventInput e) input) es.

Definition isStart (e : Event) : bool :=
  match e with FileStart _ _ _ _ => true | _ => false end.

Definition isDone (e : Event) : bool :=
  match e with FileDone _ _ _ _ => true | _ => false end.

Definition inFlight (p : Q) : Prop := (1 <= p)%Q /\ (p <= 99)%Q.

Definition nonDecreasing (ps : list Q) : Prop :=
  forall i p q, ps !! i = Some p -> ps !! S i = Some q -> (p <= q)%Q.

(** The contract in the specification's words: at most one start, then
    progress events that do not decrease and stay within [1,99], then
    exactly one done event. *)
Definition specContract (input : jsstring) (es : list Event) : Prop :=
  exists starts ps done,
    es = starts ++ List.map (FileProgress input) ps ++ [done]
    /\ (length starts <= 1)%nat
    /\ Forall (fun e => isStart e = true) starts
    /\ isDone done = true
    /\ Forall inFlight ps
    /\ nonDecreasing ps.

(** What a task that got past the skip check emits: its start, the
    backend's percentages as they came, its done event. *)
Definition taskTrace (pf : Platform) (opts : ConvertOptions) (total : nat)
    (input : jsstring) (index : nat) (ok : bool) (error : option jsstring)
    : list Event :=
  FileStart input index total (outputOf pf opts input)
  :: List.map (FileProgress input) (reportedPercents pf opts input)
  ++ [FileDone input (outputOf pf opts input) ok error].

(** The events a run shows for one candidate: none, or one trace. *)
Definition tracedBy (pf : Platform) (opts : ConvertOptions) (total : nat)
    (c : jsstring) (t : list Event) : Prop :=
  t = []
  \/ exists index ok error, t = taskTrace pf opts total c index ok error.

(** The skip check of line 187, read off the disk. *)
Definition skips (pf : Platform) (opts : ConvertOptions)
    (fs : gmap jsstring File) (input : jsstring) : bool :=
  negb (overwrite opts) && isFile fs (outputOf pf opts input).

(** What a run that skips may still change is left out: the directories
    it made sure of and the bound it gave to the limiter. *)
Definition sameButDirs (w w' : World) : Prop :=
  files w' = files w /\ calls w' = calls w /\ events w' = events w
  /\ unlinks w' = unlinks w /\ idxCounter w' = idxCounter w.

(** *** Template placeholders *)

Definition tokBasename : jsstring := js "{basename}".
Definition tokExt : jsstring := js "{ext}".
Definition tokBitrate : jsstring := js "{bitrate}".
Definition tokVbr : jsstring := js "{vbr}".

Definition placeholders : list jsstring :=
  [tokBasename; tokExt; tokBitrate; tokVbr].

(** The number of places where [tok] occurs in [s]. *)
Fixpoint occurrences (tok s : jsstring) : nat :=
  match s with
  | [] => 0
  | _ :: s' => ((if isPrefix tok s then 1 else 0) + occurrences tok s')%nat
  end.

(** A placeholder: an opening brace, a body without braces, a closing one. *)
Definition braced (tok : jsstring) : Prop :=
  exists body, tok = (123%N :: body ++ [125%N])
               /\ (123%N ∉ body) /\ (125%N ∉ body).

(** The part of an expanded template that line 182 keeps: everything before
    the match of [/\.[^\.]+$/], or all of it without a match. *)
Definition beforeExtension (tpl : jsstring) : jsstring :=
  match exec reLastExtension tpl with
  | Some (a, _, _) => take a tpl
  | None => tpl
  end.

(** The template the expansion starts from: [opts.template || '{basename}.mp3']. *)
Definition templateOf (template : option jsstring) : jsstring :=
  match template with
  | Some t => if truthy t then t else defaultTemplate
  | None => defaultTemplate
  end.

(** *** What a first run leaves behind *)

(** The two temporary names a task may write and unlink. *)
Definition attachedTemp (pf : Platform) (opts : ConvertOptions)
    (input : jsstring) (env : TaskEnv) : jsstring :=
  tempCoverPath pf (outDirOf pf opts input) (randAttached env)
    (js ".cover.attached.jpg").

Definition frameTemp (pf : Platform) (opts : ConvertOptions)
    (input : jsstring) (env : TaskEnv) : jsstring :=
  tempCoverPath pf (outDirOf pf opts input) (randFrame env) (js ".cover.jpg").

Definition notTempOf (pf : Platform) (opts : ConvertOptions)
    (input path : jsstring) : Prop :=
  path <> attachedTemp pf opts input (taskEnv pf input)
  /\ path <> frameTemp pf opts input (taskEnv pf input).

(** The engine's side of the contract: an encode that resolves has left a
    file at the output path. *)
Definition encodeLeavesOutput (env : TaskEnv) : Prop :=
  forall i, failure (attemptOutcome env i) = None ->
            is_Some (written (attemptOutcome env i)).

Definition onDisk (path : jsstring) (w : World) : Prop :=
  is_Some (files w !! path).

End Spec.

(** ** Notions used to state further properties of the code *)

Module Props.
Import Regex Path Num Convert Task Spec.
Local Open Scope task_scope.

(** A number that is neither NaN nor below zero. *)
Definition nonNegative (x : jsnum) : Prop :=
  match x with
  | NaN => False
  | Inf negative => negative = false
  | Fin q => (0 <= q)%Q
  end.

(** The extensions the converter accepts and the folder expansion of the
    desktop shell does not. *)
Definition converterOnly : list jsstring :=
  List.map js [".flv"; ".m4v"; ".3gp"]%string.

(** Some event of the list reports [p] as done, well or not. *)
Definition reportedDone (es : list Event) (p : jsstring) : bool :=
  existsb (fun e => match e with
                    | FileDone input _ _ _ => eqs p input
                    | _ => false
                    end) es.

(** *** The steps of a run

    Every change a run makes to the world is one of these steps. *)

Inductive Action :=
| AEmit (e : Event)
| ACall (c : BackendCall)
| AWrite (path : jsstring) (f : File)
| AUnlink (path : jsstring)
| AMkdir (dir : jsstring)
| ANext
| ALimit (bound : Z).

Definition act (a : Action) : M unit :=
  match a with
  | AEmit e => emit e
  | ACall c => call c
  | AWrite path f => writeFile path (Some f)
  | AUnlink path => unlinkSync path
  | AMkdir dir => mkdirSync dir
  | ANext => nextIndex ;;; ret tt
  | ALimit bound => pLimit bound
  end.

Definition runActions (acts : list Action) (w : World) : World :=
  fold_left (fun w a => (act a w).2) acts w.

(** A computation whose change of the world is a list of steps that all
    satisfy [A]: from every world, or from one. *)
Definition tracedAt (A : Action -> Prop) {X} (c : M X) (w : World) : Prop :=
  exists acts, (c w).2 = runActions acts w /\ Forall A acts.

Definition traced (A : Action -> Prop) {X} (c : M X) : Prop :=
  forall w, tracedAt A c w.

(** The steps the task of one input may take. *)
Definition taskAction (pf : Platform) (opts : ConvertOptions) (total : nat)
    (input : jsstring) (a : Action) : Prop :=
  let out := outputOf pf opts input in
  let env := taskEnv pf input in
  match a with
  | AEmit (FileStart i _ t o) =>
      onFileStart opts = true /\ i = input /\ t = total /\ o = out
  | AEmit (FileProgress i _) =>
      onFileProgress opts = true /\ dryRun opts = false /\ i = input
  | AEmit (FileDone i o _ _) =>
      onFileDone opts = true /\ i = input /\ o = out
  | AEmit (BarCreate i) => useBars opts = true /\ i = input
  | AEmit (BarUpdate i v) => useBars opts = true /\ i = input /\ 1 <= v <= 100
  | AEmit (BarStop i) => useBars opts = true /\ i = input
  | ACall (CallProbe i) => dryRun opts = false /\ i = input
  | ACall (CallExtractAttached i _ o) =>
      dryRun opts = false /\ i = input /\ o = attachedTemp pf opts input env
  | ACall (CallExtractFrame i _ o) =>
      dryRun opts = false /\ i = input /\ o = frameTemp pf opts input env
  | ACall (CallEncode args) =>
      dryRun opts = false /\ hasEncoder (extOut (format opts)) = true
      /\ encInput args = input /\ encOutput args = out
  | AWrite path _ =>
      dryRun opts = false
      /\ (path = out \/ path = attachedTemp pf opts input env
          \/ path = frameTemp pf opts input env)
  | AUnlink path =>
      dryRun opts = false
      /\ (path = attachedTemp pf opts input env
          \/ path = frameTemp pf opts input env)
  | AMkdir dir => dryRun opts = false /\ dir = outDirOf pf opts input
  | ANext => True
  | ALimit _ => False
  end.

(** The steps a whole run may take on its candidates. *)
Definition runAction (pf : Platform) (opts : ConvertOptions)
    (candidates : list jsstring) (a : Action) : Prop :=
  (exists bound, a = ALimit bound)
  \/ exists c, c ∈ candidates /\ taskAction pf opts (length candidates) c a.

(** A step that is neither a start event, nor the taking of an index, nor
    the making of a directory or of the limiter: what the body of a task
    and its [catch] block are made of. *)
Definition bodyStep (a : Action) : Prop :=
  match a with
  | AEmit (FileStart _ _ _ _) | ANext | AMkdir _ | ALimit _ => False
  | _ => True
  end.

(** A step that is not the start of an encode. *)
Definition noEncode (a : Action) : Prop :=
  match a with
  | ACall (CallEncode _) => False
  | _ => True
  end.

(** How attempt [i] of a file ends: [None] when it resolves. *)
Definition attemptFailure (opts : ConvertOptions) (env : TaskEnv) (i : nat)
    : option jsstring :=
  if hasEncoder (extOut (format opts)) then failure (attemptOutcome env i)
  else Some notAFunction.

(** What the retry loop returns, by the ends of the attempts alone. *)
Fixpoint loopOutcome (fail : nat -> option jsstring) (n i : nat)
    (lastErr : option jsstring) : bool * option jsstring :=
  match n with
  | O => (false, lastErr)
  | S n' =>
      match fail i with
      | None => (true, lastErr)
      | Some e => loopOutcome fail n' (S i) (Some e)
      end
  end.

(** The number of attempts made: up to the first one that resolves. *)
Fixpoint attemptsMade (fail : nat -> option jsstring) (n i : nat) : nat :=
  match n with
  | O => O
  | S n' =>
      S (match fail i with
         | None => O
         | Some _ => attemptsMade fail n' (S i)
         end)
  end.

(** The result of a file that is not skipped, outside a dry run. *)
Definition taskOutcome (pf : Platform) (opts : ConvertOptions)
    (input : jsstring) : ConvertResult :=
  let out := outputOf pf opts input in
  let ran :=
    loopOutcome (attemptFailure opts (taskEnv pf input)) (attemptsOf opts) 0
      None in
  if ran.1 then doneResult input out
  else failedResult input out (default [] ran.2).

Definition isEncode (c : BackendCall) : bool :=
  match c with CallEncode _ => true | _ => false end.

Definition startIndex (e : Event) : option nat :=
  match e with FileStart _ index _ _ => Some index | _ => None end.

(** The indices of the start events of a list, in order. *)
Definition startIndices (es : list Event) : list nat :=
  omap startIndex es.



(** The number of encodes among the calls made so far. *)
Definition encodeCount (w : World) : nat :=
  length (List.filter isEncode (calls w)).

End Props.

(** ** Shapes of file names, to state what the heuristic does with them *)

Module Shapes.
Import Regex Convert.

(** Only white space. *)
Definition blank (w : jsstring) : bool := forallb isSpace w.

(** No white space at all. *)
Definition solid (a : jsstring) : bool :=
  forallb (fun u => negb (isSpace u)) a.

(** No line terminator. *)
Definition oneLine (t : jsstring) : bool :=
  forallb (fun u => negb (isLineTerminator u)) t.

(** None of the code units [cs]. *)
Definition without (cs : jsstring) (a : jsstring) : bool :=
  forallb (fun u => negb (oneOf cs u)) a.

(** No white space at the start, at the end. *)
Definition tightStart (t : jsstring) : bool :=
  match head t with Some u => negb (isSpace u) | None => true end.

Definition tightEnd (a : jsstring) : bool :=
  match last a with Some u => negb (isSpace u) | None => true end.

Definition underscore : N := 95%N.

Definition guessed (artist title : jsstring) : Guess :=
  {| guessTitle := Some title; guessArtist := Some artist |}.

End Shapes.

(** ** A concrete platform, disk and backend, for running the model *)

Module Demo.
Import Path Num Convert Concurrency Task.

Definition demoJoin (a b : jsstring) : jsstring := a ++ js "/" ++ b.

Definition demoResolve (a b : jsstring) : jsstring :=
  match b with
  | [] => a
  | 47%N :: _ => b
  | _ => a ++ js "/" ++ b
  end.

Definition demoDirname (p : jsstring) : jsstring :=
  take (length p - length (lastComponent p) - 1) p.

Definition coverFile : File := {| content := js "JFIF"; mtime := 1700000100 |}.
Definition encodedFile : File := {| content := js "ID3"; mtime := 1700000200 |}.
Definition videoFile : File := {| content := js "ftypisom"; mtime := 1600000000 |}.
Definition oldOutput : File := {| content := js "ID3 old"; mtime := 1650000000 |}.

(** The engine extracts a frame and encodes at the first attempt, reporting
    0.5, 50 and 100 percent. *)
Definition goodEnv : TaskEnv :=
  {| pausedPolls := 0;
     probe := ProbeTags ∅ None;
     randAttached := js "0a1b2c3d4e5f";
     randFrame := js "a1b2c3d4e5f6";
     attachedExtract := {| extractWrites := None; extractThrows := true |};
     frameExtract := {| extractWrites := Some coverFile; extractThrows := false |};
     attemptOutcome := fun _ =>
       {| progress := [1 # 2; 50; 100]%Q; written := Some encodedFile;
          failure := None |} |}.

(** The engine extracts a frame, then every encode fails. *)
Definition failingEnv : TaskEnv :=
  {| pausedPolls := 0;
     probe := ProbeTags ∅ None;
     randAttached := js "0a1b2c3d4e5f";
     randFrame := js "a1b2c3d4e5f6";
     attachedExtract := {| extractWrites := None; extractThrows := true |};
     frameExtract := {| extractWrites := Some coverFile; extractThrows := false |};
     attemptOutcome := fun _ =>
       {| progress := [12]%Q; written := None;
          failure := Some (js "FFmpeg error: Conversion failed!") |} |}.

Definition demoPlatform (globbed : list jsstring) (env : TaskEnv) : Platform :=
  {| cwd := js "/work";
     cpus := 8;
     resolve := demoResolve;
     join := demoJoin;
     relative := fun _ to => to;
     dirname := demoDirname;
     fastGlob := fun _ _ => globbed;
     taskEnv := fun _ => env |}.

(** A request from the desktop shell (callbacks supplied) or from the
    command line (none), with a trim string and a retry policy; everything
    else is left out. *)
Definition requestWith (callbacks : bool) (trimText : option string)
    (retries : option Retry) : ConvertOptions :=
  {| outDir := js "/out";
     bitrateKbps := None; vbrLevel := None; loudnorm := false;
     trim := option_map js trimText; concurrency := None;
     keepStructure := false; overwrite := false; dryRun := false;
     throttle := None; throttleDelayMs := None;
     autoMeta := None; preferDetected := None;
     coverFrameSec := None; coverFrameRules := [];
     onFileStart := callbacks; onFileProgress := callbacks;
     onFileDone := callbacks;
     metadata := None; template := None; format := None;
     autoCoverTimeSec := None; retry := retries |}.

Definition request (callbacks : bool) : ConvertOptions :=
  requestWith callbacks None None.

(** The engine extracts a frame; the first two encodes fail, the third
    succeeds. *)
Definition flakyEnv : TaskEnv :=
  {| pausedPolls := 2;
     probe := ProbeTags ∅ None;
     randAttached := js "0a1b2c3d4e5f";
     randFrame := js "a1b2c3d4e5f6";
     attachedExtract := {| extractWrites := None; extractThrows := true |};
     frameExtract := {| extractWrites := Some coverFile; extractThrows := false |};
     attemptOutcome := fun i =>
       if Nat.ltb i 2
       then {| progress := [40]%Q; written := None;
               failure := Some (js "FFmpeg error: Conversion failed!") |}
       else {| progress := [30; 100]%Q; written := Some encodedFile;
               failure := None |} |}.

Definition disk (l : list (jsstring * File)) : World :=
  {| files := list_to_map l; dirs := ∅; events := []; calls := [];
     unlinks := []; idxCounter := 0; limiter := None |}.

Definition song : jsstring := js "/music/song.mp4".
Definition songOut : jsstring := js "/out/song.mp3".
Definition songCover : jsstring := js "/out/.tf-a1b2c3d4e5f6.cover.jpg".

(** Only the input is on disk. *)
Definition freshDisk : World := disk [(song, videoFile)].

(** The input and an output from an earlier run are on disk. *)
Definition convertedDisk : World :=
  disk [(song, videoFile); (songOut, oldOutput)].

(** The runs the facts below look at. *)
Definition failedRun : result (list ConvertResult) * World :=
  convertPaths (demoPlatform [] failingEnv) (request true) [song] freshDisk.

Definition goodRun : result (list ConvertResult) * World :=
  convertPaths (demoPlatform [] goodEnv) (request true) [song] freshDisk.

Definition retriedRun : result (list ConvertResult) * World :=
  convertPaths (demoPlatform [] flakyEnv)
    (requestWith true None (Some {| retryAttempts := 3; retryDelayMs := None |}))
    [song] freshDisk.

Definition skippedRun : result (list ConvertResult) * World :=
  convertPaths (demoPlatform [] goodEnv) (request true) [song] convertedDisk.

(** A literal twice, two overlapping patterns and a text file, in [/work]. *)
Definition workDisk : World :=
  disk [(js "/work/a.mp4", videoFile); (js "/work/notes.txt", videoFile);
        (js "/work/b.MKV", videoFile)].

Definition workInputs : list jsstring :=
  List.map js ["a.mp4"; "/work/a.mp4"; "*.mp4"; "**/*.{mp4,MKV}"; "notes.txt";
               ""]%string.

Definition workGlobbed : list jsstring :=
  List.map js ["/work/a.mp4"; "/work/b.MKV"; "/work/a.mp4"]%string.

End Demo.

(** ** More concrete requests *)

Module Demo2.
Import Path Num Convert Concurrency Task Gui Demo.

(** A request with the dry-run and overwrite flags, the format and the
    retry policy replaced. *)
Definition tuned (o : ConvertOptions) (dry over : bool)
    (fmt : option string) (retries : option Retry) : ConvertOptions :=
  {| outDir := outDir o;
     bitrateKbps := bitrateKbps o; vbrLevel := vbrLevel o;
     loudnorm := loudnorm o;
     trim := trim o; concurrency := concurrency o;
     keepStructure := keepStructure o; overwrite := over; dryRun := dry;
     throttle := throttle o; throttleDelayMs := throttleDelayMs o;
     autoMeta := autoMeta o; preferDetected := preferDetected o;
     coverFrameSec := coverFrameSec o; coverFrameRules := coverFrameRules o;
     onFileStart := onFileStart o; onFileProgress := onFileProgress o;
     onFileDone := onFileDone o;
     metadata := metadata o; template := template o;
     format := option_map js fmt;
     autoCoverTimeSec := autoCoverTimeSec o; retry := retries |}.

Definition dryRequest : ConvertOptions :=
  tuned (request true) true false None None.

Definition flacRequest : ConvertOptions :=
  tuned (request true) false true (Some "flac"%string) None.

Definition retryRequest : ConvertOptions :=
  tuned (request true) false true None
    (Some {| retryAttempts := 3; retryDelayMs := None |}).

Definition notes : jsstring := js "/music/notes.txt".

(** The input and a text file are on disk. *)
Definition mixedDisk : World := disk [(song, videoFile); (notes, videoFile)].

(** A file under a Windows drive path. *)
Definition drivePath : jsstring := js "C:\music\a.mp4".
Definition driveDisk : World := disk [(drivePath, videoFile)].




End Demo2.

(** * Theorems *)

(** ** Facts: [parseTrim] and [buildBase] *)

Module TrimFacts.
Import Num Convert Ffmpeg Spec.

Lemma truthy_nonempty (s : jsstring) : truthy s = true <-> s <> [].
Proof. destruct s; simpl; split; congruence. Qed.

Lemma isNaNValue_component x :
  isNaNValue (component x) = true <-> nonNumeric x.
Proof.
  unfold component, nonNumeric. split.
  - destruct x as [t|]; simpl; [|discriminate].
    destruct t as [|c t]; simpl; [discriminate|].
    intros H. exists (c :: t). repeat split; [discriminate|].
    destruct (Number (c :: t)); simpl in H; congruence.
  - intros (s & -> & Hs & HN).
    destruct s as [|c s]; [congruence|]. simpl. rewrite HN. reflexivity.
Qed.

(** [parseTrim] throws exactly when the first component, or the second one,
    is present, not empty and not a number. *)
Lemma parseTrim_throws_iff (t : jsstring) :
  t <> [] ->
  parseTrim (Some t) = Throw trimError
  <-> nonNumeric (JS.split t (js "-") !! 0%nat)
      \/ nonNumeric (JS.split t (js "-") !! 1%nat).
Proof.
  intros Ht. unfold parseTrim.
  apply truthy_nonempty in Ht. rewrite Ht. simpl negb. cbv iota.
  set (parts := JS.split t (js "-")).
  rewrite <- !isNaNValue_component.
  destruct (isNaNValue (component (parts !! 0%nat))) eqn:H0; simpl.
  - split; auto.
  - destruct (isNaNValue (component (parts !! 1%nat))) eqn:H1.
    + assert (truthyOpt (parts !! 1%nat) = true) as ->.
      { unfold component in H1. destruct (parts !! 1%nat) as [e|]; simpl in *;
          [|discriminate]. destruct (truthy e); [reflexivity|discriminate]. }
      simpl. split; auto.
    + rewrite andb_false_r. split; [discriminate|]. intros [?|?]; discriminate.
Qed.

Lemma parseTrim_5_65 :
  parseTrim (Some (js "5-65"))
  = Ok {| trimStart := Some (Fin 5); trimEnd := Some (Fin 65) |}.
Proof. vm_compute. reflexivity. Qed.

Lemma parseTrim_5 :
  parseTrim (Some (js "5"))
  = Ok {| trimStart := Some (Fin 5); trimEnd := None |}.
Proof. vm_compute. reflexivity. Qed.

Lemma buildBase_5_65 :
  buildBase (Some {| trimStart := Some (Fin 5); trimEnd := Some (Fin 65) |})
  = {| startTime := Some (Fin 5); duration := Some (Fin 60) |}.
Proof. vm_compute. reflexivity. Qed.

Lemma buildBase_5 :
  buildBase (Some {| trimStart := Some (Fin 5); trimEnd := None |})
  = {| startTime := Some (Fin 5); duration := None |}.
Proof. vm_compute. reflexivity. Qed.

(** C6, as stated, fails: [5-65-abc] has the non-numeric component [abc],
    and [parseTrim] returns the range 5..65 for it instead of throwing. *)
Lemma trim_third_component_ignored :
  js "abc" ∈ JS.split (js "5-65-abc") (js "-")
  /\ Number (js "abc") = NaN
  /\ parseTrim (Some (js "5-65-abc"))
     = Ok {| trimStart := Some (Fin 5); trimEnd := Some (Fin 65) |}.
Proof.
  split; [|split]; [|vm_compute; reflexivity..].
  vm_compute. apply list_elem_of_In. simpl. auto.
Qed.

End TrimFacts.

(** ** Facts: the file-name heuristic *)

Module FilenameFacts.
Import Regex Path Convert Task Spec.

Lemma daft_punk_guess :
  detectFromFilename (js "Daft Punk - One More Time (Official Video)")
  = {| guessTitle := Some (js "One More Time");
       guessArtist := Some (js "Daft Punk") |}.
Proof. vm_compute. reflexivity. Qed.

Lemma daft_punk_base :
  baseOf (js "Daft Punk - One More Time (Official Video).mp4")
  = js "Daft Punk - One More Time (Official Video)".
Proof. vm_compute. reflexivity. Qed.

(** Scrubbing drops the annotation and the noise words around it. *)
Lemma scrub_official_video :
  scrub (js "One More Time (Official Video)") = js "One More Time"
  /\ scrub (js "One More Time Official Video HD") = js "One More Time".
Proof. split; vm_compute; reflexivity. Qed.

End FilenameFacts.

(** ** Facts: the output-name template *)

Module TemplateFacts.
Import Regex Path Convert Spec.

Lemma isPrefix_true (p s : jsstring) :
  isPrefix p s = true <-> exists r, s = p ++ r.
Proof.
  revert s. induction p as [|a p IH]; intros s; simpl.
  - split; eauto.
  - destruct s as [|b s].
    + split; [discriminate|]. intros [r Hr]. discriminate.
    + rewrite andb_true_iff, N.eqb_eq, IH. split.
      * intros [-> [r ->]]. eauto.
      * intros [r Hr]. injection Hr as -> ->. eauto.
Qed.

Lemma isPrefix_app_l (t a b : jsstring) :
  isPrefix t a = true -> isPrefix t (a ++ b) = true.
Proof.
  rewrite !isPrefix_true. intros [r ->]. exists (r ++ b). by rewrite app_assoc.
Qed.

(** [indexOf] finds the first place where the pattern starts. *)
Lemma indexOfFrom_Some (pat s : jsstring) (k i : nat) :
  indexOfFrom pat s k = Some i ->
  (k <= i)%nat
  /\ isPrefix pat (drop (i - k) s) = true
  /\ forall j, (j < i - k)%nat -> isPrefix pat (drop j s) = false.
Proof.
  revert k. induction s as [|c s IH]; intros k; simpl.
  - destruct (isPrefix pat []) eqn:Hp; [|discriminate].
    intros [= <-]. rewrite Nat.sub_diag. split; [lia|]. split; [done|].
    intros j Hj. lia.
  - destruct (isPrefix pat (c :: s)) eqn:Hp.
    + intros [= <-]. rewrite Nat.sub_diag. split; [lia|]. split; [done|].
      intros j Hj. lia.
    + intros H. apply IH in H as (Hk & Hi & Hfirst).
      split; [lia|].
      replace (i - k)%nat with (S (i - S k)) by lia. simpl.
      split; [exact Hi|].
      intros [|j] Hj; simpl; [exact Hp|]. apply Hfirst. lia.
Qed.

Lemma indexOf_Some (s pat : jsstring) (i : nat) :
  indexOf s pat = Some i ->
  s = take i s ++ pat ++ drop (i + length pat) s
  /\ forall j, (j < i)%nat -> isPrefix pat (drop j s) = false.
Proof.
  intros H. apply indexOfFrom_Some in H as (_ & Hi & Hfirst).
  rewrite Nat.sub_0_r in Hi, Hfirst. split; [|exact Hfirst].
  apply isPrefix_true in Hi as [r Hr].
  rewrite <- (take_drop i s) at 1. f_equal.
  rewrite Hr at 1. f_equal.
  rewrite <- drop_drop, Hr, drop_app_length. reflexivity.
Qed.

(** What [replace] does: nothing without an occurrence; else the text
    before the first occurrence and the text after it are kept as they
    are, and only the occurrence itself is rewritten. *)
Lemma replace_first_occurrence (s pat rep : jsstring) :
  match indexOf s pat with
  | None => JS.replace s pat rep = s
  | Some i =>
      s = take i s ++ pat ++ drop (i + length pat) s
      /\ (forall j, (j < i)%nat -> isPrefix pat (drop j s) = false)
      /\ JS.replace s pat rep
         = take i s
           ++ getSubstitution pat (take i s) (drop (i + length pat) s) rep
           ++ drop (i + length pat) s
  end.
Proof.
  unfold JS.replace. destruct (indexOf s pat) as [i|] eqn:Hi; [|done].
  apply indexOf_Some in Hi as [Hs Hfirst]. by repeat split.
Qed.

(** A replacement without [$] is inserted as it is. *)
Lemma getSubstitution_plain (matched before after rep : jsstring) :
  36%N ∉ rep -> getSubstitution matched before after rep = rep.
Proof.
  induction rep as [|c rep IH]; intros Hno; [done|].
  apply not_elem_of_cons in Hno as [Hc Hno].
  assert (getSubstitution matched before after (c :: rep)
          = c :: getSubstitution matched before after rep) as ->.
  { destruct c as [|p]; [reflexivity|].
    repeat (destruct p as [p|p|]; try reflexivity; try done). }
  by rewrite IH.
Qed.

(** *** Counting occurrences *)

Lemma occurrences_app_ge (t a b : jsstring) :
  (occurrences t a + occurrences t b <= occurrences t (a ++ b))%nat.
Proof.
  induction a as [|c a IH]; simpl; [lia|].
  destruct (isPrefix t (c :: a)) eqn:Hp.
  - apply (isPrefix_app_l _ _ b) in Hp. simpl in Hp. rewrite Hp. lia.
  - destruct (isPrefix t (c :: a ++ b)); lia.
Qed.

(** A prefix free of opening braces cannot reach into text that starts
    with one. *)
Lemma isPrefix_stops_at_brace (u x r : jsstring) :
  123%N ∉ u ->
  isPrefix u (x ++ 123%N :: r) = true -> isPrefix u x = true.
Proof.
  revert u. induction x as [|d x IH]; intros u Hu; simpl.
  - destruct u as [|a u]; [done|]. simpl.
    apply not_elem_of_cons in Hu as [Ha _].
    rewrite andb_true_iff, N.eqb_eq. intros [-> _]. done.
  - destruct u as [|a u]; [done|]. simpl.
    apply not_elem_of_cons in Hu as [_ Hu].
    rewrite !andb_true_iff. intros [? ?]. split; [done|]. by apply IH.
Qed.

Lemma braced_head (t : jsstring) :
  braced t -> exists u, t = 123%N :: u /\ 123%N ∉ u.
Proof.
  intros (body & -> & Ho & Hc). exists (body ++ [125%N]). split; [done|].
  rewrite elem_of_app, list_elem_of_singleton. intros [?|?]; [done|discriminate].
Qed.

Lemma no_straddle (t t' x q : jsstring) :
  braced t -> braced t' -> x <> [] ->
  isPrefix t (x ++ t' ++ q) = true -> isPrefix t x = true.
Proof.
  intros Ht Ht' Hx.
  apply braced_head in Ht as (u & -> & Hu).
  apply braced_head in Ht' as (u' & -> & _).
  destruct x as [|c x]; [done|]. simpl.
  rewrite !andb_true_iff. intros [? H]. split; [done|].
  by eapply isPrefix_stops_at_brace.
Qed.

(** Inside a placeholder, after its opening brace, no placeholder starts. *)
Lemma occurrences_skip_body (t body q : jsstring) :
  braced t -> 123%N ∉ body ->
  occurrences t (body ++ 125%N :: q) = occurrences t q.
Proof.
  intros Ht Hb. apply braced_head in Ht as (u & -> & _).
  induction body as [|c body IH]; cbn [app occurrences isPrefix].
  - reflexivity.
  - apply not_elem_of_cons in Hb as [Hc Hb]. rewrite IH by done.
    destruct (123 =? c)%N eqn:E; [apply N.eqb_eq in E; congruence|reflexivity].
Qed.

Lemma same_body (b b' r r' : jsstring) :
  125%N ∉ b -> 125%N ∉ b' ->
  b ++ 125%N :: r = b' ++ 125%N :: r' -> b = b'.
Proof.
  revert b'. induction b as [|c b IH]; intros [|c' b'] Hb Hb' H; simpl in *.
  - done.
  - injection H as <- _. apply not_elem_of_cons in Hb' as [? _]. done.
  - injection H as -> _. apply not_elem_of_cons in Hb as [? _]. done.
  - injection H as -> H.
    apply not_elem_of_cons in Hb as [_ Hb].
    apply not_elem_of_cons in Hb' as [_ Hb'].
    f_equal. by apply IH.
Qed.

Lemma braced_prefix_eq (t t' q : jsstring) :
  braced t -> braced t' -> isPrefix t (t' ++ q) = true -> t = t'.
Proof.
  intros (b & -> & _ & Hc) (b' & -> & _ & Hc').
  rewrite isPrefix_true. intros [r Hr]. simpl in Hr.
  injection Hr as Hr. rewrite <- !app_assoc in Hr. simpl in Hr.
  symmetry in Hr. apply same_body in Hr; [by subst|done..].
Qed.

(** Replacing an occurrence of [t'] removes at most that one occurrence
    of [t], and only when [t] is [t'] itself. *)
Lemma occurrences_around (t t' p q : jsstring) :
  braced t -> braced t' ->
  (occurrences t (p ++ t' ++ q)
   <= occurrences t p + (if decide (t = t') then 1 else 0) + occurrences t q)%nat.
Proof.
  intros Ht Ht'. induction p as [|c p IH].
  - simpl. destruct Ht' as (b' & E & Ho' & Hc').
    rewrite E. simpl. rewrite <- app_assoc. simpl.
    rewrite occurrences_skip_body by done.
    destruct (isPrefix t (123%N :: b' ++ 125%N :: q)) eqn:Hp; [|lia].
    assert (t = t') as <-.
    { eapply (braced_prefix_eq t t' q); [done|by exists b'|].
      rewrite E. simpl. rewrite <- app_assoc. exact Hp. }
    rewrite decide_True by done. lia.
  - cbn [app occurrences].
    destruct (isPrefix t (c :: p ++ t' ++ q)) eqn:Hp.
    + apply (no_straddle t t' (c :: p) q) in Hp; [|done..]. rewrite Hp. lia.
    + destruct (isPrefix t (c :: p)); lia.
Qed.

Lemma occurrences_replace (t t' s rep : jsstring) :
  braced t -> braced t' ->
  (occurrences t s
   <= occurrences t (JS.replace s t' rep)
      + (if decide (t = t') then 1 else 0))%nat.
Proof.
  intros Ht Ht'.
  pose proof (replace_first_occurrence s t' rep) as H.
  destruct (indexOf s t') as [i|]; [|rewrite H; lia].
  destruct H as (Hs & _ & ->).
  set (p := take i s) in *. set (q := drop (i + length t') s) in *.
  rewrite Hs at 1.
  pose proof (occurrences_around t t' p q Ht Ht').
  pose proof (occurrences_app_ge t p (getSubstitution t' p q rep ++ q)).
  pose proof (occurrences_app_ge t (getSubstitution t' p q rep) q).
  lia.
Qed.

Lemma placeholders_braced : Forall braced placeholders.
Proof.
  repeat constructor.
  - exists (js "basename"). split; [reflexivity|].
    split; intros H; apply list_elem_of_In in H; vm_compute in H;
      intuition discriminate.
  - exists (js "ext"). split; [reflexivity|].
    split; intros H; apply list_elem_of_In in H; vm_compute in H;
      intuition discriminate.
  - exists (js "bitrate"). split; [reflexivity|].
    split; intros H; apply list_elem_of_In in H; vm_compute in H;
      intuition discriminate.
  - exists (js "vbr"). split; [reflexivity|].
    split; intros H; apply list_elem_of_In in H; vm_compute in H;
      intuition discriminate.
Qed.

(** The occurrences that lie before the stripped extension are still in
    the output file name. *)
Lemma occurrences_before_extension tok template format input bitrateKbps
    vbrLevel :
  (occurrences tok
     (beforeExtension (expandTemplate template input bitrateKbps vbrLevel))
   <= occurrences tok
        (outputFileName template format input bitrateKbps vbrLevel))%nat.
Proof.
  unfold outputFileName, beforeExtension, replaceFirst.
  set (tpl := expandTemplate template input bitrateKbps vbrLevel).
  destruct (exec reLastExtension tpl) as [[[a b] c]|].
  - rewrite <- app_assoc.
    pose proof (occurrences_app_ge tok (take a tpl)
                  (([] ++ drop b tpl) ++ extOut format)).
    lia.
  - pose proof (occurrences_app_ge tok tpl (extOut format)). lia.
Qed.

(** C10, as stated, fails: in [{ext}-{basename}.{ext}] the second [{ext}]
    is a later occurrence, and it does not remain in the output file name;
    it goes with the extension that line 182 strips. *)
Lemma later_occurrence_lost_with_extension :
  occurrences tokExt (js "{ext}-{basename}.{ext}") = 2%nat
  /\ expandTemplate (Some (js "{ext}-{basename}.{ext}")) (js "/music/song.mp4")
       None None = js "mp4-song.{ext}"
  /\ outputFileName (Some (js "{ext}-{basename}.{ext}")) None
       (js "/music/song.mp4") None None = js "mp4-song.mp3"
  /\ occurrences tokExt (js "mp4-song.mp3") = 0%nat.
Proof. repeat split; vm_compute; reflexivity. Qed.

(** C10, amended.  Each of the four placeholders is handed to one
    first-occurrence replace: a replace step changes nothing when its
    placeholder does not occur, and otherwise rewrites the first occurrence
    only, keeping the text before and after it as it is.  Over the four
    steps at most one occurrence of each placeholder is consumed, so every
    later occurrence is still literally in the expanded template; the
    occurrences that lie before the final extension of the expanded
    template, which is stripped, are still in the output file name:
    [{basename}-{basename}.mp3] names [song-{basename}.mp3]. *)
Theorem template_replaces_first_occurrence_only :
  (forall s tok rep,
      match indexOf s tok with
      | None => JS.replace s tok rep = s
      | Some i =>
          s = take i s ++ tok ++ drop (i + length tok) s
          /\ (forall j, (j < i)%nat -> isPrefix tok (drop j s) = false)
          /\ JS.replace s tok rep
             = take i s
               ++ getSubstitution tok (take i s) (drop (i + length tok) s) rep
               ++ drop (i + length tok) s
      end)
  /\ (forall template input bitrateKbps vbrLevel,
         Forall (fun tok =>
                   (occurrences tok (templateOf template)
                    <= occurrences tok
                         (expandTemplate template input bitrateKbps vbrLevel)
                       + 1)%nat)
                placeholders)
  /\ (forall tok template format input bitrateKbps vbrLevel,
         (occurrences tok
            (beforeExtension
               (expandTemplate template input bitrateKbps vbrLevel))
          <= occurrences tok
               (outputFileName template format input bitrateKbps vbrLevel))%nat)
  /\ outputFileName (Some (js "{basename}-{basename}.mp3")) None
       (js "/music/song.mp4") None None = js "song-{basename}.mp3".
Proof.
  split; [|split; [|split]].
  - intros. apply replace_first_occurrence.
  - intros template input bitrateKbps vbrLevel.
    pose proof placeholders_braced as Hb.
    unfold placeholders in *.
    apply Forall_cons in Hb as [Hb1 Hb]. apply Forall_cons in Hb as [Hb2 Hb].
    apply Forall_cons in Hb as [Hb3 Hb]. apply Forall_cons in Hb as [Hb4 _].
    unfold expandTemplate. fold (templateOf template).
    fold tokBasename tokExt tokBitrate tokVbr.
    set (t0 := templateOf template).
    set (r1 := basename input (Some (extname input))).
    set (r2 := replaceFirst reLeadingDot [] (extname input)).
    set (r3 := numberText bitrateKbps). set (r4 := numberText vbrLevel).
    set (t1 := JS.replace t0 tokBasename r1).
    set (t2 := JS.replace t1 tokExt r2).
    set (t3 := JS.replace t2 tokBitrate r3).
    assert (Hstep : forall tok, braced tok ->
              (occurrences tok t0
               <= occurrences tok (JS.replace t3 tokVbr r4)
                  + (if decide (tok = tokBasename) then 1 else 0)
                  + (if decide (tok = tokExt) then 1 else 0)
                  + (if decide (tok = tokBitrate) then 1 else 0)
                  + (if decide (tok = tokVbr) then 1 else 0))%nat).
    { intros tok Htok.
      pose proof (occurrences_replace tok tokBasename t0 r1 Htok Hb1).
      pose proof (occurrences_replace tok tokExt t1 r2 Htok Hb2).
      pose proof (occurrences_replace tok tokBitrate t2 r3 Htok Hb3).
      pose proof (occurrences_replace tok tokVbr t3 r4 Htok Hb4).
      fold t1 in H. fold t2 in H0. fold t3 in H1. lia. }
    repeat constructor.
    + pose proof (Hstep tokBasename Hb1) as H.
      rewrite decide_True in H by done.
      rewrite !decide_False in H by discriminate. lia.
    + pose proof (Hstep tokExt Hb2) as H.
      rewrite (decide_True (P := tokExt = tokExt)) in H by done.
      rewrite !decide_False in H by discriminate. lia.
    + pose proof (Hstep tokBitrate Hb3) as H.
      rewrite (decide_True (P := tokBitrate = tokBitrate)) in H by done.
      rewrite !decide_False in H by discriminate. lia.
    + pose proof (Hstep tokVbr Hb4) as H.
      rewrite (decide_True (P := tokVbr = tokVbr)) in H by done.
      rewrite !decide_False in H by discriminate. lia.
  - intros. apply occurrences_before_extension.
  - vm_compute. reflexivity.
Qed.

Lemma template_first_occurrence_witness :
  indexOf (js "{basename}-{basename}.mp3") tokBasename = Some 0%nat
  /\ JS.replace (js "{basename}-{basename}.mp3") tokBasename (js "song")
     = js "song-{basename}.mp3".
Proof.
  split; [vm_compute; reflexivity|].
  pose proof (proj1 template_replaces_first_occurrence_only
                (js "{basename}-{basename}.mp3") tokBasename (js "song")) as H.
  vm_compute in H. destruct H as (_ & _ & H). vm_compute. exact H.
Defined.

(** A base name is inserted through the replacement patterns of [replace]:
    [$&] in it stands for the placeholder itself. *)
Example dollar_in_basename :
  expandTemplate None (js "/music/so$&ng.mp4") None None
  = js "so{basename}ng.mp3".
Proof. vm_compute. reflexivity. Qed.

End TemplateFacts.

(** ** Facts: the loudness passes *)

Module LoudnessFacts.
Import Convert Ffmpeg Spec.

Lemma loudnormFilter_empty : loudnormFilter ∅ = fallbackFilter.
Proof. vm_compute. reflexivity. Qed.

Lemma measureLoudness_never_throws_on_end JSONparse lines :
  exists stats, measureLoudness JSONparse lines OnEnd = Ok stats.
Proof.
  unfold measureLoudness. repeat case_match; eauto.
Qed.

(** C7. When pass 1 ends without parseable statistics, [measureLoudness]
    resolves with the empty object, and the filter of pass 2 is built from
    the static values -16, -1.5, 11 and -26, in linear mode. *)
Theorem unparseable_loudness_uses_static_fallbacks
    (JSONparse : jsstring -> option (gmap jsstring JVal))
    (lines : list jsstring) :
  noParseableStats JSONparse lines ->
  measureLoudness JSONparse lines OnEnd = Ok ∅
  /\ pass2Filter JSONparse true lines OnEnd = Ok (Some fallbackFilter).
Proof.
  intros Hno.
  assert (Hm : measureLoudness JSONparse lines OnEnd = Ok ∅).
  { unfold noParseableStats in Hno. unfold measureLoudness.
    repeat case_match; congruence. }
  split; [exact Hm|].
  unfold pass2Filter. rewrite Hm, loudnormFilter_empty. reflexivity.
Qed.

Lemma unparseable_loudness_witness :
  noParseableStats (fun _ => None) [js "size=N/A time=00:03:25.00 {"]
  /\ pass2Filter (fun _ => None) true [js "size=N/A time=00:03:25.00 {"] OnEnd
     = Ok (Some fallbackFilter).
Proof.
  split.
  - vm_compute. exact I.
  - apply (unparseable_loudness_uses_static_fallbacks (fun _ => None)
             [js "size=N/A time=00:03:25.00 {"]).
    vm_compute. exact I.
Defined.

End LoudnessFacts.

(** ** Facts: the concurrency bound *)

Module ConcurrencyFacts.
Import Concurrency.

Lemma clamp_max_min x : Z.max 1 (Z.min 64 x) = clamp 1 64 x.
Proof.
  unfold clamp.
  destruct (Z.ltb_spec x 1), (Z.ltb_spec 64 x); lia.
Qed.

Lemma clamp_absorbs_floor x : clamp 1 64 (Z.max 1 x) = clamp 1 64 x.
Proof.
  unfold clamp.
  repeat match goal with |- context [?a <? ?b] => destruct (Z.ltb_spec a b) end;
    lia.
Qed.

Lemma baseConc_range concurrency cpus : 1 <= baseConc concurrency cpus <= 64.
Proof. unfold baseConc. lia. Qed.

(** C4. The bound handed to the limiter is the requested concurrency, or
    half the processing units when none is requested, clamped to [1,64],
    then capped to 1 under throttle [low] and to 2 under [medium], and left
    as it is otherwise; a request for 4 under [low] runs at 1. *)
Theorem effective_concurrency_is_clamped_and_capped :
  (forall concurrency throttle cpus,
      effectiveConcurrency concurrency throttle cpus
      = specConcurrency concurrency throttle cpus)
  /\ (forall concurrency cpus,
        effectiveConcurrency concurrency (Some ThrottleLow) cpus = 1)
  /\ (forall concurrency cpus,
        effectiveConcurrency concurrency (Some ThrottleMedium) cpus
        = Z.min 2 (clamp 1 64 (specRequested concurrency cpus)))
  /\ (forall concurrency cpus,
        effectiveConcurrency concurrency (Some ThrottleOff) cpus
        = clamp 1 64 (specRequested concurrency cpus))
  /\ (forall cpus, effectiveConcurrency (Some 4) (Some ThrottleLow) cpus = 1).
Proof.
  assert (Hbase : forall concurrency cpus,
             baseConc concurrency cpus
             = clamp 1 64 (specRequested concurrency cpus)).
  { intros [c|] cpus; unfold baseConc, specRequested.
    - apply clamp_max_min.
    - rewrite clamp_max_min. apply clamp_absorbs_floor. }
  split; [|split; [|split; [|split]]].
  - intros concurrency throttle cpus.
    unfold effectiveConcurrency, specConcurrency, specCap.
    rewrite Hbase.
    destruct throttle as [[]|]; try reflexivity;
      match goal with |- context [?a <? ?b] => destruct (Z.ltb_spec a b) end;
      lia.
  - intros. unfold effectiveConcurrency.
    pose proof (baseConc_range concurrency cpus). lia.
  - intros. unfold effectiveConcurrency. rewrite Hbase. lia.
  - intros. unfold effectiveConcurrency. apply Hbase.
  - intros. reflexivity.
Qed.

End ConcurrencyFacts.
(** ** Facts: the merged metadata *)

Module MetadataFacts.
Import Convert Task Spec.

Lemma lookup_setProp (m : gmap jsstring jsstring) k v k' :
  setProp m k v !! k' = if decide (k = k') then v else m !! k'.
Proof.
  unfold setProp. destruct v; case_decide; subst;
    rewrite ?lookup_insert_eq, ?lookup_delete_eq,
      ?lookup_insert_ne, ?lookup_delete_ne by done; done.
Qed.

(** The loop over the keys: a key of the list ends up with its own value,
    any other key keeps what it had. *)
Lemma lookup_fold_setProp (f : jsstring -> option jsstring)
    (ks : list jsstring) (m : gmap jsstring jsstring) (k : jsstring) :
  fold_left (fun merged k => setProp merged k (f k)) ks m !! k
  = if decide (k ∈ ks) then f k else m !! k.
Proof.
  revert m. induction ks as [|k0 ks IH]; intros m.
  - destruct (decide (k ∈ [])) as [H|]; [inversion H|done].
  - cbn [fold_left]. rewrite IH, lookup_setProp.
    destruct (decide (k ∈ ks)) as [?|?], (decide (k0 = k)) as [?|?],
      (decide (k ∈ k0 :: ks)) as [?|?];
      subst; try done;
      rewrite elem_of_cons in *; naive_solver.
Qed.

Lemma chosen_nullish pd (d u : option jsstring) :
  (if pd : bool then nullish d u else nullish u d) = chosen pd d u.
Proof. destruct pd, d, u; reflexivity. Qed.

Lemma merged_key pd autoTags fileNameTags manual coverPath k :
  k ∈ metadataKeys ->
  mergeMetadata pd autoTags fileNameTags manual coverPath !! k
  = chosen pd (prop (detectedTags autoTags fileNameTags) k) (manual !! k).
Proof.
  intros Hk. unfold mergeMetadata.
  rewrite lookup_setProp.
  case_decide as Hc.
  { subst k. exfalso. revert Hk. vm_compute. intros Hk.
    apply list_elem_of_In in Hk. simpl in Hk. intuition discriminate. }
  rewrite (lookup_fold_setProp
             (fun k => if pd
                       then nullish (prop (detectedTags autoTags fileNameTags) k)
                                    (manual !! k)
                       else nullish (manual !! k)
                                    (prop (detectedTags autoTags fileNameTags) k))).
  rewrite decide_True by exact Hk.
  apply chosen_nullish.
Qed.



(** With [preferDetected] the probed title wins over the user's, and a tag
    nobody supplies stays absent. *)
Example merge_prefers_detected :
  mergeMetadata true {[ js "title" := js "probed title" ]} ∅
    {[ js "title" := js "My Title" ]} None !! js "title"
  = Some (js "probed title")
  /\ mergeMetadata true {[ js "title" := js "probed title" ]} ∅
       {[ js "title" := js "My Title" ]} None !! js "album" = None.
Proof. split; vm_compute; reflexivity. Qed.

End MetadataFacts.

(** ** Facts: input resolution *)

Module ResolverFacts.
Import Path Convert Task Spec.

Lemma includes_elem_of (l : list jsstring) (x : jsstring) :
  includes l x = true <-> x ∈ l.
Proof.
  unfold includes. rewrite existsb_exists, list_elem_of_In.
  split.
  - intros (y & Hy & Heq). unfold eqs in Heq.
    apply bool_decide_eq_true in Heq. by subst.
  - intros H. exists x. split; [done|]. unfold eqs. by apply bool_decide_eq_true.
Qed.

Lemma allowList_split : allowList = VIDEO_EXTS ++ AUDIO_EXTS.
Proof. reflexivity. Qed.

Lemma isMediaLike_allowList (path : jsstring) :
  isMediaLike path = true <-> toLowerCase (extname path) ∈ allowList.
Proof.
  unfold isMediaLike. rewrite allowList_split, orb_true_iff, elem_of_app.
  by rewrite !includes_elem_of.
Qed.

(** [uniq] keeps exactly the elements not seen before, each once. *)
Lemma elem_of_uniq (seen l : list jsstring) (x : jsstring) :
  x ∈ uniq seen l <-> x ∈ l /\ x ∉ seen.
Proof.
  revert seen. induction l as [|y l IH]; intros seen; simpl.
  - split; [intros H; inversion H | intros [H _]; inversion H].
  - case_bool_decide as Hy.
    + rewrite IH, elem_of_cons. naive_solver.
    + rewrite !elem_of_cons, IH, not_elem_of_cons.
      destruct (decide (x = y)); naive_solver.
Qed.

Lemma NoDup_uniq (seen l : list jsstring) : NoDup (uniq seen l).
Proof.
  revert seen. induction l as [|y l IH]; intros seen; simpl.
  - constructor.
  - case_bool_decide as Hy; [apply IH|].
    constructor; [|apply IH].
    rewrite elem_of_uniq, not_elem_of_cons. naive_solver.
Qed.

Lemma NoDup_List_filter (f : jsstring -> bool) (l : list jsstring) :
  NoDup l -> NoDup (List.filter f l).
Proof.
  induction 1 as [|x l Hx Hl IH]; simpl; [constructor|].
  destruct (f x); [|exact IH].
  constructor; [|exact IH].
  rewrite list_elem_of_In, filter_In, <- list_elem_of_In. tauto.
Qed.

Section Resolver.

Variable pf : Platform.

Lemma candidatesOf_sources fs inputs :
  candidatesOf pf fs inputs
  = List.filter isMediaLike (uniq [] (sourcesOf pf fs inputs)).
Proof.
  unfold candidatesOf, sourcesOf.
  destruct (classify pf fs inputs) as [direct patterns]. reflexivity.
Qed.

Lemma candidatesOf_NoDup fs inputs : NoDup (candidatesOf pf fs inputs).
Proof.
  rewrite candidatesOf_sources. apply NoDup_List_filter, NoDup_uniq.
Qed.

End Resolver.

End ResolverFacts.

(** ** Facts: the per-file pipeline *)

Module TaskFacts.
Import Regex Path Num Convert Concurrency Task Spec.
Local Open Scope task_scope.

Lemma bind_run {A B} (c : M A) (f : A -> M B) (w : World) :
  bind c f w = f (c w).1 (c w).2.
Proof. unfold bind. destruct (c w). reflexivity. Qed.

(** *** Computations that leave one component of the world alone *)

Section Frames.

Context {B : Type} (proj : World -> B).

Definition preserves {A} (c : M A) : Prop :=
  forall w, proj (c w).2 = proj w.

Lemma preserves_ret {A} (a : A) : preserves (ret a).
Proof. intros w. reflexivity. Qed.

Lemma preserves_bind {A C} (c : M A) (f : A -> M C) :
  preserves c -> (forall a, preserves (f a)) -> preserves (bind c f).
Proof.
  intros Hc Hf w. rewrite bind_run. rewrite Hf. apply Hc.
Qed.

Lemma preserves_waitIfPaused n : preserves (waitIfPaused n).
Proof. induction n; [apply preserves_ret|exact IHn]. Qed.

End Frames.

(** Computations that keep a property of the world once it holds. *)
Definition stable {A} (P : World -> Prop) (c : M A) : Prop :=
  forall w, P w -> P (c w).2.

Lemma stable_ret {A} P (a : A) : stable P (ret a).
Proof. intros w H. exact H. Qed.

Lemma stable_bind {A C} P (c : M A) (f : A -> M C) :
  stable P c -> (forall a, stable P (f a)) -> stable P (bind c f).
Proof.
  intros Hc Hf w H. rewrite bind_run. apply Hf, Hc, H.
Qed.

Lemma stable_preserves {A B} (proj : World -> B) (Q : B -> Prop) (c : M A) :
  preserves proj c -> stable (fun w => Q (proj w)) c.
Proof. intros Hc w H. by rewrite Hc. Qed.

Lemma stable_waitIfPaused P n : stable P (waitIfPaused n).
Proof. induction n; [apply stable_ret|exact IHn]. Qed.

Lemma onDisk_writeFile path q f : stable (onDisk path) (writeFile q f).
Proof.
  unfold writeFile, onDisk. destruct f as [x|]; [|apply stable_ret].
  intros w H. simpl. destruct (decide (q = path)) as [->|Hne].
  - rewrite lookup_insert_eq. eauto.
  - by rewrite lookup_insert_ne.
Qed.

Lemma onDisk_unlinkSync path q : q <> path -> stable (onDisk path) (unlinkSync q).
Proof.
  intros Hne w H. unfold onDisk in *. simpl. by rewrite lookup_delete_ne.
Qed.

Create HintDb frames.

(** Breaks a goal [stable (onDisk path) c] down to the primitives of [c]. *)
Ltac keep :=
  repeat first
    [ solve [auto 1 with frames nocore]
    | simple apply @stable_ret
    | simple apply @stable_waitIfPaused
    | simple apply @onDisk_writeFile
    | simple apply @stable_bind; [|intros ?]
    | match goal with
      | |- stable _ (match ?x with _ => _ end) => destruct x
      end
    | (intros ? ?; assumption) ].

(** Breaks a goal [preserves proj c] down in the same way, using the frame
    lemmas already proved for its parts. *)
Ltac frame :=
  repeat first
    [ solve [auto 1 with frames nocore]
    | simple apply @preserves_ret
    | simple apply @preserves_waitIfPaused
    | simple apply @preserves_bind; [|intros ?]
    | match goal with
      | |- preserves _ (match ?x with _ => _ end) => destruct x
      end
    | (intros ?; reflexivity) ].

Section Pipeline.

Variable pf : Platform.
Variable opts : ConvertOptions.

Lemma tryExtract_events c tmp o : preserves events (tryExtract c tmp o).
Proof. unfold tryExtract, writeFile. frame. Qed.
#[local] Hint Resolve tryExtract_events : frames.

Lemma probeAndAttached_events input env cover :
  preserves events (probeAndAttached pf opts input env cover).
Proof.
  unfold probeAndAttached. frame.
Qed.
#[local] Hint Resolve probeAndAttached_events : frames.

Lemma frameFallback_events input env cover temp :
  preserves events (frameFallback pf opts input env cover temp).
Proof.
  unfold frameFallback. frame.
Qed.
#[local] Hint Resolve frameFallback_events : frames.

Lemma tryExtract_unlinks c tmp o : preserves unlinks (tryExtract c tmp o).
Proof. unfold tryExtract, writeFile. frame. Qed.
#[local] Hint Resolve tryExtract_unlinks : frames.

Lemma probeAndAttached_unlinks input env cover :
  preserves unlinks (probeAndAttached pf opts input env cover).
Proof.
  unfold probeAndAttached. frame.
Qed.
#[local] Hint Resolve probeAndAttached_unlinks : frames.

Lemma frameFallback_unlinks input env cover temp :
  preserves unlinks (frameFallback pf opts input env cover temp).
Proof.
  unfold frameFallback. frame.
Qed.
#[local] Hint Resolve frameFallback_unlinks : frames.

Lemma reportAll_unlinks input ps : preserves unlinks (reportAll opts input ps).
Proof.
  induction ps as [|p ps IH]; simpl; [apply preserves_ret|].
  unfold reportProgress, when. frame.
Qed.
#[local] Hint Resolve reportAll_unlinks : frames.

Lemma attempt_unlinks env args i : preserves unlinks (attempt opts env args i).
Proof.
  unfold attempt, writeFile. frame.
Qed.
#[local] Hint Resolve attempt_unlinks : frames.

Lemma attemptLoop_unlinks env args n i e :
  preserves unlinks (attemptLoop opts env args n i e).
Proof.
  revert i e. induction n as [|n IH]; intros i e; simpl; [apply preserves_ret|].
  apply preserves_bind; [apply attempt_unlinks|].
  intros [err|]; [apply IH|apply preserves_ret].
Qed.
#[local] Hint Resolve attemptLoop_unlinks : frames.

Lemma reportDone_unlinks input out : preserves unlinks (reportDone opts input out).
Proof. unfold reportDone, when. frame. Qed.
#[local] Hint Resolve reportDone_unlinks : frames.

Lemma catchBlock_unlinks input out e :
  preserves unlinks (catchBlock opts input out e).
Proof. unfold catchBlock, when. frame. Qed.
#[local] Hint Resolve catchBlock_unlinks : frames.

(** *** The temporary cover *)

Lemma reportDone_value input out w :
  (reportDone opts input out w).1 = Ok (doneResult input out).
Proof.
  unfold reportDone, when. rewrite !bind_run. reflexivity.
Qed.

(** The [try] block unlinks nothing when it throws, and at most one path
    when it returns. *)
Lemma tryBody_unlinks trimRange input out env w :
  let run := tryBody pf opts trimRange input out env w in
  match run.1 with
  | Throw _ => unlinks run.2 = unlinks w
  | Ok res =>
      res = doneResult input out
      /\ exists l, unlinks run.2 = unlinks w ++ l /\ (length l <= 1)%nat
  end.
Proof.
  cbv zeta. unfold tryBody. rewrite bind_run.
  pose proof (preserves_waitIfPaused unlinks (pausedPolls env) w) as Hp.
  destruct (waitIfPaused _ w) as [[] w0]. simpl in Hp |- *. rewrite <- Hp.
  clear Hp w.
  destruct (dryRun opts).
  { rewrite reportDone_value. split; [done|]. exists [].
    rewrite app_nil_r. split; [apply reportDone_unlinks|simpl; lia]. }
  rewrite bind_run.
  pose proof (probeAndAttached_unlinks input env
                (default ∅ (metadata opts) !! js "coverImagePath") w0) as H1.
  destruct (probeAndAttached _ _ _ _ _ w0) as [[[autoTags cover1] temp1] w1].
  simpl in H1 |- *. rewrite <- H1. clear H1 w0.
  rewrite bind_run.
  pose proof (frameFallback_unlinks input env cover1 temp1 w1) as H2.
  destruct (frameFallback _ _ _ _ _ _ w1) as [[cover temp] w2].
  simpl in H2 |- *. rewrite <- H2. clear H2 w1.
  rewrite bind_run.
  match goal with
  | |- context [attemptLoop opts ?env ?args ?n ?i ?e w2] =>
      pose proof (attemptLoop_unlinks env args n i e w2) as H3;
      destruct (attemptLoop opts env args n i e w2) as [[okRun lastErr] w3]
  end.
  simpl in H3 |- *. rewrite <- H3. clear H3 w2.
  destruct okRun; [|reflexivity].
  rewrite bind_run, reportDone_value, reportDone_unlinks.
  split; [done|].
  destruct temp as [tmp|]; simpl.
  - exists [tmp]. split; [reflexivity|simpl; lia].
  - exists []. rewrite app_nil_r. split; [reflexivity|simpl; lia].
Qed.

(** A file whose conversion fails leaves the disk without a single unlink:
    the cover extracted for it stays behind. *)
Lemma failed_task_unlinks_nothing trimRange total input w :
  let run := runTask pf opts trimRange total input w in
  resOk run.1 = false -> unlinks run.2 = unlinks w.
Proof.
  cbv zeta. unfold runTask. rewrite !bind_run.
  assert (Hm : forall b, unlinks (when b (mkdirSync (outDirOf pf opts input)) w).2
                         = unlinks w).
  { intros []; reflexivity. }
  specialize (Hm (negb (dryRun opts))).
  destruct (when _ _ w) as [[] w0]. simpl in Hm |- *.
  destruct (negb (overwrite opts) && bool_decide _); [discriminate|].
  rewrite !bind_run.
  match goal with
  | |- context [tryBody pf opts trimRange input ?out ?env ?w1] =>
      assert (Hw1 : unlinks w1 = unlinks w0)
        by (unfold when; destruct (onFileStart opts), (useBars opts);
            reflexivity);
      generalize dependent w1; intros wStarted Hw1;
      pose proof (tryBody_unlinks trimRange input out env wStarted) as Ht;
      destruct (tryBody pf opts trimRange input out env wStarted)
        as [[res|e] w2]
  end; simpl in Ht |- *.
  - destruct Ht as [-> _]. discriminate.
  - intros _. rewrite catchBlock_unlinks. congruence.
Qed.

(** *** The skip rule *)

Lemma runTask_skip trimRange total input w :
  overwrite opts = false ->
  is_Some (files w !! outputOf pf opts input) ->
  runTask pf opts trimRange total input w
  = (doneResult input (outputOf pf opts input),
     (when (negb (dryRun opts)) (mkdirSync (outDirOf pf opts input)) w).2).
Proof.
  intros Hov Hex. unfold runTask. rewrite !bind_run.
  assert (Hf : files (when (negb (dryRun opts))
                        (mkdirSync (outDirOf pf opts input)) w).2 = files w).
  { destruct (dryRun opts); reflexivity. }
  destruct (when _ _ w) as [[] w0]. simpl in Hf |- *.
  rewrite Hov, Hf, bool_decide_eq_true_2 by exact Hex. reflexivity.
Qed.

Lemma sameButDirs_refl w : sameButDirs w w.
Proof. by repeat split. Qed.

Lemma sameButDirs_trans w1 w2 w3 :
  sameButDirs w1 w2 -> sameButDirs w2 w3 -> sameButDirs w1 w3.
Proof.
  unfold sameButDirs. intros (? & ? & ? & ? & ?) (? & ? & ? & ? & ?).
  repeat split; congruence.
Qed.

Lemma runTask_skip_same trimRange total input w :
  overwrite opts = false ->
  is_Some (files w !! outputOf pf opts input) ->
  (runTask pf opts trimRange total input w).1
  = doneResult input (outputOf pf opts input)
  /\ sameButDirs w (runTask pf opts trimRange total input w).2.
Proof.
  intros Hov Hex. rewrite runTask_skip by done. split; [done|].
  destruct (dryRun opts); by repeat split.
Qed.

Lemma runTasks_all_skipped trimRange total cs w :
  overwrite opts = false ->
  (forall c, c ∈ cs -> is_Some (files w !! outputOf pf opts c)) ->
  (runTasks pf opts trimRange total cs w).1
  = List.map (fun c => doneResult c (outputOf pf opts c)) cs
  /\ sameButDirs w (runTasks pf opts trimRange total cs w).2.
Proof.
  intros Hov. revert w. induction cs as [|c cs IH]; intros w Hex; simpl.
  - split; [done|apply sameButDirs_refl].
  - rewrite !bind_run. simpl.
    destruct (runTask_skip_same trimRange total c w Hov) as [Hr Hs].
    { apply Hex. by left. }
    destruct (runTask pf opts trimRange total c w) as [r w1].
    simpl in Hr, Hs |- *. subst r.
    destruct (IH w1) as [Hrs Hss].
    { intros c' Hc'. destruct Hs as [-> _]. apply Hex. by right. }
    rewrite Hrs. split; [done|]. by eapply sameButDirs_trans.
Qed.

Lemma convertPaths_all_skipped inputs trimRange w :
  overwrite opts = false ->
  parseTrim (trim opts) = Ok trimRange ->
  (forall c, c ∈ candidatesOf pf (files w) inputs ->
             is_Some (files w !! outputOf pf opts c)) ->
  (convertPaths pf opts inputs w).1
  = Ok (List.map (fun c => doneResult c (outputOf pf opts c))
          (candidatesOf pf (files w) inputs))
  /\ sameButDirs w (convertPaths pf opts inputs w).2.
Proof.
  intros Hov Htrim Hex. unfold convertPaths.
  destruct (candidatesOf pf (files w) inputs) as [|c0 cs] eqn:Hcs.
  { split; [done|apply sameButDirs_refl]. }
  rewrite bind_run, Htrim, bind_run. cbn [ret fst snd].
  match goal with
  | |- context [runTasks pf opts trimRange ?total ?l ?w0] =>
      destruct (runTasks_all_skipped trimRange total l w0 Hov) as [Hr Hs];
      [exact Hex|]
  end.
  rewrite Hr. split; [done|].
  eapply sameButDirs_trans; [|exact Hs]. by repeat split.
Qed.

(** *** What a first run leaves on disk *)

Lemma tryExtract_onDisk path c tmp o : stable (onDisk path) (tryExtract c tmp o).
Proof. unfold tryExtract. keep. Qed.
#[local] Hint Resolve tryExtract_onDisk : frames.

Lemma probeAndAttached_onDisk path input env cover :
  stable (onDisk path) (probeAndAttached pf opts input env cover).
Proof. unfold probeAndAttached. keep. Qed.
#[local] Hint Resolve probeAndAttached_onDisk : frames.

Lemma frameFallback_onDisk path input env cover temp :
  stable (onDisk path) (frameFallback pf opts input env cover temp).
Proof. unfold frameFallback. keep. Qed.
#[local] Hint Resolve frameFallback_onDisk : frames.

Lemma reportAll_onDisk path input ps :
  stable (onDisk path) (reportAll opts input ps).
Proof.
  induction ps as [|p ps IH]; simpl; [apply stable_ret|].
  unfold reportProgress, when. keep.
Qed.
#[local] Hint Resolve reportAll_onDisk : frames.

Lemma attempt_onDisk path env args i :
  stable (onDisk path) (attempt opts env args i).
Proof. unfold attempt. keep. Qed.
#[local] Hint Resolve attempt_onDisk : frames.

Lemma attemptLoop_onDisk path env args n i e :
  stable (onDisk path) (attemptLoop opts env args n i e).
Proof.
  revert i e. induction n as [|n IH]; intros i e; simpl; [apply stable_ret|].
  apply stable_bind; [apply attempt_onDisk|].
  intros [err|]; [apply IH|apply stable_ret].
Qed.
#[local] Hint Resolve attemptLoop_onDisk : frames.

Lemma reportDone_onDisk path input out :
  stable (onDisk path) (reportDone opts input out).
Proof. unfold reportDone, when. keep. Qed.
#[local] Hint Resolve reportDone_onDisk : frames.

Lemma catchBlock_onDisk path input out e :
  stable (onDisk path) (catchBlock opts input out e).
Proof. unfold catchBlock, when. keep. Qed.
#[local] Hint Resolve catchBlock_onDisk : frames.

(** The temporary cover a task remembers is one of its two names. *)
Lemma tryExtract_value c tmp o w :
  (tryExtract c tmp o w).1 = None \/ (tryExtract c tmp o w).1 = Some tmp.
Proof.
  unfold tryExtract. rewrite !bind_run.
  destruct (extractThrows o); [by left|].
  rewrite bind_run. cbn [ret fst].
  destruct (existsSync tmp _).1; auto.
Qed.

Lemma probeAndAttached_temp input env cover w :
  (probeAndAttached pf opts input env cover w).1.2 = None
  \/ (probeAndAttached pf opts input env cover w).1.2
     = Some (attachedTemp pf opts input env).
Proof.
  unfold probeAndAttached. rewrite bind_run.
  destruct (probe env) as [|tags [idx|]]; try (by left).
  destruct (falsyPath cover); [|by left].
  rewrite bind_run.
  match goal with
  | |- context [tryExtract ?c ?tmp ?o ?w0] =>
      destruct (tryExtract_value c tmp o w0) as [H|H]; rewrite H
  end; [by left|by right].
Qed.

Lemma frameFallback_temp input env cover temp w :
  (frameFallback pf opts input env cover temp w).1.2 = temp
  \/ (frameFallback pf opts input env cover temp w).1.2
     = Some (frameTemp pf opts input env).
Proof.
  unfold frameFallback. destruct (falsyPath cover); [|by left].
  rewrite bind_run.
  match goal with
  | |- context [tryExtract ?c ?tmp ?o ?w0] =>
      destruct (tryExtract_value c tmp o w0) as [H|H]; rewrite H
  end; [by left|by right].
Qed.

(** A loop that ends well has written the output. *)
Lemma attemptLoop_ok_output env args n i e w :
  encodeLeavesOutput env ->
  (attemptLoop opts env args n i e w).1.1 = true ->
  onDisk (encOutput args) (attemptLoop opts env args n i e w).2.
Proof.
  intros Henv. revert i e w.
  induction n as [|n IH]; intros i e w; simpl; [discriminate|].
  rewrite bind_run.
  destruct (attempt opts env args i w) as [r w1] eqn:Ha. simpl.
  destruct r as [err|]; [apply IH|]. intros _. simpl.
  unfold attempt in Ha. destruct (hasEncoder _); [|discriminate].
  rewrite !bind_run in Ha. cbn [ret] in Ha.
  injection Ha as Hf Hw. subst w1.
  destruct (Henv i Hf) as [f Hwritten]. rewrite Hwritten.
  unfold onDisk. simpl. rewrite lookup_insert_eq. eauto.
Qed.

Lemma tryBody_onDisk trimRange input out env path :
  path <> attachedTemp pf opts input env ->
  path <> frameTemp pf opts input env ->
  stable (onDisk path) (tryBody pf opts trimRange input out env).
Proof.
  intros HA HF w Hw. unfold tryBody. rewrite bind_run.
  apply (stable_waitIfPaused _ (pausedPolls env)) in Hw.
  destruct (waitIfPaused _ w) as [[] w0]. simpl in Hw |- *. clear w.
  destruct (dryRun opts); [by apply reportDone_onDisk|].
  rewrite bind_run.
  pose proof (probeAndAttached_temp input env
                (default ∅ (metadata opts) !! js "coverImagePath") w0) as Ht1.
  apply (probeAndAttached_onDisk path input env
           (default ∅ (metadata opts) !! js "coverImagePath")) in Hw.
  destruct (probeAndAttached _ _ _ _ _ w0) as [[[autoTags cover1] temp1] w1].
  simpl in Ht1, Hw |- *. clear w0.
  rewrite bind_run.
  pose proof (frameFallback_temp input env cover1 temp1 w1) as Ht2.
  apply (frameFallback_onDisk path input env cover1 temp1) in Hw.
  destruct (frameFallback _ _ _ _ _ _ w1) as [[cover temp] w2].
  simpl in Ht2, Hw |- *. clear w1.
  rewrite bind_run.
  match goal with
  | |- context [attemptLoop opts ?env ?args ?n ?i ?e w2] =>
      apply (attemptLoop_onDisk path env args n i e) in Hw;
      destruct (attemptLoop opts env args n i e w2) as [[okRun lastErr] w3]
  end.
  simpl in Hw |- *. destruct okRun; [|exact Hw].
  rewrite bind_run. apply reportDone_onDisk.
  assert (Htemp : temp = None \/ temp = Some (attachedTemp pf opts input env)
                  \/ temp = Some (frameTemp pf opts input env)).
  { destruct Ht2 as [->| ->]; [destruct Ht1 as [->| ->]|]; auto. }
  destruct Htemp as [->|[->| ->]]; [exact Hw|..];
    by apply onDisk_unlinkSync.
Qed.

Lemma tryBody_ok_output trimRange input out env w :
  dryRun opts = false ->
  encodeLeavesOutput env ->
  out <> attachedTemp pf opts input env ->
  out <> frameTemp pf opts input env ->
  (exists res, (tryBody pf opts trimRange input out env w).1 = Ok res) ->
  onDisk out (tryBody pf opts trimRange input out env w).2.
Proof.
  intros Hdry Henv HA HF. unfold tryBody. rewrite bind_run.
  destruct (waitIfPaused _ w) as [[] w0]. simpl. clear w.
  rewrite Hdry. rewrite bind_run.
  pose proof (probeAndAttached_temp input env
                (default ∅ (metadata opts) !! js "coverImagePath") w0) as Ht1.
  destruct (probeAndAttached _ _ _ _ _ w0) as [[[autoTags cover1] temp1] w1].
  simpl in Ht1 |- *. clear w0.
  rewrite bind_run.
  pose proof (frameFallback_temp input env cover1 temp1 w1) as Ht2.
  destruct (frameFallback _ _ _ _ _ _ w1) as [[cover temp] w2].
  simpl in Ht2 |- *. clear w1.
  rewrite bind_run.
  match goal with
  | |- context [attemptLoop opts ?env ?args ?n ?i ?e w2] =>
      pose proof (attemptLoop_ok_output env args n i e w2 Henv) as Hout;
      destruct (attemptLoop opts env args n i e w2) as [[okRun lastErr] w3]
  end.
  simpl in Hout |- *. destruct okRun; [|intros [res Hres]; discriminate].
  intros _. specialize (Hout eq_refl).
  rewrite bind_run. apply reportDone_onDisk.
  assert (Htemp : temp = None \/ temp = Some (attachedTemp pf opts input env)
                  \/ temp = Some (frameTemp pf opts input env)).
  { destruct Ht2 as [->| ->]; [destruct Ht1 as [->| ->]|]; auto. }
  destruct Htemp as [->|[->| ->]]; [exact Hout|..];
    by apply onDisk_unlinkSync.
Qed.

Lemma runTask_onDisk trimRange total input path :
  notTempOf pf opts input path ->
  stable (onDisk path) (runTask pf opts trimRange total input).
Proof.
  intros [HA HF]. unfold runTask.
  apply stable_bind; [unfold when; keep|intros _].
  apply stable_bind; [keep|intros there].
  destruct (negb (overwrite opts) && there); [apply stable_ret|].
  apply stable_bind; [keep|intros index].
  apply stable_bind; [unfold when; keep|intros _].
  apply stable_bind; [unfold when; keep|intros _].
  apply stable_bind; [by apply tryBody_onDisk|intros [res|e]].
  - apply stable_ret.
  - apply catchBlock_onDisk.
Qed.

Lemma runTask_ok_output trimRange total input w :
  dryRun opts = false ->
  encodeLeavesOutput (taskEnv pf input) ->
  notTempOf pf opts input (outputOf pf opts input) ->
  resOk (runTask pf opts trimRange total input w).1 = true ->
  onDisk (outputOf pf opts input) (runTask pf opts trimRange total input w).2.
Proof.
  intros Hdry Henv [HA HF]. unfold runTask. rewrite !bind_run.
  assert (Hm : files (when (negb (dryRun opts))
                        (mkdirSync (outDirOf pf opts input)) w).2 = files w).
  { destruct (dryRun opts); reflexivity. }
  destruct (when _ _ w) as [[] w0]. simpl in Hm |- *.
  destruct (bool_decide (is_Some (files w0 !! outputOf pf opts input))) eqn:Hex.
  - apply bool_decide_eq_true in Hex.
    destruct (negb (overwrite opts)); simpl.
    + intros _. exact Hex.
    + rewrite !bind_run.
      match goal with
      | |- context [tryBody pf opts trimRange input ?out ?env ?w1] =>
          assert (Hw1 : onDisk out w1)
            by (unfold when, onDisk; destruct (onFileStart opts), (useBars opts);
                exact Hex);
          generalize dependent w1; intros wStarted Hw1;
          pose proof (tryBody_onDisk trimRange input out env out HA HF
                        wStarted Hw1) as Hkeep;
          destruct (tryBody pf opts trimRange input out env wStarted)
            as [[res|e] w2]
      end; simpl in Hkeep |- *.
      * intros _. exact Hkeep.
      * intros _. by apply catchBlock_onDisk.
  - rewrite andb_false_r. rewrite !bind_run.
    match goal with
    | |- context [tryBody pf opts trimRange input ?out ?env ?w1] =>
        pose proof (tryBody_ok_output trimRange input out env w1
                      Hdry Henv HA HF) as Hok;
        pose proof (tryBody_unlinks trimRange input out env w1) as Hres;
        destruct (tryBody pf opts trimRange input out env w1) as [[res|e] w2]
    end; simpl in Hok, Hres |- *.
    + intros _. apply Hok. eauto.
    + unfold catchBlock. rewrite !bind_run. simpl. discriminate.
Qed.

(** After a run in which every task succeeded, every output is on disk. *)
Lemma runTasks_ok_outputs trimRange total cs w :
  dryRun opts = false ->
  (forall c, c ∈ cs -> encodeLeavesOutput (taskEnv pf c)) ->
  (forall c c', c ∈ cs -> c' ∈ cs -> notTempOf pf opts c (outputOf pf opts c')) ->
  Forall (fun r => resOk r = true) (runTasks pf opts trimRange total cs w).1 ->
  forall c, c ∈ cs ->
    onDisk (outputOf pf opts c) (runTasks pf opts trimRange total cs w).2.
Proof.
  intros Hdry. revert w.
  induction cs as [|c0 cs IH]; intros w Henv Htemp Hok c Hc.
  { by apply elem_of_nil in Hc. }
  simpl in Hok |- *. rewrite !bind_run in Hok |- *. simpl in Hok |- *.
  pose proof (runTask_ok_output trimRange total c0 w Hdry) as H0.
  destruct (runTask pf opts trimRange total c0 w) as [r w1] eqn:Hrun.
  simpl in *.
  apply Forall_cons in Hok as [Hr Hrs].
  assert (Hlater : forall path,
            (forall c', c' ∈ cs -> notTempOf pf opts c' path) ->
            onDisk path w1 ->
            onDisk path (runTasks pf opts trimRange total cs w1).2).
  { clear -pf opts. intros path. revert w1.
    induction cs as [|c1 cs IHcs]; intros w1 Hnot Hon; [exact Hon|].
    simpl. rewrite !bind_run. simpl. apply IHcs.
    - intros c' Hc'. apply Hnot. by right.
    - apply runTask_onDisk; [apply Hnot; by left|exact Hon]. }
  apply elem_of_cons in Hc as [->|Hc].
  - apply Hlater.
    + intros c' Hc'. apply Htemp; [by right|by left].
    + apply H0; [apply Henv; by left|apply Htemp; by left|exact Hr].
  - apply IH; try done.
    + intros c' Hc'. apply Henv. by right.
    + intros a b Ha Hb. apply Htemp; by right.
Qed.

Lemma convertPaths_ok_outputs inputs trimRange w :
  dryRun opts = false ->
  parseTrim (trim opts) = Ok trimRange ->
  (forall c, c ∈ candidatesOf pf (files w) inputs ->
             encodeLeavesOutput (taskEnv pf c)) ->
  (forall c c', c ∈ candidatesOf pf (files w) inputs ->
                c' ∈ candidatesOf pf (files w) inputs ->
                notTempOf pf opts c (outputOf pf opts c')) ->
  (exists rs, (convertPaths pf opts inputs w).1 = Ok rs
              /\ Forall (fun r => resOk r = true) rs) ->
  forall c, c ∈ candidatesOf pf (files w) inputs ->
    onDisk (outputOf pf opts c) (convertPaths pf opts inputs w).2.
Proof.
  intros Hdry Htrim Henv Htemp. unfold convertPaths.
  destruct (candidatesOf pf (files w) inputs) as [|c0 cs] eqn:Hcs.
  { intros _ c Hc. by apply elem_of_nil in Hc. }
  rewrite bind_run, Htrim, bind_run. cbn [ret fst snd].
  intros (rs & [= <-] & Hok) c Hc.
  by apply runTasks_ok_outputs.
Qed.

(** C3. When [overwrite] is not set and the output of a file is on disk,
    its task returns success at once: no backend call (no probe, no
    extraction, no encode), no event, no unlink, no file touched.  So a run
    with [overwrite] unset that finds every candidate's output on disk
    answers success for every task by this path and leaves every file as it
    was, content and modification time, and so does the same request run
    once more.  In particular, after a first run (not a dry run) in which
    every task succeeded, on an engine whose successful encodes leave their
    output file and whose temporary names are no output names, a second run
    of the same request over the same candidates succeeds for every task by
    the skip path and changes no file. *)
Theorem skip_existing_output_is_a_noop :
  (forall trimRange total input w,
      overwrite opts = false ->
      is_Some (files w !! outputOf pf opts input) ->
      let run := runTask pf opts trimRange total input w in
      run.1 = doneResult input (outputOf pf opts input)
      /\ calls run.2 = calls w
      /\ files run.2 = files w
      /\ events run.2 = events w
      /\ unlinks run.2 = unlinks w)
  /\ (forall inputs trimRange w,
         overwrite opts = false ->
         parseTrim (trim opts) = Ok trimRange ->
         (forall c, c ∈ candidatesOf pf (files w) inputs ->
                    is_Some (files w !! outputOf pf opts c)) ->
         let first := convertPaths pf opts inputs w in
         let second := convertPaths pf opts inputs first.2 in
         first.1 = Ok (List.map (fun c => doneResult c (outputOf pf opts c))
                         (candidatesOf pf (files w) inputs))
         /\ second.1 = first.1
         /\ calls second.2 = calls w
         /\ (forall path, files second.2 !! path = files w !! path))
  /\ (forall inputs trimRange w,
         overwrite opts = false ->
         dryRun opts = false ->
         parseTrim (trim opts) = Ok trimRange ->
         let candidates := candidatesOf pf (files w) inputs in
         let first := convertPaths pf opts inputs w in
         let second := convertPaths pf opts inputs first.2 in
         (forall c, c ∈ candidates -> encodeLeavesOutput (taskEnv pf c)) ->
         (forall c c', c ∈ candidates -> c' ∈ candidates ->
                       notTempOf pf opts c (outputOf pf opts c')) ->
         (exists rs, first.1 = Ok rs /\ Forall (fun r => resOk r = true) rs) ->
         candidatesOf pf (files first.2) inputs = candidates ->
         second.1 = Ok (List.map (fun c => doneResult c (outputOf pf opts c))
                          candidates)
         /\ calls second.2 = calls first.2
         /\ events second.2 = events first.2
         /\ (forall path, files second.2 !! path = files first.2 !! path)).
Proof.
  split; [|split].
  - intros * Hov Hex. cbv zeta.
    destruct (runTask_skip_same trimRange total input w Hov Hex)
      as (Hr & Hf & Hc & He & Hu & _).
    by repeat split.
  - intros * Hov Htrim Hex. cbv zeta.
    destruct (convertPaths_all_skipped inputs trimRange w Hov Htrim Hex)
      as (Hr1 & Hf1 & Hc1 & _).
    destruct (convertPaths_all_skipped inputs trimRange
                (convertPaths pf opts inputs w).2 Hov Htrim)
      as (Hr2 & Hf2 & Hc2 & _).
    { rewrite Hf1. exact Hex. }
    rewrite Hf1 in Hr2.
    split; [|split; [|split]]; [congruence..|].
    intros path. by rewrite Hf2, Hf1.
  - intros * Hov Hdry Htrim. cbv zeta. intros Henv Htemp Hok Hsame.
    pose proof (convertPaths_ok_outputs inputs trimRange w Hdry Htrim
                  Henv Htemp Hok) as Hon.
    destruct (convertPaths_all_skipped inputs trimRange
                (convertPaths pf opts inputs w).2 Hov Htrim)
      as (Hr2 & Hf2 & Hc2 & He2 & _).
    { rewrite Hsame. exact Hon. }
    rewrite Hsame in Hr2.
    split; [exact Hr2|]. split; [exact Hc2|]. split; [exact He2|].
    intros path. by rewrite Hf2.
Qed.

(** *** A trim string that does not parse *)

(** C6, amended.  [5-65] parses to start 5 and end 65, and the encode runs
    from 5 for 60 seconds; [5] parses to start 5 with no end, and the encode
    has no duration.  When the first component of the trim string, or the
    second one, is present, not empty and not a number, and the run has at
    least one candidate, the run throws the trim error once, before any
    task exists: no event, no backend call, no index handed out, no file
    touched. *)
Theorem trim_parses_or_aborts_before_any_task :
  (parseTrim (Some (js "5-65"))
   = Ok {| trimStart := Some (Fin 5); trimEnd := Some (Fin 65) |}
   /\ Ffmpeg.buildBase
        (Some {| trimStart := Some (Fin 5); trimEnd := Some (Fin 65) |})
      = {| Ffmpeg.startTime := Some (Fin 5);
           Ffmpeg.duration := Some (Fin 60) |})
  /\ (parseTrim (Some (js "5"))
      = Ok {| trimStart := Some (Fin 5); trimEnd := None |}
      /\ Ffmpeg.buildBase (Some {| trimStart := Some (Fin 5); trimEnd := None |})
         = {| Ffmpeg.startTime := Some (Fin 5); Ffmpeg.duration := None |})
  /\ (forall inputs w t,
         trim opts = Some t ->
         t <> [] ->
         nonNumeric (JS.split t (js "-") !! 0%nat)
         \/ nonNumeric (JS.split t (js "-") !! 1%nat) ->
         candidatesOf pf (files w) inputs <> [] ->
         let run := convertPaths pf opts inputs w in
         run.1 = Throw trimError
         /\ events run.2 = events w
         /\ calls run.2 = calls w
         /\ idxCounter run.2 = idxCounter w
         /\ files run.2 = files w).
Proof.
  split; [|split].
  - split; [apply TrimFacts.parseTrim_5_65|apply TrimFacts.buildBase_5_65].
  - split; [apply TrimFacts.parseTrim_5|apply TrimFacts.buildBase_5].
  - intros inputs w t Ht Hne Hbad Hcs. cbv zeta. unfold convertPaths.
    destruct (candidatesOf pf (files w) inputs) as [|c0 cs]; [done|].
    rewrite bind_run, Ht.
    apply (TrimFacts.parseTrim_throws_iff t Hne) in Hbad. rewrite Hbad.
    by repeat split.
Qed.

(** *** The callbacks of one file, when all three are supplied *)

Hypothesis withStart : onFileStart opts = true.
Hypothesis withProgress : onFileProgress opts = true.
Hypothesis withDone : onFileDone opts = true.

Lemma no_bars : useBars opts = false.
Proof. unfold useBars. rewrite withStart. reflexivity. Qed.

Lemma reportAll_events input ps w :
  events (reportAll opts input ps w).2
  = events w ++ List.map (FileProgress input) ps.
Proof.
  revert w. induction ps as [|p ps IH]; intros w; simpl.
  - by rewrite app_nil_r.
  - rewrite bind_run, IH. unfold reportProgress.
    rewrite no_bars, withProgress. simpl.
    by rewrite <- app_assoc.
Qed.

Lemma attempt_value env args i w :
  (attempt opts env args i w).1
  = if hasEncoder (extOut (format opts))
    then failure (attemptOutcome env i) else Some notAFunction.
Proof.
  unfold attempt. destruct (hasEncoder _); [|reflexivity].
  rewrite !bind_run. reflexivity.
Qed.

Lemma attempt_events env args i w :
  events (attempt opts env args i w).2
  = events w
    ++ List.map (FileProgress (encInput args))
         (if hasEncoder (extOut (format opts))
          then progress (attemptOutcome env i) else []).
Proof.
  unfold attempt. destruct (hasEncoder _); simpl; [|by rewrite app_nil_r].
  rewrite !bind_run. cbn [ret snd].
  assert (Hw : preserves events
                 (writeFile (encOutput args) (written (attemptOutcome env i)))).
  { unfold writeFile. frame. }
  rewrite Hw, reportAll_events. reflexivity.
Qed.

Lemma attemptLoop_events env args n i e w :
  events (attemptLoop opts env args n i e w).2
  = events w
    ++ List.map (FileProgress (encInput args))
         (if hasEncoder (extOut (format opts))
          then percentsLoop env n i else []).
Proof.
  revert i e w. induction n as [|n IH]; intros i e w; simpl.
  - destruct (hasEncoder _); by rewrite app_nil_r.
  - rewrite bind_run.
    pose proof (attempt_value env args i w) as Hv.
    pose proof (attempt_events env args i w) as He.
    destruct (attempt opts env args i w) as [r w1]. simpl in *. subst r.
    destruct (hasEncoder _).
    + destruct (failure (attemptOutcome env i)).
      * rewrite IH, He, List.map_app, app_assoc. reflexivity.
      * simpl. rewrite He, app_nil_r. reflexivity.
    + rewrite IH, He. simpl. by rewrite app_nil_r.
Qed.

Lemma reportDone_run input out w :
  reportDone opts input out w
  = (Ok (doneResult input out),
     (emit (FileDone input out true None) w).2).
Proof.
  unfold reportDone. rewrite no_bars, withDone. reflexivity.
Qed.

(** The [try] block: the percentages, then the done event when it returns. *)
Lemma tryBody_events trimRange input out w :
  let run := tryBody pf opts trimRange input out (taskEnv pf input) w in
  events run.2
  = events w
    ++ List.map (FileProgress input) (reportedPercents pf opts input)
    ++ match run.1 with
       | Ok _ => [FileDone input out true None]
       | Throw _ => []
       end
  /\ match run.1 with
     | Ok res => res = doneResult input out
     | Throw _ => dryRun opts = false
     end.
Proof.
  cbv zeta. unfold tryBody, reportedPercents.
  rewrite bind_run.
  pose proof (preserves_waitIfPaused events
                (pausedPolls (taskEnv pf input)) w) as Hp.
  destruct (waitIfPaused _ w) as [[] w0]. simpl in Hp |- *. rewrite <- Hp.
  clear Hp w.
  destruct (dryRun opts).
  { rewrite reportDone_run. simpl. auto. }
  rewrite bind_run.
  pose proof (probeAndAttached_events input (taskEnv pf input)
                (default ∅ (metadata opts) !! js "coverImagePath") w0) as H1.
  destruct (probeAndAttached _ _ _ _ _ w0) as [[[autoTags cover1] temp1] w1].
  simpl in H1 |- *. rewrite <- H1. clear H1 w0.
  rewrite bind_run.
  pose proof (frameFallback_events input (taskEnv pf input) cover1 temp1 w1)
    as H2.
  destruct (frameFallback _ _ _ _ _ _ w1) as [[cover temp] w2].
  simpl in H2 |- *. rewrite <- H2. clear H2 w1.
  rewrite bind_run.
  match goal with
  | |- context [attemptLoop opts ?env ?args ?n ?i ?e w2] =>
      pose proof (attemptLoop_events env args n i e w2) as H3;
      destruct (attemptLoop opts env args n i e w2) as [[okRun lastErr] w3]
  end.
  simpl in H3 |- *.
  destruct okRun.
  - rewrite bind_run, reportDone_run. simpl.
    assert (Hu : events (match temp with
                         | Some tmp => unlinkSync tmp
                         | None => ret tt
                         end w3).2 = events w3).
    { destruct temp; reflexivity. }
    rewrite Hu, H3, <- app_assoc. auto.
  - simpl. rewrite H3, app_nil_r. auto.
Qed.

(** One file: nothing when the skip check fires, the trace otherwise. *)
Lemma runTask_events trimRange total input w :
  let run := runTask pf opts trimRange total input w in
  if skips pf opts (files w) input
  then run.1 = doneResult input (outputOf pf opts input)
       /\ events run.2 = events w
  else events run.2
       = events w
         ++ taskTrace pf opts total input (idxCounter w)
              (resOk run.1) (resError run.1).
Proof.
  cbv zeta. unfold runTask, skips, isFile.
  rewrite !bind_run.
  assert (Hm : forall b, files (when b (mkdirSync (outDirOf pf opts input)) w).2
                         = files w
                         /\ events (when b (mkdirSync (outDirOf pf opts input)) w).2
                            = events w
                         /\ idxCounter (when b (mkdirSync (outDirOf pf opts input)) w).2
                            = idxCounter w).
  { intros []; simpl; auto. }
  destruct (Hm (negb (dryRun opts))) as (Hf & He & Hi).
  destruct (when _ _ w) as [[] w0]. simpl in Hf, He, Hi |- *.
  rewrite Hf.
  destruct (negb (overwrite opts) && bool_decide (is_Some (files w !! _))).
  { simpl. auto. }
  rewrite !bind_run. rewrite withStart, no_bars. simpl.
  match goal with
  | |- context [tryBody pf opts trimRange input ?out ?env ?w1] =>
      pose proof (tryBody_events trimRange input out w1) as [Ht Hr];
      destruct (tryBody pf opts trimRange input out env w1) as [[res|e] w2]
  end; simpl in Ht, Hr |- *.
  - subst res. simpl. rewrite Ht. simpl. rewrite He, Hi.
    unfold taskTrace. rewrite <- !app_assoc. reflexivity.
  - unfold catchBlock. rewrite no_bars, withDone. simpl.
    rewrite Ht. simpl. rewrite He, Hi, app_nil_r.
    unfold taskTrace. rewrite <- !app_assoc. reflexivity.
Qed.

(** *** All the files of a run *)

Lemma runTasks_events trimRange total cs w :
  exists traces,
    events (runTasks pf opts trimRange total cs w).2
    = events w ++ concat traces
    /\ Forall2 (tracedBy pf opts total) cs traces.
Proof.
  revert w. induction cs as [|c cs IH]; intros w; simpl.
  - exists []. simpl. by rewrite app_nil_r.
  - rewrite !bind_run. simpl.
    pose proof (runTask_events trimRange total c w) as Hc. cbv zeta in Hc.
    destruct (runTask pf opts trimRange total c w) as [r w1]. simpl in *.
    destruct (IH w1) as (traces & Hev & Hall).
    destruct (skips pf opts (files w) c).
    + destruct Hc as [_ Hc]. exists ([] :: traces). simpl.
      rewrite Hev, Hc. split; [reflexivity|].
      constructor; [by left|exact Hall].
    + eexists (_ :: traces). simpl.
      rewrite Hev, Hc, <- app_assoc. split; [reflexivity|].
      constructor; [right; eauto|exact Hall].
Qed.

Lemma eqs_refl (a : jsstring) : eqs a a = true.
Proof. unfold eqs. by apply bool_decide_eq_true. Qed.

Lemma eqs_ne (a b : jsstring) : a <> b -> eqs a b = false.
Proof. intros. unfold eqs. by apply bool_decide_eq_false. Qed.

Lemma eventsFor_app c es1 es2 :
  eventsFor c (es1 ++ es2) = eventsFor c es1 ++ eventsFor c es2.
Proof. apply List.filter_app. Qed.

Lemma eventsFor_progress c c' ps :
  eventsFor c (List.map (FileProgress c') ps)
  = if eqs c' c then List.map (FileProgress c') ps else [].
Proof.
  induction ps as [|p ps IH]; simpl; [by destruct (eqs c' c)|].
  unfold eventsFor in *. simpl. rewrite IH. by destruct (eqs c' c).
Qed.

Lemma eventsFor_trace c c' total index ok error :
  eventsFor c (taskTrace pf opts total c' index ok error)
  = if eqs c' c then taskTrace pf opts total c' index ok error else [].
Proof.
  unfold taskTrace.
  change (eventsFor c (?e :: ?l)) with (eventsFor c ([e] ++ l)).
  rewrite !eventsFor_app, eventsFor_progress.
  unfold eventsFor. simpl. by destruct (eqs c' c).
Qed.

Lemma eventsFor_traces total cs traces c :
  NoDup cs -> Forall2 (tracedBy pf opts total) cs traces -> c ∈ cs ->
  tracedBy pf opts total c (eventsFor c (concat traces)).
Proof.
  intros Hnd Hall. revert Hnd.
  induction Hall as [|c' t cs traces Ht Hall IH]; intros Hnd Hc.
  - by apply elem_of_nil in Hc.
  - apply NoDup_cons in Hnd as [Hc' Hnd]. simpl. rewrite eventsFor_app.
    assert (Hrest : c ∉ cs -> eventsFor c (concat traces) = []).
    { clear IH Hnd Hc Hc' Ht.
      induction Hall as [|c0 t0 cs0 ts0 H0 _ IH0]; [done|].
      intros [Hne Hnot]%not_elem_of_cons. simpl.
      rewrite eventsFor_app, IH0, app_nil_r by done.
      destruct H0 as [->|(index & ok & error & ->)]; [done|].
      rewrite eventsFor_trace, eqs_ne; [done|congruence]. }
    apply elem_of_cons in Hc as [->|Hc].
    + rewrite Hrest, app_nil_r by done.
      destruct Ht as [->|(index & ok & error & ->)]; [by left|].
      rewrite eventsFor_trace, eqs_refl. right; eauto.
    + assert (c' <> c) by (intros ->; done).
      destruct Ht as [->|(index & ok & error & ->)]; [by apply IH|].
      rewrite eventsFor_trace, eqs_ne by done. by apply IH.
Qed.

(** The value shown on a progress bar is clamped: the clamp of line 279
    is applied there, and only there. *)
Lemma barValue_range p : 1 <= barValue p <= 99.
Proof. unfold barValue. lia. Qed.

(** C1, amended.  With the three callbacks supplied, a file that gets past
    the skip check emits exactly its start event, then one progress event
    for each percentage the backend reported, carrying that percentage
    unchanged (neither rounded nor clamped, over all attempts in order),
    then exactly one done event whose flag and message are those of the
    file's result; a file short-circuited by the skip check emits nothing.
    Over a whole run the events of each candidate, in order, are one of
    these two. *)
Theorem started_task_emits_start_progress_done :
  (forall trimRange total input w,
      let run := runTask pf opts trimRange total input w in
      if skips pf opts (files w) input
      then events run.2 = events w
      else events run.2
           = events w
             ++ taskTrace pf opts total input (idxCounter w)
                  (resOk run.1) (resError run.1))
  /\ (forall inputs w,
         let run := convertPaths pf opts inputs w in
         let candidates := candidatesOf pf (files w) inputs in
         exists new,
           events run.2 = events w ++ new
           /\ forall c, c ∈ candidates ->
                tracedBy pf opts (length candidates) c (eventsFor c new)).
Proof.
  split.
  - intros. pose proof (runTask_events trimRange total input w) as H.
    cbv zeta in H |- *. destruct (skips _ _ _ _); [apply H|exact H].
  - intros inputs w. cbv zeta. unfold convertPaths.
    pose proof (ResolverFacts.candidatesOf_NoDup pf (files w) inputs) as Hnd.
    destruct (candidatesOf pf (files w) inputs) as [|c0 cs] eqn:Hcs.
    { exists []. simpl. split; [by rewrite app_nil_r|].
      intros c Hc. by apply elem_of_nil in Hc. }
    rewrite bind_run. cbn [pLimit fst snd].
    destruct (parseTrim (trim opts)) as [trimRange|e].
    + rewrite bind_run. cbn [ret snd].
      match goal with
      | |- context [runTasks pf opts trimRange ?total ?l ?w0] =>
          destruct (runTasks_events trimRange total l w0) as (traces & Hev & Hall)
      end.
      exists (concat traces). split; [exact Hev|].
      intros c Hc. by eapply eventsFor_traces.
    + exists []. simpl. split; [by rewrite app_nil_r|].
      intros c Hc. by left.
Qed.

End Pipeline.

End TaskFacts.

(** ** Facts: the model run on concrete requests *)

Module DemoFacts.
Import Path Num Convert Concurrency Task Spec Demo.

Lemma specContract_nonempty input es : specContract input es -> es <> [].
Proof.
  intros (starts & ps & done & -> & _) H.
  apply app_eq_nil in H as [_ H]. apply app_eq_nil in H as [_ H]. discriminate.
Qed.

(** C1, as stated, fails: the output of [song] is on disk and [overwrite]
    is not set, so the task is short-circuited by the skip check; it
    succeeds, and no done event (no event at all) is emitted for it, where
    the contract asks for exactly one. *)
Lemma skipped_task_emits_no_done_event :
  song ∈ candidatesOf (demoPlatform [] goodEnv) (files convertedDisk) [song]
  /\ skippedRun.1 = Ok [doneResult song songOut]
  /\ events skippedRun.2 = []
  /\ ~ specContract song (eventsFor song (events skippedRun.2)).
Proof.
  split; [|split; [|split]].
  - vm_compute. apply list_elem_of_In. simpl. auto.
  - vm_compute. reflexivity.
  - vm_compute. reflexivity.
  - intros H. apply specContract_nonempty in H. apply H.
    vm_compute. reflexivity.
Qed.

Lemma goodRun_events :
  events goodRun.2
  = [FileStart song 0 1 songOut;
     FileProgress song (1 # 2); FileProgress song 50; FileProgress song 100;
     FileDone song songOut true None].
Proof. vm_compute. reflexivity. Qed.

(** C1 fails on the range too: the callback receives 0.5 and 100 as the
    backend reported them. *)
Lemma progress_reaches_callback_unclamped :
  FileProgress song (1 # 2) ∈ events goodRun.2
  /\ FileProgress song 100 ∈ events goodRun.2
  /\ ~ inFlight (1 # 2) /\ ~ inFlight 100
  /\ ~ specContract song (eventsFor song (events goodRun.2)).
Proof.
  assert (Hlow : ~ inFlight (1 # 2)).
  { intros [H _]. vm_compute in H. apply H. reflexivity. }
  assert (Hhigh : ~ inFlight 100).
  { intros [_ H]. vm_compute in H. apply H. reflexivity. }
  rewrite goodRun_events.
  split; [|split; [|split; [|split]]]; try assumption.
  - apply list_elem_of_In. simpl. auto.
  - apply list_elem_of_In. simpl. auto 6.
  - intros (starts & ps & done & Heq & _ & Hst & Hdn & Hfl & _).
    assert (Hin : FileProgress song (1 # 2)
                  ∈ starts ++ List.map (FileProgress song) ps ++ [done]).
    { rewrite <- Heq. vm_compute. apply list_elem_of_In. simpl. auto. }
    rewrite !elem_of_app in Hin. destruct Hin as [Hin|[Hin|Hin]].
    + rewrite Forall_forall in Hst. apply Hst in Hin. discriminate.
    + apply list_elem_of_In, in_map_iff in Hin as (p & Hp & Hin).
      injection Hp as ->. apply list_elem_of_In in Hin.
      rewrite Forall_forall in Hfl. apply Hlow, Hfl, Hin.
    + apply list_elem_of_singleton in Hin. subst done. discriminate.
Qed.

(** Across retries the percentages start over: 40, 40, then 30 and 100. *)
Example retried_run_events :
  events retriedRun.2
  = [FileStart song 0 1 songOut;
     FileProgress song 40; FileProgress song 40;
     FileProgress song 30; FileProgress song 100;
     FileDone song songOut true None]
  /\ unlinks retriedRun.2 = [songCover]
  /\ files retriedRun.2 !! songCover = None.
Proof. split; [|split]; vm_compute; reflexivity. Qed.

Lemma started_task_witness :
  onFileStart (request true) = true
  /\ exists new,
       events goodRun.2 = events freshDisk ++ new
       /\ forall c,
            c ∈ candidatesOf (demoPlatform [] goodEnv) (files freshDisk) [song] ->
            tracedBy (demoPlatform [] goodEnv) (request true)
              (length (candidatesOf (demoPlatform [] goodEnv)
                         (files freshDisk) [song]))
              c (eventsFor c new).
Proof.
  split; [reflexivity|].
  exact (proj2 (TaskFacts.started_task_emits_start_progress_done
                  (demoPlatform [] goodEnv) (request true)
                  eq_refl eq_refl eq_refl) [song] freshDisk).
Defined.

(** C2 fails on the code.  The frame extracted as a cover for [song] is
    written to a temporary file; every encode fails, the task ends in
    failure, and the temporary file is still on disk afterwards: the run
    unlinks nothing. *)
Theorem failed_task_leaves_temp_cover_on_disk :
  failedRun.1
  = Ok [failedResult song songOut (js "FFmpeg error: Conversion failed!")]
  /\ files failedRun.2 !! songCover = Some coverFile
  /\ unlinks failedRun.2 = []
  /\ files freshDisk !! songCover = None.
Proof. split; [|split; [|split]]; vm_compute; reflexivity. Qed.

(** On success the same cover is unlinked, once. *)
Example good_run_removes_temp_cover :
  goodRun.1 = Ok [doneResult song songOut]
  /\ files goodRun.2 !! songCover = None
  /\ unlinks goodRun.2 = [songCover]
  /\ files goodRun.2 !! songOut = Some encodedFile.
Proof. split; [|split; [|split]]; vm_compute; reflexivity. Qed.

Lemma skip_existing_output_witness :
  overwrite (request true) = false
  /\ is_Some (files convertedDisk
                !! outputOf (demoPlatform [] goodEnv) (request true) song)
  /\ calls (runTask (demoPlatform [] goodEnv) (request true) emptyRange 1 song
              convertedDisk).2 = calls convertedDisk
  /\ (convertPaths (demoPlatform [] goodEnv) (request true) [song] goodRun.2).1
     = Ok [doneResult song songOut].
Proof.
  assert (Hex : is_Some (files convertedDisk
                  !! outputOf (demoPlatform [] goodEnv) (request true) song)).
  { vm_compute. eexists. reflexivity. }
  split; [reflexivity|]. split; [exact Hex|]. split.
  - exact (proj1 (proj2 (proj1 (TaskFacts.skip_existing_output_is_a_noop
                                  (demoPlatform [] goodEnv) (request true))
                           emptyRange 1%nat song convertedDisk eq_refl Hex))).
  - refine (proj1 (proj2 (proj2 (TaskFacts.skip_existing_output_is_a_noop
                                   (demoPlatform [] goodEnv) (request true)))
                     [song] emptyRange freshDisk eq_refl eq_refl eq_refl
                     _ _ _ _)).
    + intros c _ i _. vm_compute. eexists. reflexivity.
    + intros c c' Hc Hc'.
      assert (Hone : forall x,
                x ∈ candidatesOf (demoPlatform [] goodEnv) (files freshDisk)
                      [song] -> x = song).
      { intros x Hx. vm_compute in Hx. apply list_elem_of_In in Hx.
        simpl in Hx. destruct Hx as [<-|[]]. reflexivity. }
      rewrite (Hone c Hc), (Hone c' Hc').
      split; vm_compute; discriminate.
    + eexists. split; [vm_compute; reflexivity|].
      repeat constructor.
    + vm_compute. reflexivity.
Defined.

(** The file modified in 2022 is still the one on disk after two runs. *)
Example skipped_twice_keeps_the_old_output :
  skippedRun.1 = Ok [doneResult song songOut]
  /\ (convertPaths (demoPlatform [] goodEnv) (request true) [song]
        skippedRun.2).1 = Ok [doneResult song songOut]
  /\ files (convertPaths (demoPlatform [] goodEnv) (request true) [song]
              skippedRun.2).2 !! songOut = Some oldOutput.
Proof. split; [|split]; vm_compute; reflexivity. Qed.

Lemma trim_aborts_witness :
  candidatesOf (demoPlatform [] goodEnv) (files freshDisk) [song] <> []
  /\ (convertPaths (demoPlatform [] goodEnv)
        (requestWith false (Some "abc"%string) None) [song] freshDisk).1
     = Throw trimError.
Proof.
  assert (Hcs : candidatesOf (demoPlatform [] goodEnv) (files freshDisk) [song]
                <> []).
  { vm_compute. discriminate. }
  split; [exact Hcs|].
  refine (proj1 (proj2 (proj2 (TaskFacts.trim_parses_or_aborts_before_any_task
                                 (demoPlatform [] goodEnv)
                                 (requestWith false (Some "abc"%string) None)))
                   [song] freshDisk (js "abc") eq_refl _ _ Hcs)).
  - vm_compute. discriminate.
  - left. exists (js "abc"). vm_compute. repeat split. discriminate.
Defined.

(** Without a candidate the trim string is never looked at. *)
Example bad_trim_without_candidates_is_silent :
  (convertPaths (demoPlatform [] goodEnv)
     (requestWith false (Some "abc"%string) None) [js "notes.txt"] freshDisk).1
  = Ok [].
Proof. vm_compute. reflexivity. Qed.

(** A file named twice literally and matched by two patterns is one
    candidate; the text file is none. *)
Example overlapping_inputs_resolve_once :
  candidatesOf (demoPlatform workGlobbed goodEnv) (files workDisk) workInputs
  = [js "/work/a.mp4"; js "/work/b.MKV"].
Proof. vm_compute. reflexivity. Qed.

End DemoFacts.

(** ** Facts: the matcher on the patterns that run to the end of the string *)

Module RegexFacts.
Import Regex RegexLoop Path Convert.

(** [execFrom] returns the left-most position where the pattern matches. *)
Lemma execFrom_Some r s fuel i a b c :
  execFrom r s fuel i = Some (a, b, c) ->
  matchAt r s a = Some (b, c)
  /\ (i <= a <= i + fuel)%nat
  /\ forall j, (i <= j < a)%nat -> matchAt r s j = None.
Proof.
  revert i. induction fuel as [|fuel IH]; intros i; simpl.
  - destruct (matchAt r s i) as [[e0 c0]|] eqn:Hm; [|discriminate].
    intros [= <- <- <-]. split; [exact Hm|]. split; [lia|]. intros j Hj. lia.
  - destruct (matchAt r s i) as [[e0 c0]|] eqn:Hm.
    + intros [= <- <- <-]. split; [exact Hm|]. split; [lia|].
      intros j Hj. lia.
    + intros H. apply IH in H as (Ha & Hr & Hfirst).
      split; [exact Ha|]. split; [lia|].
      intros j Hj. destruct (decide (j = i)) as [->|Hne]; [exact Hm|].
      apply Hfirst. lia.
Qed.

Lemma execFrom_None r s fuel i :
  execFrom r s fuel i = None ->
  forall j, (i <= j <= i + fuel)%nat -> matchAt r s j = None.
Proof.
  revert i. induction fuel as [|fuel IH]; intros i; simpl.
  - destruct (matchAt r s i) as [[e0 c0]|] eqn:Hm; [discriminate|].
    intros _ j Hj. replace j with i by lia. exact Hm.
  - destruct (matchAt r s i) as [[e0 c0]|] eqn:Hm; [discriminate|].
    intros H j Hj. destruct (decide (j = i)) as [->|Hne]; [exact Hm|].
    apply (IH _ H). lia.
Qed.

Lemma exec_Some r s a b c :
  exec r s = Some (a, b, c) ->
  matchAt r s a = Some (b, c)
  /\ forall j, (j < a)%nat -> matchAt r s j = None.
Proof.
  unfold exec, execAfter. simpl. intros H.
  apply execFrom_Some in H as (Ha & _ & Hfirst).
  split; [exact Ha|]. intros j Hj. apply Hfirst. lia.
Qed.

Lemma exec_None r s :
  exec r s = None -> forall j, (j <= length s)%nat -> matchAt r s j = None.
Proof.
  unfold exec, execAfter. simpl. intros H j Hj.
  apply (execFrom_None _ _ _ _ H). lia.
Qed.

Lemma m_star s greedy a i c k :
  m s (Star greedy a) i c k
  = starLoop s greedy a k (S (length s - i)) i c.
Proof. destruct greedy; reflexivity. Qed.

(** A greedy star of one class, followed by something that only succeeds
    at the end of the string, succeeds exactly when the class holds from
    here to the end. *)
Lemma star_unit_to_end s p i c (K : nat -> Caps -> MatchEnd) :
  (i <= length s)%nat ->
  m s (Star true (Unit p)) i c
    (fun j c' => if Nat.eqb j (length s) then K j c' else None)
  = if forallb p (drop i s) then K (length s) c else None.
Proof.
  intros Hi. rewrite m_star.
  generalize (S (length s - i)) (Nat.lt_succ_diag_r (length s - i)).
  intros n Hlt.
  revert i Hi Hlt. induction n as [|n IH]; intros i Hi Hlt; [lia|].
  cbn [starLoop m].
  destruct (s !! i) as [u|] eqn:Hu.
  - rewrite (drop_S _ _ _ Hu). cbn [forallb].
    apply lookup_lt_Some in Hu.
    assert (Hend : Nat.eqb i (length s) = false) by (apply Nat.eqb_neq; lia).
    destruct (p u) eqn:Hp; cbn [andb].
    + assert (Hleb : Nat.leb (S i) i = false) by (apply Nat.leb_gt; lia).
      rewrite Hleb. rewrite IH by lia.
      destruct (forallb p (drop (S i) s)).
      * destruct (K (length s) c); [reflexivity|]. by rewrite Hend.
      * by rewrite Hend.
    + by rewrite Hend.
  - apply lookup_ge_None in Hu.
    assert (i = length s) as -> by lia.
    rewrite drop_all. cbn [forallb]. by rewrite Nat.eqb_refl.
Qed.

(** [/\.[^\.]+$/] matches at [i] exactly when a period stands at [i] and
    what follows is not empty and free of periods; it then runs to the
    end. *)
Lemma matchAt_lastExtension s i :
  matchAt reLastExtension s i
  = match s !! i with
    | Some u =>
        if (u =? period)%N && negb (Nat.eqb (length (drop (S i) s)) 0)
           && forallb nonDot (drop (S i) s)
        then Some (length s, [])
        else None
    | None => None
    end.
Proof.
  unfold matchAt.
  transitivity (match s !! i with
          | Some u =>
              if eqU period u then
                match s !! S i with
                | Some v =>
                    if nonDot v then
                      m s (Star true (Unit nonDot)) (S (S i)) []
                        (fun j c' =>
                           if Nat.eqb j (length s)
                           then (fun j c' => Some (j, c')) j c' else None)
                    else None
                | None => None
                end
              else None
          | None => None
          end); [reflexivity|].
  destruct (s !! i) as [u|] eqn:Hu; [|reflexivity].
  unfold eqU. destruct (u =? period)%N; [|reflexivity]. cbn [andb].
  destruct (s !! S i) as [v|] eqn:Hv.
  - rewrite (drop_S _ _ _ Hv). cbn [length forallb Nat.eqb negb andb].
    destruct (nonDot v); [|reflexivity]. cbn [andb].
    apply lookup_lt_Some in Hv.
    rewrite (star_unit_to_end s nonDot (S (S i)) []
               (fun j c' => Some (j, c'))) by lia.
    reflexivity.
  - apply lookup_ge_None in Hv. rewrite drop_ge by lia. reflexivity.
Qed.

Lemma forallb_nonDot (e : jsstring) : forallb nonDot e = true <-> period ∉ e.
Proof.
  rewrite forallb_forall. unfold nonDot. split.
  - intros H Hin. apply list_elem_of_In, H in Hin.
    by rewrite N.eqb_refl in Hin.
  - intros H u Hu. apply negb_true_iff, N.eqb_neq. intros ->.
    by apply H, list_elem_of_In.
Qed.

(** The extension that line 182 strips is what follows the last period,
    provided something follows it. *)
Lemma strip_last_extension (x e : jsstring) :
  e <> [] -> period ∉ e ->
  replaceFirst reLastExtension [] (x ++ period :: e) = x.
Proof.
  intros He Hdot. unfold replaceFirst.
  set (s := x ++ period :: e).
  assert (Hat : matchAt reLastExtension s (length x) = Some (length s, [])).
  { rewrite matchAt_lastExtension. unfold s.
    rewrite lookup_app_r, Nat.sub_diag by lia. cbn [lookup list_lookup].
    rewrite N.eqb_refl.
    replace (drop (S (length x)) (x ++ period :: e)) with e.
    - destruct e; [done|]. cbn [length Nat.eqb negb andb].
      by apply forallb_nonDot in Hdot as ->.
    - replace (S (length x)) with (length x + 1)%nat by lia.
      by rewrite <- drop_drop, drop_app_length. }
  destruct (exec reLastExtension s) as [[[a b] c]|] eqn:Hex.
  - apply exec_Some in Hex as [Ha Hfirst].
    destruct (Nat.lt_trichotomy a (length x)) as [Hlt|[->|Hgt]].
    + exfalso. rewrite matchAt_lastExtension in Ha.
      destruct (s !! a) as [u|] eqn:Hu; [|discriminate].
      destruct ((u =? period)%N
                && negb (Nat.eqb (length (drop (S a) s)) 0)
                && forallb nonDot (drop (S a) s)) eqn:Hc; [|discriminate].
      apply andb_true_iff in Hc as [_ Hc]. apply forallb_nonDot in Hc.
      apply Hc, list_elem_of_lookup. exists (length x - S a)%nat.
      rewrite lookup_drop. unfold s.
      replace (S a + (length x - S a))%nat with (length x) by lia.
      by rewrite lookup_app_r, Nat.sub_diag by lia.
    + rewrite Hat in Ha. injection Ha as <- <-.
      unfold s. rewrite take_app_length, drop_all. by rewrite app_nil_r.
    + rewrite (Hfirst (length x)) in Hat by lia. discriminate.
  - apply exec_None with (j := length x) in Hex.
    + rewrite Hat in Hex. discriminate.
    + unfold s. rewrite length_app. lia.
Qed.

(** Without such an extension the name is kept whole. *)
Lemma keep_without_extension (s : jsstring) :
  (forall x e, s = x ++ period :: e -> e = [] \/ period ∈ e) ->
  replaceFirst reLastExtension [] s = s.
Proof.
  intros Hno. unfold replaceFirst.
  destruct (exec reLastExtension s) as [[[a b] c]|] eqn:Hex; [|reflexivity].
  exfalso. apply exec_Some in Hex as [Ha _].
  rewrite matchAt_lastExtension in Ha.
  destruct (s !! a) as [u|] eqn:Hu; [|discriminate].
  destruct (u =? period)%N eqn:Hp; [|discriminate]. apply N.eqb_eq in Hp.
  subst u. cbn [andb] in Ha.
  destruct (negb (Nat.eqb (length (drop (S a) s)) 0)) eqn:Hlen;
    [|discriminate]. cbn [andb] in Ha.
  destruct (forallb nonDot (drop (S a) s)) eqn:Hnd; [|discriminate].
  apply forallb_nonDot in Hnd.
  destruct (Hno (take a s) (drop (S a) s)) as [He|He].
  - rewrite <- (take_drop a s) at 1. f_equal. by apply drop_S.
  - rewrite He in Hlen. discriminate.
  - done.
Qed.

End RegexFacts.

(** ** Facts: base name, extension and the name of the output file *)

Module NameFacts.
Import Regex RegexLoop Path Convert Spec.

Lemma lastIndexOfFrom_Some (pat s : jsstring) (i j : nat) :
  lastIndexOfFrom pat s i = Some j ->
  (i <= j)%nat /\ isPrefix pat (drop (j - i) s) = true.
Proof.
  revert i. induction s as [|c s IH]; intros i; simpl.
  - destruct (isPrefix pat []) eqn:Hp; [|discriminate].
    intros [= <-]. rewrite Nat.sub_diag. by split.
  - destruct (lastIndexOfFrom pat s (S i)) as [k|] eqn:Hk.
    + intros [= <-]. apply IH in Hk as [Hle Hp]. split; [lia|].
      replace (k - i)%nat with (S (k - S i)) by lia. exact Hp.
    + destruct (isPrefix pat (c :: s)) eqn:Hp; [|discriminate].
      intros [= <-]. rewrite Nat.sub_diag. by split.
Qed.

Lemma isPrefix_unit_drop (u : N) (s : jsstring) (d : nat) :
  isPrefix [u] (drop d s) = true -> s !! d = Some u.
Proof.
  intros H. apply TemplateFacts.isPrefix_true in H as [r Hr].
  rewrite <- (take_drop d s), Hr.
  assert (Hd : (d <= length s)%nat).
  { destruct (decide (d <= length s)%nat); [done|].
    rewrite drop_ge in Hr by lia. discriminate. }
  rewrite lookup_app_r; rewrite length_take, Nat.min_l by lia; [|lia].
  by rewrite Nat.sub_diag.
Qed.

Lemma length_takeComponent (s : jsstring) :
  (length (takeComponent s) <= length s)%nat.
Proof.
  induction s as [|c s IH]; simpl; [lia|].
  destruct (c =? slash)%N; simpl; lia.
Qed.

Lemma length_dropSlashes (s : jsstring) :
  (length (dropSlashes s) <= length s)%nat.
Proof.
  induction s as [|c s IH]; simpl; [lia|].
  destruct (c =? slash)%N; simpl; lia.
Qed.

Lemma length_lastComponent (p : jsstring) :
  (length (lastComponent p) <= length p)%nat.
Proof.
  unfold lastComponent. rewrite length_rev.
  etransitivity; [apply length_takeComponent|].
  etransitivity; [apply length_dropSlashes|]. by rewrite length_rev.
Qed.

(** [extname] is empty or is the last component from one of its periods
    on, and that period is not its first character. *)
Lemma extname_shape (p : jsstring) :
  extname p = []
  \/ exists d, (0 < d < length (lastComponent p))%nat
               /\ extname p = drop d (lastComponent p)
               /\ lastComponent p !! d = Some period.
Proof.
  unfold extname.
  destruct (lastIndexOf (lastComponent p) [period]) as [[|d]|] eqn:Hl;
    [by left..| |by left].
  destruct (eqs _ _); [by left|]. right. exists (S d).
  apply lastIndexOfFrom_Some in Hl as [_ Hp].
  rewrite Nat.sub_0_r in Hp. apply isPrefix_unit_drop in Hp.
  split; [|by split].
  apply lookup_lt_Some in Hp. lia.
Qed.

(** X1. The base name and the extension split the last component of the
    path: nothing of the file name is lost and nothing is kept twice. *)
Theorem basename_and_extname_split_the_name (input : jsstring) :
  Task.baseOf input ++ extname input = lastComponent input.
Proof.
  unfold Task.baseOf, basename.
  destruct (extname_shape input) as [->|(d & Hd & He & Hdot)].
  { simpl. by rewrite app_nil_r. }
  set (c := lastComponent input) in *.
  assert (Hlen : length (extname input) = (length c - d)%nat).
  { rewrite He. by rewrite length_drop. }
  assert (Hc : (length c <= length input)%nat)
    by apply length_lastComponent.
  assert (Ht : truthy (extname input) = true).
  { destruct (extname input); [simpl in Hlen; lia|done]. }
  rewrite Ht. cbn [andb].
  rewrite (proj2 (Nat.leb_le _ _)) by lia.
  unfold eqs.
  rewrite bool_decide_eq_false_2.
  2: { intros E. rewrite E in Hlen. lia. }
  assert (Hs : isSuffix (extname input) c = true).
  { unfold isSuffix. apply TemplateFacts.isPrefix_true.
    exists (rev (take d c)). rewrite He, <- rev_app_distr.
    by rewrite take_drop. }
  rewrite Hs. rewrite bool_decide_eq_false_2.
  2: { intros E. rewrite E in Hlen. lia. }
  cbn [negb andb]. rewrite Hlen.
  replace (length c - (length c - d))%nat with d by lia.
  rewrite He. apply take_drop.
Qed.

Lemma indexOfFrom_absent (u : N) (t s : jsstring) (i : nat) :
  u ∉ s -> indexOfFrom (u :: t) s i = None.
Proof.
  revert i. induction s as [|c s IH]; intros i Hu; [reflexivity|].
  apply not_elem_of_cons in Hu as [Hc Hs]. simpl.
  rewrite (proj2 (N.eqb_neq u c)) by done. simpl. by apply IH.
Qed.

Lemma replace_absent (u : N) (t s rep : jsstring) :
  u ∉ s -> JS.replace s (u :: t) rep = s.
Proof.
  intros Hu. unfold JS.replace, indexOf. by rewrite indexOfFrom_absent.
Qed.

Lemma js_mp3_plain (base : jsstring) :
  123%N ∉ base -> 123%N ∉ base ++ js ".mp3".
Proof.
  intros Hb. rewrite elem_of_app. intros [?|H]; [done|].
  apply list_elem_of_In in H. vm_compute in H.
  repeat destruct H as [H|H]; try discriminate. done.
Qed.

(** The default template with a plain base name expands to the base name
    followed by [.mp3]. *)
Lemma expandTemplate_default (input : jsstring)
    (bitrateKbps vbrLevel : option Z) :
  36%N ∉ Task.baseOf input -> 123%N ∉ Task.baseOf input ->
  expandTemplate None input bitrateKbps vbrLevel
  = Task.baseOf input ++ js ".mp3".
Proof.
  intros Hd Hb. unfold expandTemplate. fold (Task.baseOf input).
  assert (H1 : JS.replace defaultTemplate (js "{basename}") (Task.baseOf input)
               = Task.baseOf input ++ js ".mp3").
  { unfold JS.replace. change (indexOf defaultTemplate (js "{basename}"))
      with (Some 0%nat).
    cbn [take app]. rewrite TemplateFacts.getSubstitution_plain by done.
    reflexivity. }
  rewrite H1.
  change (js "{ext}") with (123%N :: js "ext}").
  change (js "{bitrate}") with (123%N :: js "bitrate}").
  change (js "{vbr}") with (123%N :: js "vbr}").
  rewrite !(replace_absent 123%N _ (Task.baseOf input ++ js ".mp3"))
    by auto using js_mp3_plain.
  reflexivity.
Qed.

Lemma mp3_has_no_period : period ∉ js "mp3".
Proof.
  intros H. apply list_elem_of_In in H. vm_compute in H.
  repeat destruct H as [H|H]; try discriminate. done.
Qed.

(** What is left of the expanded default template once its extension is
    stripped. *)
Lemma default_name_before_extension (input : jsstring)
    (bitrateKbps vbrLevel : option Z) :
  36%N ∉ Task.baseOf input -> 123%N ∉ Task.baseOf input ->
  replaceFirst reLastExtension []
    (expandTemplate None input bitrateKbps vbrLevel)
  = Task.baseOf input.
Proof.
  intros Hd Hb. rewrite expandTemplate_default by done.
  change (js ".mp3") with (period :: js "mp3").
  apply RegexFacts.strip_last_extension; [done|apply mp3_has_no_period].
Qed.

(** X2. With the default template, a file whose base name holds neither a
    dollar sign nor an opening brace is named after that base name, with the
    extension of the output format. *)
Theorem default_template_names_output_after_base
    (format : option jsstring) (input : jsstring)
    (bitrateKbps vbrLevel : option Z) :
  36%N ∉ Task.baseOf input -> 123%N ∉ Task.baseOf input ->
  outputFileName None format input bitrateKbps vbrLevel
  = Task.baseOf input ++ extOut format.
Proof.
  intros Hd Hb. unfold outputFileName.
  by rewrite default_name_before_extension.
Qed.

Lemma default_template_witness :
  outputFileName None (Some (js "flac")) (js "/music/My Song.v2.mp4")
    (Some 192) None
  = js "My Song.v2.flac".
Proof.
  rewrite default_template_names_output_after_base.
  - reflexivity.
  - intros H. apply list_elem_of_In in H. vm_compute in H.
    repeat destruct H as [H|H]; try discriminate. done.
  - intros H. apply list_elem_of_In in H. vm_compute in H.
    repeat destruct H as [H|H]; try discriminate. done.
Defined.

(** X3. The preview of the desktop shell shows, for the default template and
    such a base name, the name the converter gives the MP3. *)
Theorem preview_matches_output_for_default_template
    (input : jsstring) (bitrateKbps vbrLevel : option Z) :
  36%N ∉ Task.baseOf input -> 123%N ∉ Task.baseOf input ->
  Gui.previewName None input bitrateKbps vbrLevel
  = outputFileName None None input bitrateKbps vbrLevel.
Proof.
  intros Hd Hb. unfold outputFileName.
  rewrite default_name_before_extension by done.
  unfold Gui.previewName. fold (Task.baseOf input).
  assert (H1 : JS.replace defaultTemplate (js "{basename}") (Task.baseOf input)
               = Task.baseOf input ++ js ".mp3").
  { unfold JS.replace. change (indexOf defaultTemplate (js "{basename}"))
      with (Some 0%nat).
    cbn [take app]. rewrite TemplateFacts.getSubstitution_plain by done.
    reflexivity. }
  rewrite H1.
  change (js "{ext}") with (123%N :: js "ext}").
  change (js "{bitrate}") with (123%N :: js "bitrate}").
  change (js "{vbr}") with (123%N :: js "vbr}").
  rewrite (replace_absent 123%N _ (Task.baseOf input ++ js ".mp3"))
    by auto using js_mp3_plain.
  destruct (Gui.shownNumber bitrateKbps), (Gui.shownNumber vbrLevel);
    rewrite ?(replace_absent 123%N _ (Task.baseOf input ++ js ".mp3"))
      by auto using js_mp3_plain;
    reflexivity.
Qed.

End NameFacts.

(** ** Facts: the converter's input checks, tag collection and command *)

Module BackendFacts.
Import Regex RegexLoop Path Num Convert Ffmpeg Backend.

(** *** [isAscii] and [getShortPathIfAscii] *)

Lemma matchAt_reAscii (s : jsstring) (i : nat) :
  matchAt reAscii s i
  = if Nat.eqb i 0
    then if forallb (fun u => (u <=? 127)%N) s then Some (length s, [])
         else None
    else None.
Proof.
  unfold matchAt.
  transitivity
    (if Nat.eqb i 0
     then m s (Star true (Unit (fun u => (u <=? 127)%N))) i []
            (fun j c' =>
               if Nat.eqb j (length s)
               then (fun j c' => Some (j, c')) j c' else None)
     else None); [reflexivity|].
  destruct i as [|i]; [|reflexivity]. cbn [Nat.eqb].
  rewrite RegexFacts.star_unit_to_end by lia. by rewrite drop_0.
Qed.

Lemma isAscii_forallb (str : jsstring) :
  isAscii str = forallb (fun u => (u <=? 127)%N) str.
Proof.
  unfold isAscii, test.
  destruct (exec reAscii str) as [[[a b] c]|] eqn:Hex.
  - apply RegexFacts.exec_Some in Hex as [Ha _].
    rewrite matchAt_reAscii in Ha.
    destruct (Nat.eqb a 0); [|discriminate].
    by destruct (forallb _ str).
  - apply RegexFacts.exec_None with (j := 0%nat) in Hex; [|lia].
    rewrite matchAt_reAscii in Hex. cbn [Nat.eqb] in Hex.
    by destruct (forallb _ str).
Qed.

(** X4. [isAscii] holds exactly of the strings whose code units are all at
    most 127; the empty string is one of them. *)
Theorem isAscii_iff_all_units_below_128 (str : jsstring) :
  isAscii str = true <-> forall u, u ∈ str -> (u <= 127)%N.
Proof.
  rewrite isAscii_forallb, forallb_forall. split.
  - intros H u Hu. apply N.leb_le, H. by apply list_elem_of_In.
  - intros H u Hu. apply N.leb_le, H. by apply list_elem_of_In.
Qed.

Lemma eqs_true (a b : jsstring) : eqs a b = true -> a = b.
Proof. unfold eqs. apply bool_decide_eq_true_1. Qed.

(** X5. [getShortPathIfAscii] hands back the path it was given when the
    platform is not win32, when the path is not all ASCII, when the shell
    command fails and when it prints nothing but white space; in the one
    case left, win32 with an all-ASCII path and an output that is not
    blank, it returns that output, trimmed.  It never turns a path into
    the empty string. *)
Theorem short_path_only_on_win32_for_ascii_paths (platform : jsstring)
    (execSync : jsstring -> option jsstring) (p : jsstring) :
  let r := getShortPathIfAscii platform execSync p in
  let ascii := forall u, u ∈ p -> (u <= 127)%N in
  (platform <> js "win32" -> r = p)
  /\ (~ ascii -> r = p)
  /\ (platform = js "win32" -> ascii ->
      match execSync (shortPathCommand p) with
      | Some stdout =>
          (trim stdout = [] -> r = p)
          /\ (trim stdout <> [] -> r = trim stdout)
      | None => r = p
      end)
  /\ (p <> [] -> r <> [])
  /\ getShortPathIfAscii (js "win32")
       (fun _ => Some (js "  C:/MUSIC~1/SONG.MP4  "))
       (js "C:/Music Folder/song.mp4")
     = js "C:/MUSIC~1/SONG.MP4".
Proof.
  cbv zeta.
  assert (Hascii : isAscii p = true <-> forall u, u ∈ p -> (u <= 127)%N).
  { rewrite isAscii_forallb, forallb_forall. split.
    - intros H u Hu. apply N.leb_le, H. by apply list_elem_of_In.
    - intros H u Hu. apply N.leb_le, H. by apply list_elem_of_In. }
  split; [|split; [|split; [|split]]].
  - intros Hp. unfold getShortPathIfAscii, eqs.
    by rewrite bool_decide_eq_false_2.
  - intros Hno. unfold getShortPathIfAscii.
    destruct (eqs platform (js "win32")); cbn [negb]; [|done].
    destruct (isAscii p) eqn:Ha; cbn [negb]; [|done].
    exfalso. by apply Hno, Hascii.
  - intros -> Ha. apply Hascii in Ha. unfold getShortPathIfAscii, eqs.
    rewrite bool_decide_eq_true_2 by done. rewrite Ha. cbn [negb].
    destruct (execSync (shortPathCommand p)) as [stdout|]; [|done].
    destruct (trim stdout) as [|c out]; cbn [length Nat.ltb Nat.leb].
    + split; [done|]. by intros H.
    + split; [by intros H|done].
  - unfold getShortPathIfAscii.
    destruct (eqs platform (js "win32")); cbn [negb]; [|done].
    destruct (isAscii p); cbn [negb]; [|done].
    destruct (execSync (shortPathCommand p)) as [stdout|]; [|done].
    destruct (Nat.ltb 0 (length (trim stdout))) eqn:Hl; [|done].
    intros _ E. rewrite E in Hl. discriminate.
  - vm_compute. reflexivity.
Qed.

(** *** [probeTags] *)

Lemma collectTags_concat (candidates : list TagEntries) :
  collectTags candidates = fold_left addEntry (concat candidates) ∅.
Proof.
  unfold collectTags. generalize (∅ : gmap jsstring jsstring).
  induction candidates as [|t ts IH]; intros tags; simpl; [done|].
  by rewrite fold_left_app, IH.
Qed.

Lemma addEntry_sound (tags : gmap jsstring jsstring) (e : jsstring * TagValue)
    (k v : jsstring) :
  addEntry tags e !! k = Some v ->
  tags !! k = Some v
  \/ (e.2 = TagString v /\ toLowerCase e.1 = k /\ inherited k = false).
Proof.
  unfold addEntry. destruct e as [k0 [v0|]]; simpl; [|by left].
  destruct (hasTag tags (toLowerCase k0)) eqn:Hh; [by left|].
  destruct (decide (toLowerCase k0 = k)) as [<-|Hne].
  - rewrite lookup_insert_eq. intros [= ->]. right.
    split; [done|]. split; [done|].
    unfold hasTag in Hh. by apply orb_false_iff in Hh as [? _].
  - rewrite lookup_insert_ne by done. by left.
Qed.

Lemma fold_addEntry_sound (l : TagEntries) (tags : gmap jsstring jsstring)
    (k v : jsstring) :
  fold_left addEntry l tags !! k = Some v ->
  tags !! k = Some v
  \/ exists k0, (k0, TagString v) ∈ l /\ toLowerCase k0 = k
                /\ inherited k = false.
Proof.
  revert tags. induction l as [|e l IH]; intros tags; simpl; [by left|].
  intros H. apply IH in H as [H|(k0 & Hin & Hk & Hi)].
  - apply addEntry_sound in H as [H|(He & Hk & Hi)]; [by left|].
    right. exists e.1. split; [|done]. rewrite <- He.
    destruct e. by left.
  - right. exists k0. split; [by right|done].
Qed.

Lemma fold_addEntry_keep (l : TagEntries) (tags : gmap jsstring jsstring)
    (k v : jsstring) :
  tags !! k = Some v -> truthy v = true ->
  fold_left addEntry l tags !! k = Some v.
Proof.
  revert tags. induction l as [|e l IH]; intros tags Hk Hv; simpl; [done|].
  apply IH; [|done]. unfold addEntry. destruct e as [k0 [v0|]]; simpl; [|done].
  destruct (hasTag tags (toLowerCase k0)) eqn:Hh; [done|].
  destruct (decide (toLowerCase k0 = k)) as [E|Hne].
  - exfalso. unfold hasTag in Hh. rewrite E, Hk, Hv in Hh.
    by rewrite orb_true_r in Hh.
  - by rewrite lookup_insert_ne.
Qed.

(** X6. The tags [probeTags] resolves with are taken from the container:
    every value is a string value of some format or stream tag whose name is
    the key once lower-cased. The names [constructor] and [__proto__] are
    never among the keys. *)
Theorem probed_tags_come_from_the_container (input : jsstring)
    (stat : StatOutcome) (data : ProbeData)
    (tags : gmap jsstring jsstring) (idx : option nat) (k v : jsstring) :
  probeTags input stat (FfprobeData data) = Ok (tags, idx) ->
  tags !! k = Some v ->
  (exists entries k0,
      entries ∈ tagCandidates data /\ (k0, TagString v) ∈ entries
      /\ toLowerCase k0 = k)
  /\ k <> js "constructor" /\ k <> js "__proto__".
Proof.
  unfold probeTags. destruct (checkInput stat input); [|discriminate].
  intros [= <- _]. rewrite collectTags_concat. intros H.
  apply fold_addEntry_sound in H as [H|(k0 & Hin & Hk & Hi)];
    [by rewrite lookup_empty in H|].
  split.
  - apply list_elem_of_In, in_concat in Hin as (entries & He & Hin).
    exists entries, k0. by rewrite <- !list_elem_of_In in *.
  - unfold inherited in Hi. apply orb_false_iff in Hi as [H1 H2].
    unfold eqs in H1, H2.
    split; intros ->; by rewrite bool_decide_eq_true_2 in *.
Qed.

Lemma probed_tags_witness :
  (exists entries k0,
      entries ∈ [[(js "TITLE", TagString (js "One More Time"))]; []]
      /\ (k0, TagString (js "One More Time")) ∈ entries
      /\ toLowerCase k0 = js "title")
  /\ js "title" <> js "constructor" /\ js "title" <> js "__proto__".
Proof.
  apply (probed_tags_come_from_the_container (js "/music/song.mp4")
           (StatSize 10)
           {| formatTags := Some [(js "TITLE", TagString (js "One More Time"))];
              streams :=
                Some [{| streamTags := None; attachedPic := false |}] |}
           {[ js "title" := js "One More Time" ]} None).
  - vm_compute. reflexivity.
  - vm_compute. reflexivity.
Defined.

(** X7. For each lower-cased name the first string value that is not empty
    wins, format tags before stream tags; later values do not replace it. *)
Theorem first_nonempty_tag_value_wins (input : jsstring)
    (stat : StatOutcome) (data : ProbeData)
    (tags : gmap jsstring jsstring) (idx : option nat)
    (before after : TagEntries) (k0 v : jsstring) :
  probeTags input stat (FfprobeData data) = Ok (tags, idx) ->
  concat (tagCandidates data) = before ++ (k0, TagString v) :: after ->
  truthy v = true ->
  inherited (toLowerCase k0) = false ->
  (forall k1 v1, (k1, TagString v1) ∈ before ->
                 toLowerCase k1 = toLowerCase k0 -> v1 = []) ->
  tags !! toLowerCase k0 = Some v.
Proof.
  unfold probeTags. destruct (checkInput stat input); [|discriminate].
  intros [= <- _] Hsplit Hv Hi Hbefore.
  rewrite collectTags_concat, Hsplit, fold_left_app. cbn [fold_left].
  apply fold_addEntry_keep; [|done].
  change (addEntry (fold_left addEntry before ∅) (k0, TagString v))
    with (if hasTag (fold_left addEntry before ∅) (toLowerCase k0)
          then fold_left addEntry before ∅
          else <[toLowerCase k0 := v]> (fold_left addEntry before ∅)).
  assert (Hh : hasTag (fold_left addEntry before ∅) (toLowerCase k0) = false).
  { unfold hasTag. rewrite Hi. cbn [orb].
    destruct (fold_left addEntry before ∅ !! toLowerCase k0) as [x|] eqn:Hx;
      [|done].
    apply fold_addEntry_sound in Hx as [Hx|(k1 & Hin & Hk & _)];
      [by rewrite lookup_empty in Hx|].
    by rewrite (Hbefore k1 x Hin Hk). }
  rewrite Hh. apply lookup_insert_eq.
Qed.

Lemma first_nonempty_tag_witness :
  ({[ js "title" := js "One More Time" ]} : gmap jsstring jsstring)
    !! toLowerCase (js "Title") = Some (js "One More Time").
Proof.
  apply (first_nonempty_tag_value_wins (js "/music/song.mp4") (StatSize 10)
           {| formatTags := Some [(js "TITLE", TagString []);
                                  (js "Title", TagString (js "One More Time"))];
              streams := Some [{| streamTags :=
                                    Some [(js "title", TagString (js "Other"))];
                                  attachedPic := false |}] |}
           {[ js "title" := js "One More Time" ]} None
           [(js "TITLE", TagString [])]
           [(js "title", TagString (js "Other"))]).
  - vm_compute. reflexivity.
  - reflexivity.
  - reflexivity.
  - reflexivity.
  - intros k1 v1 Hin _. apply list_elem_of_singleton in Hin. congruence.
Defined.

Lemma firstAttachedPic_spec (ss : list Stream) (n i : nat) :
  firstAttachedPic ss n = Some i <->
  exists j s, i = (n + j)%nat /\ ss !! j = Some s /\ attachedPic s = true
              /\ forall j' s', (j' < j)%nat -> ss !! j' = Some s' ->
                               attachedPic s' = false.
Proof.
  revert n. induction ss as [|s ss IH]; intros n; simpl.
  - split; [discriminate|]. by intros (j & s & _ & H & _).
  - destruct (attachedPic s) eqn:Hs.
    + split.
      * intros [= <-]. exists 0%nat, s. split; [lia|]. split; [done|].
        split; [done|]. intros j' s' Hj. lia.
      * intros (j & s0 & -> & Hj & Hp & Hfirst). destruct j as [|j].
        -- f_equal. lia.
        -- specialize (Hfirst 0%nat s ltac:(lia) eq_refl). congruence.
    + rewrite IH. split.
      * intros (j & s0 & -> & Hj & Hp & Hfirst). exists (S j), s0.
        split; [lia|]. split; [done|]. split; [done|].
        intros [|j'] s' Hlt Hl; simpl in Hl; [congruence|].
        apply (Hfirst j' s'); [lia|done].
      * intros (j & s0 & -> & Hj & Hp & Hfirst). destruct j as [|j].
        -- simpl in Hj. congruence.
        -- exists j, s0. split; [lia|]. split; [done|]. split; [done|].
           intros j' s' Hlt Hl. apply (Hfirst (S j') s'); [lia|done].
Qed.

Lemma firstAttachedPic_None (ss : list Stream) (n : nat) :
  firstAttachedPic ss n = None -> forall s, s ∈ ss -> attachedPic s = false.
Proof.
  revert n. induction ss as [|s0 ss IH]; intros n; simpl.
  - intros _ s Hs. by apply elem_of_nil in Hs.
  - destruct (attachedPic s0) eqn:H0; [discriminate|].
    intros H s Hs. apply elem_of_cons in Hs as [->|Hs]; [done|].
    by apply (IH _ H).
Qed.

(** X8. The stream index [probeTags] reports for the attached picture is
    that of the first stream marked as one; it is absent exactly when no
    stream is marked. *)
Theorem attached_picture_is_the_first_marked_stream (input : jsstring)
    (stat : StatOutcome) (data : ProbeData)
    (tags : gmap jsstring jsstring) (idx : option nat) :
  probeTags input stat (FfprobeData data) = Ok (tags, idx) ->
  let ss := default [] (streams data) in
  match idx with
  | Some i =>
      (exists s, ss !! i = Some s /\ attachedPic s = true)
      /\ forall j s, (j < i)%nat -> ss !! j = Some s -> attachedPic s = false
  | None => forall s, s ∈ ss -> attachedPic s = false
  end.
Proof.
  unfold probeTags. destruct (checkInput stat input); [|discriminate].
  intros [= _ <-]. cbv zeta.
  destruct (firstAttachedPic _ 0) as [i|] eqn:Hf.
  - apply firstAttachedPic_spec in Hf as (j & s & -> & Hj & Hp & Hfirst).
    simpl. split; [by exists s|done].
  - intros s Hs. by apply (firstAttachedPic_None _ _ Hf).
Qed.

Lemma attached_picture_witness :
  (exists s, [ {| streamTags := None; attachedPic := false |};
               {| streamTags := None; attachedPic := true |} ] !! 1%nat = Some s
             /\ attachedPic s = true)
  /\ forall j s, (j < 1)%nat ->
       [ {| streamTags := None; attachedPic := false |};
         {| streamTags := None; attachedPic := true |} ] !! j = Some s ->
       attachedPic s = false.
Proof.
  apply (attached_picture_is_the_first_marked_stream (js "/music/song.mp4")
           (StatSize 10)
           {| formatTags := None;
              streams :=
                Some [ {| streamTags := None; attachedPic := false |};
                       {| streamTags := None; attachedPic := true |} ] |}
           ∅ (Some 1%nat)).
  vm_compute. reflexivity.
Defined.

(** *** [toMp3] *)

Section ToMp3.

Variable resolvedShort : jsstring -> jsstring.
Variable short : jsstring -> jsstring.
Variable JSONparse : jsstring -> option (gmap jsstring JVal).

Lemma checkInput_Ok (stat : StatOutcome) (input : jsstring) :
  (exists u, checkInput stat input = Ok u)
  <-> exists size, stat = StatSize size /\ size <> 0.
Proof.
  unfold checkInput. destruct stat as [size|message].
  - destruct (size =? 0) eqn:Hs.
    + apply Z.eqb_eq in Hs. split; [by intros [u ?]|].
      intros (size' & [= <-] & Hne). done.
    + apply Z.eqb_neq in Hs. split; [|by eexists].
      intros _. by exists size.
  - split; [|by intros (size & ? & _)].
    intros [u Hu]. by destruct (includesText _ _).
Qed.

Lemma pass2Filter_Ok (loudnorm : bool) (lines : list jsstring)
    (ended : ProcessEnd) :
  (exists f, pass2Filter JSONparse loudnorm lines ended = Ok f)
  <-> (loudnorm = true -> ended = OnEnd).
Proof.
  unfold pass2Filter. destruct loudnorm.
  - destruct ended as [|message].
    + destruct (LoudnessFacts.measureLoudness_never_throws_on_end
                  JSONparse lines) as [stats ->].
      split; [done|]. intros _. by eexists.
    + simpl. split; [by intros [f ?]|]. intros H. by specialize (H eq_refl).
  - split; [done|]. intros _. by eexists.
Qed.

(** X9. [toMp3] resolves exactly when the input is a file that is not empty,
    the measuring pass, if normalization is on, has ended, and the encode
    has ended. *)
Theorem toMp3_resolves_iff (o : ToMp3Options) (stat : StatOutcome)
    (measured : list jsstring * ProcessEnd) (encoded : ProcessEnd) :
  (toMp3 resolvedShort short JSONparse o stat measured encoded).2 = Ok tt
  <-> (exists size, stat = StatSize size /\ size <> 0)
      /\ (optLoudnorm o = true -> measured.2 = OnEnd)
      /\ encoded = OnEnd.
Proof.
  unfold toMp3.
  pose proof (checkInput_Ok stat (optInput o)) as Hc.
  pose proof (pass2Filter_Ok (optLoudnorm o) measured.1 measured.2) as Hp.
  destruct (checkInput stat (optInput o)) as [[]|e].
  - destruct (pass2Filter _ _ _ _) as [f|e]; cbn [snd].
    + destruct encoded as [|message].
      * split; [|done]. intros _. split; [apply Hc; by eexists|].
        split; [apply Hp; by eexists|done].
      * split; [done|]. by intros (_ & _ & ?).
    + split; [done|]. intros (_ & Hm & _).
      apply Hp in Hm as [f Hf]. discriminate.
  - cbn [snd]. split; [done|]. intros (Hs & _).
    apply Hc in Hs as [u Hu]. discriminate.
Qed.

(** X10. No engine process is started for an input that is missing or empty,
    and no encode is started after a measuring pass that failed; an encode,
    when there is one, is the last process and the only encode. *)
Theorem toMp3_starts_the_encode_last_or_not_at_all (o : ToMp3Options)
    (stat : StatOutcome) (measured : list jsstring * ProcessEnd)
    (encoded : ProcessEnd) :
  let started :=
    (toMp3 resolvedShort short JSONparse o stat measured encoded).1 in
  ((forall size, stat = StatSize size -> size = 0) -> started = [])
  /\ ((exists message, optLoudnorm o = true
                       /\ measured.2 = OnError message) ->
      forall command, Encode command ∉ started)
  /\ (forall command i, started !! i = Some (Encode command) ->
        S i = length started
        /\ command = buildCommand resolvedShort short o
                       (if optLoudnorm o
                        then match measureLoudness JSONparse measured.1
                                     measured.2 with
                             | Ok stats => Some (loudnormFilter stats)
                             | Throw _ => None
                             end
                        else None)).
Proof.
  cbv zeta. unfold toMp3.
  pose proof (checkInput_Ok stat (optInput o)) as Hc.
  destruct (checkInput stat (optInput o)) as [[]|e].
  2: { cbn [fst]. split; [done|]. split.
       - intros _ command H. by apply elem_of_nil in H.
       - intros command i H. by rewrite lookup_nil in H. }
  assert (Hs : exists size, stat = StatSize size /\ size <> 0)
    by (apply Hc; by eexists).
  destruct Hs as (size & -> & Hsize).
  split; [intros H; by specialize (H size eq_refl)|].
  unfold pass2Filter.
  destruct (optLoudnorm o) eqn:Hl.
  - destruct (measureLoudness JSONparse measured.1 measured.2)
      as [stats|message] eqn:Hm; cbn [fst].
    + split.
      * intros (message & _ & Hend). rewrite Hend in Hm. discriminate.
      * intros command [|[|i]] H; simpl in H; try discriminate.
        injection H as <-. by split.
    + split.
      * intros _ command H. apply list_elem_of_singleton in H. discriminate.
      * intros command [|i] H; simpl in H; discriminate.
  - cbn [fst app]. split.
    + intros (message & H & _). discriminate.
    + intros command [|i] H; simpl in H; [|discriminate].
      injection H as <-. by split.
Qed.

(** X30. The encode always uses the variable quality when a VBR level is
    given, clamped to 0..9, whatever the bitrate option says; otherwise a
    constant bitrate of at least 32k, 192k when none is given. *)
Theorem encode_audio_setting_is_clamped (o : ToMp3Options)
    (filter : option jsstring) :
  match cmdAudio (buildCommand resolvedShort short o filter) with
  | AudioQuality q =>
      0 <= q <= 9
      /\ exists v, optVbrLevel o = Some v /\ (0 <= v <= 9 -> q = v)
  | AudioBitrate text =>
      optVbrLevel o = None
      /\ exists b, text = StringOfZ b ++ js "k" /\ 32 <= b
                   /\ (forall x, optBitrateKbps o = Some x ->
                                 b = Z.max 32 x)
                   /\ (optBitrateKbps o = None -> b = 192)
  end.
Proof.
  unfold buildCommand, audioSetting. cbn [cmdAudio].
  destruct (optVbrLevel o) as [v|].
  - split; [lia|]. exists v. split; [done|]. lia.
  - destruct (optBitrateKbps o) as [x|].
    + split; [done|]. exists (Z.max 32 x). split; [done|].
      split; [lia|]. split; [|done]. by intros ? [= <-].
    + split; [done|]. exists 192. split; [reflexivity|].
      split; [lia|]. split; [|done]. by intros ? [= ].
Qed.

End ToMp3.

(** *** The tags that reach the encoder *)

(** X11. Without [preferDetected], what the user gave for a tag decides the
    tag option of the encode: a value that is not empty is written as
    [key=value]; an empty one leaves the tag out, even when one was detected
    for it. *)
Theorem user_tag_decides_the_written_tag (key : string)
    (autoTags fileNameTags manual : gmap jsstring jsstring)
    (coverPath : option jsstring) (v : jsstring) :
  js key ∈ Task.metadataKeys ->
  manual !! js key = Some v ->
  tagOption (Task.mergeMetadata false autoTags fileNameTags manual coverPath)
    key
  = if truthy v then [js "-metadata"; js key ++ js "=" ++ v] else [].
Proof.
  intros Hk Hv. unfold tagOption.
  rewrite MetadataFacts.merged_key by done. rewrite Hv. reflexivity.
Qed.

Lemma user_tag_witness :
  tagOption (Task.mergeMetadata false {[ js "title" := js "probed title" ]} ∅
               {[ js "title" := [] ]} None) "title"
  = [].
Proof.
  apply (user_tag_decides_the_written_tag "title"
           {[ js "title" := js "probed title" ]} ∅ {[ js "title" := [] ]}
           None []).
  - apply list_elem_of_In. vm_compute. auto.
  - apply lookup_singleton_eq.
Defined.

End BackendFacts.

(** ** Facts: the bounds of a trim range *)

Module TrimBounds.
Import Regex Path Num Convert Ffmpeg Props.

Lemma elem_of_rev (u : N) (l : jsstring) : u ∈ rev l <-> u ∈ l.
Proof. rewrite !list_elem_of_In. symmetry. apply in_rev. Qed.

Lemma splitGo_no_separator (s cur : jsstring) :
  45%N ∉ cur ->
  Forall (fun part => 45%N ∉ part) (splitGo [45%N] s cur 0).
Proof.
  revert cur. induction s as [|c s IH]; intros cur Hcur;
    cbn [splitGo isPrefix length Nat.sub].
  - constructor; [|constructor]. by rewrite elem_of_rev.
  - rewrite andb_true_r. destruct (45 =? c)%N eqn:Hc.
    + constructor; [by rewrite elem_of_rev|].
      apply IH. apply not_elem_of_nil.
    + apply IH. apply N.eqb_neq in Hc.
      rewrite not_elem_of_cons. by split.
Qed.

Lemma trimStart_subset (u : N) (s : jsstring) : u ∈ JS.trimStart s -> u ∈ s.
Proof.
  induction s as [|c s IH]; simpl; [done|].
  destruct (isSpace c); [|done]. intros H. right. by apply IH.
Qed.

Lemma trim_subset (u : N) (s : jsstring) : u ∈ trim s -> u ∈ s.
Proof.
  unfold trim. rewrite elem_of_rev. intros H.
  apply trimStart_subset in H. rewrite elem_of_rev in H.
  by apply trimStart_subset.
Qed.

Lemma digitsValue_nonneg (base : Z) (ds : list Z) :
  0 <= base -> Forall (fun d => 0 <= d) ds -> 0 <= digitsValue base ds.
Proof.
  intros Hb. unfold digitsValue.
  assert (H : forall acc, 0 <= acc -> Forall (fun d => 0 <= d) ds ->
                          0 <= fold_left (fun acc d => acc * base + d) ds acc).
  { induction ds as [|d ds IH]; intros acc Hacc Hds; simpl; [done|].
    inversion Hds; subst. apply IH; [nia|done]. }
  by apply H.
Qed.

Lemma radixDigit_nonneg (base : Z) (c : N) (v : Z) :
  radixDigit base c = Some v -> 0 <= v.
Proof.
  unfold radixDigit, isDigit, isLower, isUpper.
  destruct ((48 <=? c)%N && (c <=? 57)%N) eqn:Hd.
  { apply andb_true_iff in Hd as [H1 _]. apply N.leb_le in H1.
    destruct (_ <? base); [|discriminate]. intros [= <-]. lia. }
  destruct ((97 <=? c)%N && (c <=? 122)%N) eqn:Hl.
  { apply andb_true_iff in Hl as [H1 _]. apply N.leb_le in H1.
    destruct (_ <? base); [|discriminate]. intros [= <-]. lia. }
  destruct ((65 <=? c)%N && (c <=? 90)%N) eqn:Hu.
  { apply andb_true_iff in Hu as [H1 _]. apply N.leb_le in H1.
    destruct (_ <? base); [|discriminate]. intros [= <-]. lia. }
  destruct (_ <? base); [|discriminate]. intros [= <-]. lia.
Qed.

Lemma mapM_radixDigit_nonneg (base : Z) (ds : jsstring) (vs : list Z) :
  mapM (radixDigit base) ds = Some vs -> Forall (fun d => 0 <= d) vs.
Proof.
  rewrite mapM_Some. intros H. induction H as [|c v ds vs Hc _ IH];
    constructor; [|done]. by apply radixDigit_nonneg in Hc.
Qed.

Lemma radixLiteral_nonneg (base : Z) (ds : jsstring) :
  0 <= base ->
  radixLiteral base ds = NaN \/ nonNegative (radixLiteral base ds).
Proof.
  intros Hb. unfold radixLiteral. destruct ds as [|d ds]; [by left|].
  destruct (mapM _ _) as [vs|] eqn:Hm; [|by left]. right.
  unfold ofZ, nonNegative. apply mapM_radixDigit_nonneg in Hm.
  pose proof (digitsValue_nonneg base vs Hb Hm) as Hv.
  unfold Qle. simpl. lia.
Qed.

Lemma spanDigits_digits (s ds r : jsstring) :
  spanDigits s = (ds, r) -> Forall (fun c => isDigit c = true) ds.
Proof.
  revert ds r. induction s as [|c s IH]; intros ds r; simpl.
  - intros [= <- <-]. constructor.
  - destruct (isDigit c) eqn:Hc.
    + destruct (spanDigits s) as [d' r'] eqn:Hs. intros [= <- <-].
      constructor; [done|]. by eapply IH.
    + intros [= <- <-]. constructor.
Qed.

Lemma decDigits_nonneg (ds : jsstring) :
  Forall (fun c => isDigit c = true) ds ->
  Forall (fun d => 0 <= d) (List.map decDigit ds).
Proof.
  intros H. induction H as [|c ds Hc _ IH]; simpl; constructor; [|done].
  unfold isDigit in Hc. apply andb_true_iff in Hc as [H1 _].
  apply N.leb_le in H1. unfold decDigit. lia.
Qed.

Lemma scale10_nonneg (mantissa e : Z) :
  0 <= mantissa -> (0 <= scale10 mantissa e)%Q.
Proof.
  intros Hm. unfold scale10. destruct (0 <=? e) eqn:He.
  - apply Z.leb_le in He. unfold Qle. simpl.
    assert (0 <= 10 ^ e) by (apply Z.pow_nonneg; lia). nia.
  - rewrite Qred_correct. unfold Qle. simpl. lia.
Qed.

Lemma unsignedDecimal_nonneg (t : jsstring) (q : Q) :
  unsignedDecimal t = Some q -> (0 <= q)%Q.
Proof.
  unfold unsignedDecimal.
  destruct (spanDigits t) as [ip r1] eqn:H1.
  assert (Hfp : exists fp r2,
             match r1 with
             | 46%N :: r => spanDigits r
             | _ => ([], r1)
             end = (fp, r2)
             /\ Forall (fun c => isDigit c = true) fp).
  { destruct r1 as [|c r1].
    - exists [], []. split; [done|constructor].
    - destruct (N.eq_dec c 46%N) as [->|Hne].
      + destruct (spanDigits r1) as [fp r2] eqn:H2. exists fp, r2.
        split; [done|]. by eapply spanDigits_digits.
      + exists [], (c :: r1). split; [|constructor].
        destruct c as [|p]; [done|].
        do 6 (destruct p as [p|p|]; try done). }
  destruct Hfp as (fp & r2 & -> & Hfp).
  apply spanDigits_digits in H1.
  destruct (ip ++ fp) as [|d ds] eqn:Hds; [discriminate|].
  destruct (exponentPart r2) as [e|]; [|discriminate].
  intros [= <-]. apply scale10_nonneg, digitsValue_nonneg; [lia|].
  apply (decDigits_nonneg (d :: ds)). rewrite <- Hds. by apply Forall_app.
Qed.

Lemma signedDecimal_nonneg (t : jsstring) :
  45%N ∉ t ->
  signedDecimal t = NaN \/ nonNegative (signedDecimal t).
Proof.
  intros Ht. unfold signedDecimal.
  assert (Hsign : exists u,
             match t with
             | 45%N :: r => (true, r)
             | 43%N :: r => (false, r)
             | _ => (false, t)
             end = (false, u)).
  { destruct t as [|c r]; [by exists []|].
    apply not_elem_of_cons in Ht as [Hc _].
    destruct (N.eq_dec c 43%N) as [->|H43]; [by exists r|].
    exists (c :: r).
    destruct c as [|p]; [done|].
    do 6 (destruct p as [p|p|]; try done). }
  destruct Hsign as [u ->].
  destruct (eqs u infinityWord); [by right|].
  destruct (unsignedDecimal u) as [q|] eqn:Hq; [|by left].
  right. by apply unsignedDecimal_nonneg in Hq.
Qed.

Lemma Number_cases (s : jsstring) :
  Number s = Fin 0
  \/ Number s = signedDecimal (JS.trim s)
  \/ exists base r, 0 <= base /\ Number s = radixLiteral base r.
Proof.
  unfold Number. destruct (JS.trim s) as [|c [|c' r]]; [by left| |].
  - right. left. destruct c as [|p]; [done|].
    do 6 (destruct p as [p|p|]; try done).
  - destruct (N.eq_dec c 48%N) as [->|Hne].
    + destruct ((c' =? 120) || (c' =? 88))%N;
        [right; right; exists 16, r; split; [lia|done]|].
      destruct ((c' =? 111) || (c' =? 79))%N;
        [right; right; exists 8, r; split; [lia|done]|].
      destruct ((c' =? 98) || (c' =? 66))%N;
        [right; right; exists 2, r; split; [lia|done]|].
      by right; left.
    + right. left. destruct c as [|p]; [done|].
      do 6 (destruct p as [p|p|]; try done).
Qed.

(** [Number] of a string without a minus sign is NaN or not below zero. *)
Lemma Number_nonneg (s : jsstring) :
  45%N ∉ s -> Number s = NaN \/ nonNegative (Number s).
Proof.
  intros Hs.
  assert (Ht : 45%N ∉ JS.trim s) by (intros H; by apply trim_subset in H).
  destruct (Number_cases s) as [->|[->|(base & r & Hb & ->)]].
  - right. simpl. unfold Qle. simpl. lia.
  - by apply signedDecimal_nonneg.
  - by apply radixLiteral_nonneg.
Qed.

Lemma component_nonneg (parts : list jsstring) (i : nat) (x : jsnum) :
  Forall (fun part => 45%N ∉ part) parts ->
  component (parts !! i) = Some x -> x = NaN \/ nonNegative x.
Proof.
  intros Hparts. unfold component.
  destruct (parts !! i) as [part|] eqn:Hi; [|discriminate].
  destruct (truthy part); [|discriminate]. intros [= <-].
  apply Number_nonneg.
  rewrite Forall_forall in Hparts. apply Hparts.
  by eapply list_elem_of_lookup_2.
Qed.

Lemma max0_nonneg (x : jsnum) : x <> NaN -> nonNegative (max0 x).
Proof.
  destruct x as [|[]|q]; simpl; intros Hx.
  - by destruct Hx.
  - unfold Qle. simpl. lia.
  - done.
  - destruct (Qle_bool q 0) eqn:Hq; simpl.
    + unfold Qle. simpl. lia.
    + apply Qnot_lt_le. intros Hlt. apply Qlt_le_weak in Hlt.
      apply Qle_bool_iff in Hlt. congruence.
Qed.

(** X12. A range that [parseTrim] returns holds no NaN and no negative
    number: a minus sign always separates the two bounds. The duration that
    [buildBase] puts on the command for it is not negative either; it is NaN
    only when both bounds are infinite. *)
Theorem trim_bounds_and_duration_are_never_negative
    (t : option jsstring) (r : TrimRange) :
  parseTrim t = Ok r ->
  (forall x, Convert.trimStart r = Some x -> nonNegative x)
  /\ (forall x, trimEnd r = Some x -> nonNegative x)
  /\ startTime (buildBase (Some r)) = Convert.trimStart r
  /\ (forall d, duration (buildBase (Some r)) = Some d ->
        match d with
        | NaN => Convert.trimStart r = Some (Inf false)
                 /\ trimEnd r = Some (Inf false)
        | _ => nonNegative d
        end).
Proof.
  intros Hparse.
  assert (Hb : (forall x, Convert.trimStart r = Some x -> nonNegative x)
               /\ (forall x, trimEnd r = Some x -> nonNegative x)).
  { unfold parseTrim in Hparse. destruct t as [t|].
    2: { injection Hparse as <-. split; intros x H; discriminate. }
    destruct (negb (truthy t)).
    { injection Hparse as <-. split; intros x H; discriminate. }
    assert (Hparts : Forall (fun part => 45%N ∉ part) (JS.split t (js "-"))).
    { apply (splitGo_no_separator t []). apply not_elem_of_nil. }
    cbv zeta in Hparse.
    set (parts := JS.split t (js "-")) in *.
    destruct (isNaNValue (component (parts !! 0%nat))
              || truthyOpt (parts !! 1%nat)
                 && isNaNValue (component (parts !! 1%nat))) eqn:Hnan;
      [discriminate|].
    injection Hparse as <-. cbn [Convert.trimStart trimEnd].
    apply orb_false_iff in Hnan as [Hs He].
    split; intros x Hx.
    - destruct (component_nonneg parts 0 x Hparts Hx) as [->|?]; [|done].
      rewrite Hx in Hs. discriminate.
    - destruct (component_nonneg parts 1 x Hparts Hx) as [->|?]; [|done].
      rewrite Hx in He. simpl in He. rewrite andb_true_r in He.
      unfold component in Hx. destruct (parts !! 1%nat) as [part|]; [|done].
      simpl in He. by rewrite He in Hx. }
  destruct Hb as [Hs He]. split; [done|]. split; [done|].
  split; [reflexivity|].
  unfold buildBase. cbn [duration mbind option_bind].
  destruct (trimEnd r) as [e|]; [|discriminate].
  specialize (He e eq_refl).
  destruct (Convert.trimStart r) as [s|].
  - specialize (Hs s eq_refl). intros d [= <-].
    destruct e as [|[]|p], s as [|[]|q]; simpl in He, Hs; try done;
      cbn [sub Bool.eqb negb].
    pose proof (max0_nonneg (Fin (Qred (p - q)))) as Hm.
    specialize (Hm ltac:(done)).
    by destruct (max0 (Fin (Qred (p - q)))).
  - intros d [= <-]. pose proof (max0_nonneg e) as Hm.
    destruct e as [|[]|p]; try done.
    specialize (Hm ltac:(done)). by destruct (max0 (Fin p)).
Qed.

Lemma trim_bounds_witness :
  (forall x, Convert.trimStart
               {| Convert.trimStart := Some (ofZ 65);
                  trimEnd := Some (ofZ 5) |} = Some x -> nonNegative x)
  /\ duration (buildBase (Some {| Convert.trimStart := Some (ofZ 65);
                                  trimEnd := Some (ofZ 5) |}))
     = Some (Fin 0).
Proof.
  split.
  - apply (trim_bounds_and_duration_are_never_negative (Some (js "65-5"))).
    vm_compute. reflexivity.
  - vm_compute. reflexivity.
Defined.

End TrimBounds.

(** ** Facts: what the file-name heuristic can return *)

Module GuessFacts.
Import Regex Path Convert.

Lemma trimStart_head (s : jsstring) :
  match JS.trimStart s with [] => True | c :: _ => isSpace c = false end.
Proof.
  induction s as [|c s IH]; simpl; [done|].
  destruct (isSpace c) eqn:Hc; [exact IH|exact Hc].
Qed.

Lemma trimStart_fix (s : jsstring) :
  match s with [] => True | c :: _ => isSpace c = false end ->
  JS.trimStart s = s.
Proof. destruct s as [|c s]; simpl; [done|]. by intros ->. Qed.

Lemma trimStart_suffix (s : jsstring) : exists pre, s = pre ++ JS.trimStart s.
Proof.
  induction s as [|c s [pre IH]]; simpl; [by exists []|].
  destruct (isSpace c); [|by exists []].
  exists (c :: pre). simpl. by rewrite <- IH.
Qed.

(** Trimming twice is trimming once. *)
Lemma trim_idempotent (s : jsstring) : JS.trim (JS.trim s) = JS.trim s.
Proof.
  unfold JS.trim.
  set (a := JS.trimStart s). set (b := JS.trimStart (rev a)).
  assert (Hrb : JS.trimStart (rev b) = rev b).
  { apply trimStart_fix.
    destruct (trimStart_suffix (rev a)) as [pre Hpre]. fold b in Hpre.
    assert (Ha : a = rev b ++ rev pre).
    { by rewrite <- rev_app_distr, <- Hpre, rev_involutive. }
    pose proof (trimStart_head s) as Hh. fold a in Hh.
    destruct (rev b) as [|c rb]; [done|]. rewrite Ha in Hh. exact Hh. }
  rewrite Hrb, rev_involutive. f_equal.
  apply trimStart_fix, trimStart_head.
Qed.

Lemma scrub_trimmed (s : jsstring) : JS.trim (scrub s) = scrub s.
Proof. unfold scrub. apply trim_idempotent. Qed.

(** Either nothing is guessed, or both sides of one proposal, scrubbed and
    not empty. *)
Lemma detectFromFilename_cases (fileBase : jsstring) :
  detectFromFilename fileBase = noGuess
  \/ exists a t,
       detectFromFilename fileBase
       = {| guessTitle := Some (scrub t); guessArtist := Some (scrub a) |}
       /\ truthy (scrub a) = true /\ truthy (scrub t) = true.
Proof.
  unfold detectFromFilename.
  destruct (match2 reArtistDashTitle fileBase) as [[a1 t1]|];
    [destruct (truthy (scrub a1) && truthy (scrub t1)) eqn:H1;
     [apply andb_true_iff in H1 as [? ?]; right; by exists a1, t1|]|];
  (destruct (match2 reTitleByArtist fileBase) as [[t2 a2]|];
    [destruct (truthy (scrub a2) && truthy (scrub t2)) eqn:H2;
     [apply andb_true_iff in H2 as [? ?]; right; by exists a2, t2|]|]);
  (destruct (match2 reArtistUnderscoreTitle fileBase) as [[a3 t3]|];
    [destruct (truthy (scrub a3) && truthy (scrub t3)) eqn:H3;
     [apply andb_true_iff in H3 as [? ?]; right; by exists a3, t3|]|]);
  (destruct (Regex.splitBy reDash fileBase) as [|p0 [|p1 [|p2 ps]]];
    try (by left);
    destruct (truthy (scrub p0) && truthy (scrub p1)) eqn:H4;
    [apply andb_true_iff in H4 as [? ?]; right; by exists p0, p1|by left]).
Qed.

(** X13. The heuristic guesses an artist and a title together or neither of
    them, and a guessed value is never empty and carries no white space at
    either end. *)
Theorem filename_guess_is_a_trimmed_pair_or_nothing (fileBase : jsstring) :
  let g := detectFromFilename fileBase in
  (guessTitle g = None <-> guessArtist g = None)
  /\ forall x, guessTitle g = Some x \/ guessArtist g = Some x ->
               x <> [] /\ JS.trim x = x.
Proof.
  cbv zeta.
  destruct (detectFromFilename_cases fileBase)
    as [->|(a & t & -> & Ha & Ht)]; simpl.
  - split; [done|]. by intros x [?|?].
  - split; [done|].
    intros x [[= <-]|[= <-]]; (split; [|apply scrub_trimmed]).
    + by destruct (scrub t).
    + by destruct (scrub a).
Qed.

End GuessFacts.

(** ** Facts: the desktop shell *)

Module GuiFacts.
Import Regex Path Convert Task Spec Gui Props.

(** *** Which files the folder expansion lists *)

(** X14. The folder expansion lists a file exactly when the converter
    accepts it and its extension is not [.flv], [.m4v] or [.3gp]: everything
    the shell lists is converted, and files of these three kinds are only
    reachable by naming them to the converter directly. *)
Theorem supported_by_shell_iff_media_but_three (p : jsstring) :
  isSupported p = true
  <-> isMediaLike p = true
      /\ includes converterOnly (toLowerCase (extname p)) = false.
Proof.
  unfold isSupported, isMediaLike.
  generalize (toLowerCase (extname p)). intros ext.
  rewrite <- not_true_iff_false, orb_true_iff.
  rewrite !ResolverFacts.includes_elem_of.
  unfold SUPPORTED_EXTS, VIDEO_EXTS, AUDIO_EXTS, converterOnly.
  cbn [List.map].
  rewrite !elem_of_cons, !elem_of_nil.
  split.
  - intros H. split.
    + repeat (destruct H as [H|H]; [subst ext; tauto|]). done.
    + intros H'.
      repeat (destruct H as [H|H];
              [subst ext;
               repeat (destruct H' as [H'|H']; [discriminate H'|]); done|]).
      done.
  - intros [[H|H] Hno].
    + repeat (destruct H as [H|H];
              [subst ext; first [tauto | exfalso; apply Hno; tauto]|]).
      done.
    + repeat (destruct H as [H|H]; [subst ext; tauto|]). done.
Qed.

Lemma walk_grows (join : jsstring -> jsstring -> jsstring) (node : Node) :
  forall startPath out,
    exists new, (walkDir join startPath node out).1 = out ++ new
                /\ Forall (fun p => isSupported p = true) new.
Proof.
  induction node using Node_mut with
    (P0 := fun entries => forall startPath out,
             exists new,
               (walkEntries join startPath entries out).1 = out ++ new
               /\ Forall (fun p => isSupported p = true) new);
    intros startPath out; simpl.
  - destruct (isSupported startPath) eqn:Hs.
    + exists [startPath]. split; [done|]. by constructor.
    + exists []. by rewrite app_nil_r.
  - apply IHnode.
  - exists []. by rewrite app_nil_r.
  - exists []. by rewrite app_nil_r.
  - exists []. by rewrite app_nil_r.
  - destruct (IHnode (join startPath name) out) as (new1 & H1 & Hn1).
    destruct (walkDir join (join startPath name) node out) as [out' threw].
    simpl in H1. subst out'. destruct threw.
    + by exists new1.
    + destruct (IHnode0 startPath (out ++ new1)) as (new2 & H2 & Hn2).
      exists (new1 ++ new2). rewrite H2, app_assoc. split; [done|].
      by apply Forall_app.
Qed.

Lemma walk_all_grows (join : jsstring -> jsstring -> jsstring)
    (lookup : jsstring -> Node) (paths out : list jsstring) :
  Forall (fun p => isSupported p = true) out ->
  Forall (fun p => isSupported p = true)
    (fold_left (fun out p => (walkDir join p (lookup p) out).1) paths out).
Proof.
  revert out. induction paths as [|p paths IH]; intros out Hout; simpl;
    [done|].
  apply IH. destruct (walk_grows join (lookup p) p out) as (new & -> & Hn).
  by apply Forall_app.
Qed.

(** X15. The expansion of a mix of files and folders lists every path once,
    and lists only files with a supported extension, whatever fails on the
    way. *)
Theorem expansion_lists_supported_files_once
    (join : jsstring -> jsstring -> jsstring) (lookup : jsstring -> Node)
    (paths : list jsstring) :
  NoDup (expandPaths join lookup paths)
  /\ forall p, p ∈ expandPaths join lookup paths -> isSupported p = true.
Proof.
  unfold expandPaths. split; [apply ResolverFacts.NoDup_uniq|].
  intros p Hp. apply ResolverFacts.elem_of_uniq in Hp as [Hp _].
  pose proof (walk_all_grows join lookup paths [] ltac:(constructor)) as H.
  rewrite Forall_forall in H. by apply H.
Qed.

End GuiFacts.

(** ** Facts: what a run does to the world, step by step *)

Module RunFacts.
Import Regex Path Num Convert Concurrency Task Spec Props TaskFacts.
Local Open Scope task_scope.

Lemma runActions_app (a b : list Action) (w : World) :
  runActions (a ++ b) w = runActions b (runActions a w).
Proof. apply fold_left_app. Qed.

Section Traces.

Variable A : Action -> Prop.

Lemma traced_ret {X} (x : X) : traced A (ret x).
Proof. intros w. exists []. by split. Qed.

Lemma tracedAt_bind {X Y} (c : M X) (f : X -> M Y) (w : World) :
  tracedAt A c w -> tracedAt A (f (c w).1) (c w).2 ->
  tracedAt A (bind c f) w.
Proof.
  intros (a1 & H1 & F1) (a2 & H2 & F2). exists (a1 ++ a2).
  rewrite bind_run, H2, H1, runActions_app. split; [done|].
  by apply Forall_app.
Qed.

Lemma traced_bind {X Y} (c : M X) (f : X -> M Y) :
  traced A c -> (forall x, traced A (f x)) -> traced A (bind c f).
Proof. intros Hc Hf w. apply tracedAt_bind; [apply Hc|apply Hf]. Qed.

Lemma traced_one {X} (a : Action) (c : M X) :
  (forall w, (c w).2 = (act a w).2) -> A a -> traced A c.
Proof.
  intros Hc Ha w. exists [a]. split; [apply Hc|]. by constructor.
Qed.

Lemma traced_emit (e : Event) : A (AEmit e) -> traced A (emit e).
Proof. by apply traced_one. Qed.

Lemma traced_call (c : BackendCall) : A (ACall c) -> traced A (call c).
Proof. by apply traced_one. Qed.

Lemma traced_writeFile (path : jsstring) (f : option File) :
  (forall x, A (AWrite path x)) -> traced A (writeFile path f).
Proof.
  intros H. destruct f as [x|]; [|apply traced_ret].
  by apply (traced_one (AWrite path x)).
Qed.

Lemma traced_unlinkSync (path : jsstring) :
  A (AUnlink path) -> traced A (unlinkSync path).
Proof. by apply traced_one. Qed.

Lemma traced_mkdirSync (dir : jsstring) :
  A (AMkdir dir) -> traced A (mkdirSync dir).
Proof. by apply traced_one. Qed.

Lemma traced_nextIndex : A ANext -> traced A nextIndex.
Proof. by apply traced_one. Qed.

Lemma traced_pLimit (bound : Z) : A (ALimit bound) -> traced A (pLimit bound).
Proof. by apply traced_one. Qed.

Lemma traced_existsSync (path : jsstring) : traced A (existsSync path).
Proof. intros w. exists []. by split. Qed.

Lemma traced_waitIfPaused (n : nat) : traced A (waitIfPaused n).
Proof. induction n; [apply traced_ret|exact IHn]. Qed.

Lemma traced_when (b : bool) (c : M unit) :
  (b = true -> traced A c) -> traced A (when b c).
Proof. destruct b; simpl; [auto|intros _; apply traced_ret]. Qed.

(** An invariant of every allowed step is an invariant of the run. *)
Lemma runActions_invariant (P : World -> Prop) (acts : list Action) :
  (forall a w, A a -> P w -> P (act a w).2) ->
  Forall A acts -> forall w, P w -> P (runActions acts w).
Proof.
  intros Hstep Hacts. induction Hacts as [|a acts Ha _ IH]; intros w Hw;
    [done|].
  simpl. apply IH. by apply Hstep.
Qed.

End Traces.

Lemma tracedAt_weaken (A B : Action -> Prop) {X} (c : M X) (w : World) :
  (forall a, A a -> B a) -> tracedAt A c w -> tracedAt B c w.
Proof.
  intros HAB (acts & H & F). exists acts. split; [done|].
  eapply Forall_impl; eauto.
Qed.

(** Breaks a goal [traced A c] down to the steps of [c]; the steps
    themselves are left to be shown allowed. *)
Ltac trace :=
  repeat first
    [ simple apply @traced_ret
    | simple apply @traced_waitIfPaused
    | simple apply @traced_existsSync
    | simple apply @traced_when; [intros ?]
    | simple apply @traced_bind; [|intros ?]
    | simple apply @traced_emit
    | simple apply @traced_call
    | simple apply @traced_writeFile; [intros ?]
    | simple apply @traced_unlinkSync
    | simple apply @traced_mkdirSync
    | simple apply @traced_nextIndex
    | match goal with
      | |- traced _ (match ?x with _ => _ end) => destruct x eqn:?
      end ].

Section Pipeline.

Variable pf : Platform.
Variable opts : ConvertOptions.
Variable total : nat.
Variable input : jsstring.

Lemma tryExtract_traced (c : BackendCall) (tmp : jsstring)
    (o : ExtractOutcome) :
  taskAction pf opts total input (ACall c) ->
  (forall f, taskAction pf opts total input (AWrite tmp f)) ->
  traced (taskAction pf opts total input) (tryExtract c tmp o).
Proof. intros Hc Hw. unfold tryExtract. trace; auto. Qed.

Lemma probeAndAttached_traced (cover : option jsstring) :
  dryRun opts = false ->
  traced (taskAction pf opts total input)
    (probeAndAttached pf opts input (taskEnv pf input) cover).
Proof.
  intros Hdry. unfold probeAndAttached.
  apply traced_bind; [by apply traced_call|intros _].
  destruct (probe (taskEnv pf input)) as [|tags [idx|]];
    try apply traced_ret.
  destruct (falsyPath cover); [|apply traced_ret].
  apply traced_bind; [|intros [p|]; apply traced_ret].
  apply tryExtract_traced.
  - by repeat split.
  - intros f. split; [done|]. right. by left.
Qed.

Lemma frameFallback_traced (cover temp : option jsstring) :
  dryRun opts = false ->
  traced (taskAction pf opts total input)
    (frameFallback pf opts input (taskEnv pf input) cover temp).
Proof.
  intros Hdry. unfold frameFallback.
  destruct (falsyPath cover); [|apply traced_ret].
  apply traced_bind; [|intros [p|]; apply traced_ret].
  apply tryExtract_traced.
  - by repeat split.
  - intros f. split; [done|]. right. by right.
Qed.

Lemma reportAll_traced (ps : list Q) :
  dryRun opts = false ->
  traced (taskAction pf opts total input) (reportAll opts input ps).
Proof.
  intros Hdry. induction ps as [|p ps IH]; simpl; [apply traced_ret|].
  apply traced_bind; [|intros _; exact IH].
  unfold reportProgress. trace.
  - split; [done|]. split; [done|].
    pose proof (barValue_range p). lia.
  - by repeat split.
Qed.

Lemma attempt_traced (args : EncodeArgs) (i : nat) :
  dryRun opts = false ->
  encInput args = input -> encOutput args = outputOf pf opts input ->
  traced (taskAction pf opts total input)
    (attempt opts (taskEnv pf input) args i).
Proof.
  intros Hdry Hin Hout. unfold attempt.
  destruct (hasEncoder (extOut (format opts))) eqn:Henc;
    [|apply traced_ret].
  apply traced_bind; [apply traced_call; by repeat split|intros _].
  apply traced_bind; [rewrite Hin; by apply reportAll_traced|intros _].
  apply traced_bind; [|intros _; apply traced_ret].
  apply traced_writeFile. intros f. split; [done|]. by left.
Qed.

Lemma attemptLoop_traced (args : EncodeArgs) (n i : nat)
    (e : option jsstring) :
  dryRun opts = false ->
  encInput args = input -> encOutput args = outputOf pf opts input ->
  traced (taskAction pf opts total input)
    (attemptLoop opts (taskEnv pf input) args n i e).
Proof.
  intros Hdry Hin Hout. revert i e.
  induction n as [|n IH]; intros i e; simpl; [apply traced_ret|].
  apply traced_bind; [by apply attempt_traced|].
  intros [err|]; [apply IH|apply traced_ret].
Qed.

Lemma reportDone_traced :
  traced (taskAction pf opts total input)
    (reportDone opts input (outputOf pf opts input)).
Proof.
  unfold reportDone. trace.
  - split; [done|]. split; [done|]. lia.
  - by split.
  - by repeat split.
Qed.

Lemma catchBlock_traced (e : jsstring) :
  traced (taskAction pf opts total input)
    (catchBlock opts input (outputOf pf opts input) e).
Proof.
  unfold catchBlock. trace.
  - by split.
  - by repeat split.
Qed.

Lemma tryBody_traced (trimRange : TrimRange) :
  traced (taskAction pf opts total input)
    (tryBody pf opts trimRange input (outputOf pf opts input)
       (taskEnv pf input)).
Proof.
  unfold tryBody.
  apply traced_bind; [apply traced_waitIfPaused|intros _].
  destruct (dryRun opts) eqn:Hdry; [apply reportDone_traced|].
  intros w. apply tracedAt_bind; [by apply probeAndAttached_traced|].
  pose proof (probeAndAttached_temp pf opts input (taskEnv pf input)
                (default ∅ (metadata opts) !! js "coverImagePath") w) as Ht1.
  destruct (probeAndAttached _ _ _ _ _ w) as [[[autoTags cover1] temp1] w1].
  simpl in Ht1 |- *.
  apply tracedAt_bind; [by apply frameFallback_traced|].
  pose proof (frameFallback_temp pf opts input (taskEnv pf input)
                cover1 temp1 w1) as Ht2.
  destruct (frameFallback _ _ _ _ _ _ w1) as [[cover temp] w2].
  simpl in Ht2 |- *.
  apply tracedAt_bind; [by apply attemptLoop_traced|].
  match goal with
  | |- context [attemptLoop opts ?env ?args ?n ?i ?e w2] =>
      destruct (attemptLoop opts env args n i e w2) as [[okRun lastErr] w3]
  end.
  simpl. destruct okRun; [|by apply traced_ret].
  apply tracedAt_bind; [|apply reportDone_traced].
  assert (Htemp : temp = None
                  \/ temp = Some (attachedTemp pf opts input (taskEnv pf input))
                  \/ temp = Some (frameTemp pf opts input (taskEnv pf input))).
  { destruct Ht2 as [->| ->]; [destruct Ht1 as [->| ->]|]; auto. }
  destruct Htemp as [->|[->| ->]].
  - by apply traced_ret.
  - apply traced_unlinkSync. split; [done|]. by left.
  - apply traced_unlinkSync. split; [done|]. by right.
Qed.

Lemma runTask_traced (trimRange : TrimRange) :
  traced (taskAction pf opts total input)
    (runTask pf opts trimRange total input).
Proof.
  unfold runTask.
  apply traced_bind.
  { apply traced_when. intros Hdry. apply traced_mkdirSync.
    split; [by destruct (dryRun opts)|done]. }
  intros _. apply traced_bind; [apply traced_existsSync|intros there].
  destruct (negb (overwrite opts) && there); [apply traced_ret|].
  apply traced_bind; [by apply traced_nextIndex|intros index].
  apply traced_bind.
  { apply traced_when. intros Hs. apply traced_emit. by repeat split. }
  intros _. apply traced_bind.
  { apply traced_when. intros Hb. apply traced_emit. by split. }
  intros _. apply traced_bind; [apply tryBody_traced|].
  intros [res|e]; [apply traced_ret|apply catchBlock_traced].
Qed.

End Pipeline.

Section Run.

Variable pf : Platform.
Variable opts : ConvertOptions.

Lemma runTasks_traced (trimRange : TrimRange) (candidates cs : list jsstring) :
  (forall c, c ∈ cs -> c ∈ candidates) ->
  traced (runAction pf opts candidates)
    (runTasks pf opts trimRange (length candidates) cs).
Proof.
  induction cs as [|c cs IH]; intros Hin; simpl; [apply traced_ret|].
  apply traced_bind.
  - intros w.
    apply (tracedAt_weaken (taskAction pf opts (length candidates) c));
      [|apply runTask_traced].
    intros a Ha. right. exists c. split; [apply Hin; by left|done].
  - intros r. apply traced_bind; [|intros rs; apply traced_ret].
    apply IH. intros c' Hc'. apply Hin. by right.
Qed.

(** Every change a run makes is a step of the task of one of its
    candidates, or the making of the limiter. *)
Lemma convertPaths_traced (inputs : list jsstring) (w : World) :
  tracedAt (runAction pf opts (candidatesOf pf (files w) inputs))
    (convertPaths pf opts inputs) w.
Proof.
  unfold tracedAt, convertPaths. cbv beta zeta.
  destruct (candidatesOf pf (files w) inputs) as [|c0 cs] eqn:Hcs.
  { exists []. by split. }
  apply (tracedAt_bind (runAction pf opts (c0 :: cs))
           (pLimit (effectiveConcurrency (concurrency opts) (throttle opts)
                      (cpus pf)))).
  { apply traced_pLimit. left. by eexists. }
  destruct (parseTrim (trim opts)) as [trimRange|e]; [|by apply traced_ret].
  apply tracedAt_bind; [|by apply traced_ret].
  by apply runTasks_traced.
Qed.

End Run.

End RunFacts.

(** ** Facts: what a run never does *)

Module RunProps.
Import Regex Path Num Convert Concurrency Task Spec Props TaskFacts RunFacts.
Local Open Scope task_scope.

Section Run.

Variable pf : Platform.
Variable opts : ConvertOptions.

(** *** Dry runs *)

Lemma runTask_dry_value (trimRange : TrimRange) (total : nat)
    (input : jsstring) (w : World) :
  dryRun opts = true ->
  (runTask pf opts trimRange total input w).1
  = doneResult input (outputOf pf opts input).
Proof.
  intros Hdry. unfold runTask, tryBody. rewrite Hdry. rewrite !bind_run.
  destruct (negb (overwrite opts) && _); [reflexivity|].
  rewrite !bind_run. by rewrite reportDone_value.
Qed.

Lemma runTasks_dry_value (trimRange : TrimRange) (total : nat)
    (cs : list jsstring) (w : World) :
  dryRun opts = true ->
  (runTasks pf opts trimRange total cs w).1
  = List.map (fun c => doneResult c (outputOf pf opts c)) cs.
Proof.
  intros Hdry. revert w. induction cs as [|c cs IH]; intros w; simpl; [done|].
  rewrite !bind_run. cbn [ret fst]. by rewrite runTask_dry_value, IH.
Qed.

Lemma dry_step (candidates : list jsstring) (a : Action) (w w0 : World) :
  dryRun opts = true ->
  runAction pf opts candidates a ->
  files w = files w0 /\ dirs w = dirs w0 /\ calls w = calls w0
  /\ unlinks w = unlinks w0 ->
  files (act a w).2 = files w0 /\ dirs (act a w).2 = dirs w0
  /\ calls (act a w).2 = calls w0 /\ unlinks (act a w).2 = unlinks w0.
Proof.
  intros Hdry [[bound ->]|(c & _ & Ha)] H; [exact H|].
  destruct a as [e|call|path f|path|dir| |bound]; simpl in Ha |- *;
    try exact H.
  - destruct call; destruct Ha as [Ha _]; congruence.
  - destruct Ha as [Ha _]; congruence.
  - destruct Ha as [Ha _]; congruence.
  - destruct Ha as [Ha _]; congruence.
Qed.

(** X16. A dry run changes no file, makes no directory, calls the engine for
    nothing and unlinks nothing; when the trim option parses it reports
    every candidate as converted, at the output path it would get. *)
Theorem dry_run_touches_nothing (inputs : list jsstring) (w : World) :
  dryRun opts = true ->
  let run := convertPaths pf opts inputs w in
  files run.2 = files w /\ dirs run.2 = dirs w
  /\ calls run.2 = calls w /\ unlinks run.2 = unlinks w
  /\ forall trimRange,
       parseTrim (trim opts) = Ok trimRange ->
       run.1 = Ok (List.map (fun c => doneResult c (outputOf pf opts c))
                     (candidatesOf pf (files w) inputs)).
Proof.
  intros Hdry. cbv zeta.
  destruct (convertPaths_traced pf opts inputs w) as (acts & Hrun & Hacts).
  assert (H : files (runActions acts w) = files w
              /\ dirs (runActions acts w) = dirs w
              /\ calls (runActions acts w) = calls w
              /\ unlinks (runActions acts w) = unlinks w).
  { apply (runActions_invariant
             (runAction pf opts (candidatesOf pf (files w) inputs))
             (fun w' => files w' = files w /\ dirs w' = dirs w
                        /\ calls w' = calls w /\ unlinks w' = unlinks w));
      [|done|done].
    intros a w' Ha Hw'. by eapply dry_step. }
  rewrite Hrun. destruct H as (? & ? & ? & ?).
  do 4 (split; [done|]).
  intros trimRange Htrim. unfold convertPaths.
  destruct (candidatesOf pf (files w) inputs) as [|c0 cs]; [done|].
  rewrite bind_run, Htrim, bind_run. cbn [ret fst].
  by rewrite runTasks_dry_value.
Qed.

(** *** The files a run may change *)

Lemma frame_step (candidates : list jsstring) (path : jsstring)
    (a : Action) (w : World) (v : option File) :
  (forall c, c ∈ candidates ->
             path <> outputOf pf opts c /\ notTempOf pf opts c path) ->
  runAction pf opts candidates a ->
  files w !! path = v -> files (act a w).2 !! path = v.
Proof.
  intros Hpath [[bound ->]|(c & Hc & Ha)] H; [exact H|].
  destruct (Hpath c Hc) as (Hout & HA & HF).
  destruct a as [e|call|q f|q|dir| |bound]; simpl in Ha |- *; try exact H.
  - destruct Ha as (_ & [->|[->| ->]]); by rewrite lookup_insert_ne.
  - destruct Ha as (_ & [->| ->]); by rewrite lookup_delete_ne.
Qed.

(** X17. A run changes no file other than the outputs of its candidates and
    the two temporary cover names of each: every other path, an input that
    is not itself one of these for instance, holds afterwards what it held
    before. *)
Theorem run_changes_only_outputs_and_temp_covers (inputs : list jsstring)
    (w : World) (path : jsstring) :
  (forall c, c ∈ candidatesOf pf (files w) inputs ->
             path <> outputOf pf opts c /\ notTempOf pf opts c path) ->
  files (convertPaths pf opts inputs w).2 !! path = files w !! path.
Proof.
  intros Hpath.
  destruct (convertPaths_traced pf opts inputs w) as (acts & -> & Hacts).
  apply (runActions_invariant
           (runAction pf opts (candidatesOf pf (files w) inputs))
           (fun w' => files w' !! path = files w !! path)); [|done|done].
  intros a w' Ha Hw'. by eapply frame_step.
Qed.

(** *** The events and the engine calls of a run *)

Lemma emitted_step (candidates : list jsstring) (a : Action)
    (w w0 : World) :
  runAction pf opts candidates a ->
  (exists new, events w = events w0 ++ new
               /\ Forall (fun e => runAction pf opts candidates (AEmit e))
                    new) ->
  exists new, events (act a w).2 = events w0 ++ new
              /\ Forall (fun e => runAction pf opts candidates (AEmit e)) new.
Proof.
  intros Ha (new & Hnew & Hall).
  destruct a as [e|call|q f|q|dir| |bound]; try (by exists new).
  exists (new ++ [e]). simpl. rewrite Hnew, app_assoc. split; [done|].
  apply Forall_app. split; [done|]. by constructor.
Qed.

Lemma convertPaths_emitted (inputs : list jsstring) (w : World) :
  exists new,
    events (convertPaths pf opts inputs w).2 = events w ++ new
    /\ Forall (fun e =>
                 runAction pf opts (candidatesOf pf (files w) inputs)
                   (AEmit e)) new.
Proof.
  destruct (convertPaths_traced pf opts inputs w) as (acts & -> & Hacts).
  apply (runActions_invariant
           (runAction pf opts (candidatesOf pf (files w) inputs))
           (fun w' => exists new,
                events w' = events w ++ new
                /\ Forall (fun e =>
                             runAction pf opts
                               (candidatesOf pf (files w) inputs) (AEmit e))
                     new)); [|done|].
  - intros a w' Ha Hw'. by eapply emitted_step.
  - exists []. by rewrite app_nil_r.
Qed.

(** X18. Every event of a run belongs to one of the candidates: it carries
    that candidate as its input, the candidate's output path where it
    carries one, and the number of candidates as the total. Callback events
    occur only for callbacks that were supplied, progress-bar events only
    when none was, and a progress bar is never set below 1 or above 100. *)
Theorem every_event_belongs_to_a_candidate (inputs : list jsstring)
    (w : World) :
  let candidates := candidatesOf pf (files w) inputs in
  exists new,
    events (convertPaths pf opts inputs w).2 = events w ++ new
    /\ Forall (fun e =>
                 exists c, c ∈ candidates
                           /\ taskAction pf opts (length candidates) c
                                (AEmit e)) new.
Proof.
  cbv zeta.
  destruct (convertPaths_emitted inputs w) as (new & Hnew & Hall).
  exists new. split; [done|].
  eapply Forall_impl; [exact Hall|].
  intros e [[bound Hb]|Hc]; [discriminate|done].
Qed.

Lemma called_step (candidates : list jsstring) (a : Action)
    (w w0 : World) :
  runAction pf opts candidates a ->
  (exists new, calls w = calls w0 ++ new
               /\ Forall (fun c => runAction pf opts candidates (ACall c))
                    new) ->
  exists new, calls (act a w).2 = calls w0 ++ new
              /\ Forall (fun c => runAction pf opts candidates (ACall c)) new.
Proof.
  intros Ha (new & Hnew & Hall).
  destruct a as [e|call|q f|q|dir| |bound]; try (by exists new).
  exists (new ++ [call]). simpl. rewrite Hnew, app_assoc. split; [done|].
  apply Forall_app. split; [done|]. by constructor.
Qed.

(** X19. Every call into the engine is made for one of the candidates: a
    probe of it, an extraction into one of its two temporary cover names, or
    an encode of it into its output path; and an encode is only ever started
    for a format the engine has an encoder for. *)
Theorem every_engine_call_belongs_to_a_candidate (inputs : list jsstring)
    (w : World) :
  let candidates := candidatesOf pf (files w) inputs in
  exists new,
    calls (convertPaths pf opts inputs w).2 = calls w ++ new
    /\ Forall (fun call =>
                 exists c, c ∈ candidates
                           /\ taskAction pf opts (length candidates) c
                                (ACall call)) new.
Proof.
  cbv zeta.
  destruct (convertPaths_traced pf opts inputs w) as (acts & -> & Hacts).
  assert (H : exists new,
             calls (runActions acts w) = calls w ++ new
             /\ Forall (fun c =>
                          runAction pf opts
                            (candidatesOf pf (files w) inputs) (ACall c))
                  new).
  { apply (runActions_invariant
             (runAction pf opts (candidatesOf pf (files w) inputs))
             (fun w' => exists new,
                  calls w' = calls w ++ new
                  /\ Forall (fun c =>
                               runAction pf opts
                                 (candidatesOf pf (files w) inputs) (ACall c))
                       new)); [|done|].
    - intros a w' Ha Hw'. by eapply called_step.
    - exists []. by rewrite app_nil_r. }
  destruct H as (new & Hnew & Hall). exists new. split; [done|].
  eapply Forall_impl; [exact Hall|].
  intros e [[bound Hb]|Hc]; [discriminate|done].
Qed.

End Run.

End RunProps.

(** ** Facts: the results of a run, retries and start indices *)

Module ResultFacts.
Import Regex Path Num Convert Concurrency Task Spec Props TaskFacts RunFacts.
Local Open Scope task_scope.

Lemma traced_preserves (A : Action -> Prop) {X B} (proj : World -> B)
    (c : M X) :
  (forall a w, A a -> proj (act a w).2 = proj w) ->
  traced A c -> preserves proj c.
Proof.
  intros Hstep Hc w. destruct (Hc w) as (acts & -> & Hacts).
  apply (runActions_invariant A (fun w' => proj w' = proj w)); [|done|done].
  intros a w' Ha Hw'. by rewrite Hstep.
Qed.

Section Pipeline.

Variable pf : Platform.
Variable opts : ConvertOptions.

(** *** The body of a task takes no index and emits no start event *)

Lemma reportAll_body (input : jsstring) (ps : list Q) :
  traced bodyStep (reportAll opts input ps).
Proof.
  induction ps as [|p ps IH]; simpl; [apply traced_ret|].
  apply traced_bind; [|intros _; exact IH].
  unfold reportProgress. trace; exact I.
Qed.

Lemma attemptLoop_body (env : TaskEnv) (args : EncodeArgs) (n i : nat)
    (e : option jsstring) :
  traced bodyStep (attemptLoop opts env args n i e).
Proof.
  revert i e. induction n as [|n IH]; intros i e; simpl;
    [apply traced_ret|].
  apply traced_bind; [|intros [err|]; [apply IH|apply traced_ret]].
  unfold attempt. destruct (hasEncoder _); [|apply traced_ret].
  apply traced_bind; [by apply traced_call|intros _].
  apply traced_bind; [apply reportAll_body|intros _].
  trace; exact I.
Qed.

Lemma tryBody_body (trimRange : TrimRange) (input out : jsstring)
    (env : TaskEnv) :
  traced bodyStep (tryBody pf opts trimRange input out env).
Proof.
  unfold tryBody, reportDone, probeAndAttached, frameFallback, tryExtract.
  apply traced_bind; [apply traced_waitIfPaused|intros _].
  destruct (dryRun opts); [trace; exact I|].
  apply traced_bind; [trace; exact I|intros [[autoTags cover1] temp1]].
  apply traced_bind; [trace; exact I|intros [cover temp]].
  apply traced_bind; [apply attemptLoop_body|intros [okRun lastErr]].
  trace; exact I.
Qed.

Lemma catchBlock_body (input out e : jsstring) :
  traced bodyStep (catchBlock opts input out e).
Proof. unfold catchBlock. trace; exact I. Qed.

Lemma bodyStep_idxCounter (a : Action) (w : World) :
  bodyStep a -> idxCounter (act a w).2 = idxCounter w.
Proof.
  destruct a as [e|call|q [x y]|q|dir| |bound]; simpl; try done.
Qed.

Lemma bodyStep_startIndices (a : Action) (w : World) :
  bodyStep a -> startIndices (events (act a w).2) = startIndices (events w).
Proof.
  destruct a as [e|call|q [x y]|q|dir| |bound]; simpl; try done.
  intros He. unfold startIndices. rewrite omap_app. simpl.
  destruct e; simpl in He |- *; try done; by rewrite app_nil_r.
Qed.

(** *** The value a task returns *)

Lemma attempt_result (env : TaskEnv) (args : EncodeArgs) (i : nat)
    (w : World) :
  (attempt opts env args i w).1 = attemptFailure opts env i.
Proof.
  unfold attempt, attemptFailure.
  destruct (hasEncoder _); [|reflexivity]. by rewrite !bind_run.
Qed.

Lemma attemptLoop_result (env : TaskEnv) (args : EncodeArgs) (n i : nat)
    (e : option jsstring) (w : World) :
  (attemptLoop opts env args n i e w).1
  = loopOutcome (attemptFailure opts env) n i e.
Proof.
  revert i e w. induction n as [|n IH]; intros i e w; simpl; [done|].
  rewrite bind_run, attempt_result.
  destruct (attemptFailure opts env i); [apply IH|done].
Qed.

Lemma tryBody_result (trimRange : TrimRange) (input out : jsstring)
    (env : TaskEnv) (w : World) :
  dryRun opts = false ->
  (tryBody pf opts trimRange input out env w).1
  = let ran :=
      loopOutcome (attemptFailure opts env) (attemptsOf opts) 0 None in
    if ran.1 then Ok (doneResult input out) else Throw (default [] ran.2).
Proof.
  intros Hdry. unfold tryBody. rewrite Hdry, !bind_run.
  destruct (probeAndAttached _ _ _ _ _ _) as [[[autoTags cover1] temp1] w1].
  cbn [fst snd]. rewrite bind_run.
  destruct (frameFallback _ _ _ _ _ _ w1) as [[cover temp] w2].
  cbn [fst snd]. rewrite bind_run.
  match goal with
  | |- context [attemptLoop opts ?env ?args ?n ?i ?e w2] =>
      pose proof (attemptLoop_result env args n i e w2) as Hr;
      destruct (attemptLoop opts env args n i e w2) as [[okRun lastErr] w3]
  end.
  cbn [fst snd] in Hr |- *. rewrite <- Hr. cbn [fst snd].
  destruct okRun; [|reflexivity].
  by rewrite bind_run, reportDone_value.
Qed.

(** A task that is run outside a dry run returns [taskOutcome]. *)
Lemma runTask_result (trimRange : TrimRange) (total : nat)
    (input : jsstring) (w : World) :
  dryRun opts = false ->
  (runTask pf opts trimRange total input w).1
  = if negb (overwrite opts)
       && bool_decide (is_Some (files w !! outputOf pf opts input))
    then doneResult input (outputOf pf opts input)
    else taskOutcome pf opts input.
Proof.
  intros Hdry. unfold runTask. rewrite Hdry. cbn [negb when].
  rewrite !bind_run. cbn [mkdirSync existsSync fst snd files].
  destruct (negb (overwrite opts) && _); [reflexivity|].
  rewrite !bind_run.
  match goal with
  | |- context [tryBody pf opts trimRange input ?out ?env ?w1] =>
      pose proof (tryBody_result trimRange input out env w1 Hdry) as Hr;
      destruct (tryBody pf opts trimRange input out env w1) as [r w2]
  end.
  cbn [fst snd] in Hr |- *. subst r. unfold taskOutcome. cbv zeta.
  destruct (loopOutcome _ _ _ _) as [ok err]. cbn [fst snd].
  destruct ok; [reflexivity|].
  unfold catchBlock. by rewrite !bind_run.
Qed.

(** *** Results and candidates *)

Lemma runTask_names (trimRange : TrimRange) (total : nat)
    (input : jsstring) (w : World) :
  let r := (runTask pf opts trimRange total input w).1 in
  resInput r = input /\ resOutput r = Some (outputOf pf opts input).
Proof.
  cbv zeta. destruct (dryRun opts) eqn:Hdry.
  - by rewrite RunProps.runTask_dry_value.
  - rewrite runTask_result by done.
    destruct (negb (overwrite opts) && _); [done|].
    unfold taskOutcome. cbv zeta. by destruct (loopOutcome _ _ _ _).1.
Qed.

Lemma runTasks_names (trimRange : TrimRange) (total : nat)
    (cs : list jsstring) (w : World) :
  let rs := (runTasks pf opts trimRange total cs w).1 in
  List.map resInput rs = cs
  /\ List.map resOutput rs
     = List.map (fun c => Some (outputOf pf opts c)) cs.
Proof.
  cbv zeta. revert w. induction cs as [|c cs IH]; intros w; simpl; [done|].
  rewrite !bind_run. cbn [ret fst List.map].
  destruct (runTask_names trimRange total c w) as [-> ->].
  match goal with
  | |- context [runTasks pf opts trimRange total cs ?w1] =>
      destruct (IH w1) as [-> ->]
  end.
  done.
Qed.

(** X20. A run that returns gives one result per candidate, in the order of
    the candidates; each result names its candidate and the output path
    computed for it, whether the file was converted, skipped or failed. *)
Theorem results_follow_the_candidates (inputs : list jsstring) (w : World)
    (rs : list ConvertResult) :
  (convertPaths pf opts inputs w).1 = Ok rs ->
  List.map resInput rs = candidatesOf pf (files w) inputs
  /\ List.map resOutput rs
     = List.map (fun c => Some (outputOf pf opts c))
         (candidatesOf pf (files w) inputs).
Proof.
  unfold convertPaths.
  destruct (candidatesOf pf (files w) inputs) as [|c0 cs] eqn:Hcs.
  { by intros [= <-]. }
  rewrite bind_run. destruct (parseTrim (trim opts)) as [trimRange|e];
    [|discriminate].
  rewrite bind_run. cbn [ret fst]. intros [= <-].
  apply (runTasks_names trimRange (length (c0 :: cs)) (c0 :: cs)).
Qed.

(** *** Retries *)

Lemma loopOutcome_ok_iff (fail : nat -> option jsstring) (n i : nat)
    (e : option jsstring) :
  (loopOutcome fail n i e).1 = true
  <-> exists j, (i <= j < i + n)%nat /\ fail j = None.
Proof.
  revert i e. induction n as [|n IH]; intros i e; simpl.
  - split; [done|]. intros (j & Hj & _). lia.
  - destruct (fail i) as [err|] eqn:Hi.
    + rewrite IH. split.
      * intros (j & Hj & Hf). exists j. split; [lia|done].
      * intros (j & Hj & Hf). exists j. split; [|done].
        destruct (decide (j = i)) as [->|]; [congruence|lia].
    + split; [|done]. intros _. exists i. split; [lia|done].
Qed.

Lemma loopOutcome_failed (fail : nat -> option jsstring) (n i : nat)
    (e : option jsstring) :
  (loopOutcome fail (S n) i e).1 = false ->
  (loopOutcome fail (S n) i e).2 = fail (i + n)%nat
  /\ is_Some (fail (i + n)%nat).
Proof.
  revert i e. induction n as [|n IH]; intros i e.
  - simpl. rewrite Nat.add_0_r.
    destruct (fail i) as [err|] eqn:Hi; [|done]. eauto.
  - cbn [loopOutcome]. cbn [loopOutcome] in IH.
    destruct (fail i) as [err|] eqn:Hi; [|done].
    intros H. replace (i + S n)%nat with (S i + n)%nat by lia.
    by apply IH.
Qed.

Lemma attemptsOf_pos : (1 <= attemptsOf opts)%nat.
Proof. unfold attemptsOf. lia. Qed.

Lemma runTasks_overwrite (trimRange : TrimRange) (total : nat)
    (cs : list jsstring) (w : World) :
  overwrite opts = true -> dryRun opts = false ->
  (runTasks pf opts trimRange total cs w).1
  = List.map (taskOutcome pf opts) cs.
Proof.
  intros Hov Hdry. revert w.
  induction cs as [|c cs IH]; intros w; simpl; [done|].
  rewrite !bind_run. cbn [ret fst].
  rewrite runTask_result by done. rewrite Hov. cbn [negb andb].
  by rewrite IH.
Qed.

(** X21. With [overwrite], outside a dry run, the result of each candidate
    is decided by its attempts alone: it is ok exactly when one of the first
    [attemptsOf] attempts resolves (one attempt without a retry policy), and
    otherwise carries the message of the last attempt. *)
Theorem retries_decide_the_result (inputs : list jsstring) (w : World)
    (trimRange : TrimRange) :
  overwrite opts = true -> dryRun opts = false ->
  parseTrim (trim opts) = Ok trimRange ->
  (convertPaths pf opts inputs w).1
  = Ok (List.map (taskOutcome pf opts) (candidatesOf pf (files w) inputs))
  /\ forall c,
       let fail := attemptFailure opts (taskEnv pf c) in
       (resOk (taskOutcome pf opts c) = true
        <-> exists i, (i < attemptsOf opts)%nat /\ fail i = None)
       /\ (resOk (taskOutcome pf opts c) = false ->
           resError (taskOutcome pf opts c)
           = Some (errorText (default [] (fail (attemptsOf opts - 1)%nat)))).
Proof.
  intros Hov Hdry Htrim. split.
  - unfold convertPaths.
    destruct (candidatesOf pf (files w) inputs) as [|c0 cs] eqn:Hcs; [done|].
    rewrite bind_run, Htrim, bind_run. cbn [ret fst].
    by rewrite runTasks_overwrite.
  - intros c. cbv zeta. unfold taskOutcome. cbv zeta.
    pose proof (loopOutcome_ok_iff (attemptFailure opts (taskEnv pf c))
                  (attemptsOf opts) 0 None) as Hok.
    pose proof attemptsOf_pos as Hpos.
    destruct (attemptsOf opts) as [|n] eqn:Hn; [lia|].
    pose proof (loopOutcome_failed (attemptFailure opts (taskEnv pf c))
                  n 0 None) as Hfail.
    destruct (loopOutcome _ (S n) 0 None) as [ok err]. cbn [fst snd] in *.
    destruct ok; cbn [resOk resError doneResult failedResult].
    + split; [|done]. split; [|done]. intros _.
      destruct (proj1 Hok eq_refl) as (j & Hj & Hf). exists j.
      split; [lia|done].
    + split.
      * split; [done|]. intros (i & Hi & Hf).
        apply Hok. exists i. split; [lia|done].
      * intros _. destruct (Hfail eq_refl) as [-> _].
        do 4 f_equal. lia.
Qed.

(** X22. For a format the engine has no encoder for (aac, flac, ogg, opus),
    no encode is ever started, and with [overwrite], outside a dry run,
    every candidate fails with the message of the missing function. *)
Theorem format_without_encoder_fails_every_file (inputs : list jsstring)
    (w : World) (trimRange : TrimRange) :
  hasEncoder (extOut (format opts)) = false ->
  encodeCount (convertPaths pf opts inputs w).2 = encodeCount w
  /\ (overwrite opts = true -> dryRun opts = false ->
      parseTrim (trim opts) = Ok trimRange ->
      (convertPaths pf opts inputs w).1
      = Ok (List.map (fun c =>
                        failedResult c (outputOf pf opts c) notAFunction)
              (candidatesOf pf (files w) inputs))).
Proof.
  intros Henc. split.
  - destruct (convertPaths_traced pf opts inputs w) as (acts & -> & Hacts).
    apply (runActions_invariant
             (runAction pf opts (candidatesOf pf (files w) inputs))
             (fun w' => encodeCount w' = encodeCount w)); [|done|done].
    intros a w' Ha <-.
    destruct a as [e|bc|q [x y]|q|dir| |bound]; try done.
    unfold encodeCount. cbn [act call calls snd].
    rewrite List.filter_app, length_app.
    destruct bc; cbn [List.filter isEncode length]; try lia.
    destruct Ha as [[bound Hb]|(c & _ & _ & Ha & _)]; congruence.
  - intros Hov Hdry Htrim. unfold convertPaths.
    destruct (candidatesOf pf (files w) inputs) as [|c0 cs] eqn:Hcs; [done|].
    rewrite bind_run, Htrim, bind_run. cbn [ret fst].
    rewrite runTasks_overwrite by done. f_equal.
    apply List.map_ext. intros c. unfold taskOutcome. cbv zeta.
    pose proof attemptsOf_pos as Hpos.
    destruct (attemptsOf opts) as [|n] eqn:Hn; [lia|].
    assert (Hl : forall n i e,
               loopOutcome (attemptFailure opts (taskEnv pf c)) (S n) i e
               = (false, Some notAFunction)).
    { clear -Henc. intros m. induction m as [|m IH]; intros i e.
      - simpl. unfold attemptFailure. by rewrite Henc.
      - cbn [loopOutcome]. cbn [loopOutcome] in IH.
        unfold attemptFailure at 1. rewrite Henc. apply IH. }
    by rewrite Hl.
Qed.

(** *** The number of encodes *)

Lemma noEncode_count (a : Action) (w : World) :
  noEncode a -> encodeCount (act a w).2 = encodeCount w.
Proof.
  destruct a as [e|bc|q [x y]|q|dir| |bound]; try done.
  unfold encodeCount. cbn [act call calls snd].
  rewrite List.filter_app, length_app.
  destruct bc; cbn [List.filter isEncode length noEncode]; try lia.
Qed.

Lemma reportAll_noEncode (input : jsstring) (ps : list Q) :
  traced noEncode (reportAll opts input ps).
Proof.
  induction ps as [|p ps IH]; simpl; [apply traced_ret|].
  apply traced_bind; [|intros _; exact IH].
  unfold reportProgress. trace; exact I.
Qed.

Lemma attempt_count (env : TaskEnv) (args : EncodeArgs) (i : nat)
    (w : World) :
  encodeCount (attempt opts env args i w).2
  = (encodeCount w
     + if hasEncoder (extOut (format opts)) then 1 else 0)%nat.
Proof.
  unfold attempt. destruct (hasEncoder _); [|simpl; lia].
  rewrite !bind_run.
  rewrite (traced_preserves noEncode encodeCount (ret _));
    [|apply noEncode_count|apply traced_ret].
  rewrite (traced_preserves noEncode encodeCount (writeFile _ _));
    [|apply noEncode_count|by apply traced_writeFile].
  rewrite (traced_preserves noEncode encodeCount (reportAll _ _ _));
    [|apply noEncode_count|apply reportAll_noEncode].
  unfold encodeCount. cbn [call calls snd].
  rewrite List.filter_app, length_app. simpl. lia.
Qed.

Lemma attemptLoop_count (env : TaskEnv) (args : EncodeArgs) (n i : nat)
    (e : option jsstring) (w : World) :
  hasEncoder (extOut (format opts)) = true ->
  encodeCount (attemptLoop opts env args n i e w).2
  = (encodeCount w + attemptsMade (attemptFailure opts env) n i)%nat.
Proof.
  intros Henc. revert i e w.
  induction n as [|n IH]; intros i e w; simpl; [lia|].
  rewrite bind_run.
  pose proof (attempt_result env args i w) as Hr.
  pose proof (attempt_count env args i w) as Hc.
  destruct (attempt opts env args i w) as [r w1].
  cbn [fst snd] in Hr, Hc |- *. subst r. rewrite Henc in Hc.
  destruct (attemptFailure opts env i) as [err|].
  - rewrite IH. lia.
  - simpl. lia.
Qed.

Lemma tryBody_count (trimRange : TrimRange) (input out : jsstring)
    (env : TaskEnv) (w : World) :
  dryRun opts = false -> hasEncoder (extOut (format opts)) = true ->
  encodeCount (tryBody pf opts trimRange input out env w).2
  = (encodeCount w
     + attemptsMade (attemptFailure opts env) (attemptsOf opts) 0)%nat.
Proof.
  intros Hdry Henc. unfold tryBody. rewrite Hdry, !bind_run.
  assert (Hp : forall cover,
             traced noEncode (probeAndAttached pf opts input env cover)).
  { intros cover. unfold probeAndAttached, tryExtract. trace; exact I. }
  assert (Hf : forall cover temp,
             traced noEncode (frameFallback pf opts input env cover temp)).
  { intros cover temp. unfold frameFallback, tryExtract. trace; exact I. }
  assert (Hd : traced noEncode (reportDone opts input out)).
  { unfold reportDone. trace; exact I. }
  pose proof (traced_preserves noEncode encodeCount _ noEncode_count
                (traced_waitIfPaused noEncode (pausedPolls env)) w) as H0.
  destruct (waitIfPaused (pausedPolls env) w) as [[] w0].
  cbn [fst snd] in H0 |- *. rewrite <- H0. clear H0 w.
  pose proof (traced_preserves noEncode encodeCount _ noEncode_count
                (Hp (default ∅ (metadata opts) !! js "coverImagePath")) w0)
    as H1.
  destruct (probeAndAttached _ _ _ _ _ w0) as [[[autoTags cover1] temp1] w1].
  cbn [fst snd] in H1 |- *. rewrite <- H1. clear H1 w0.
  rewrite bind_run.
  pose proof (traced_preserves noEncode encodeCount _ noEncode_count
                (Hf cover1 temp1) w1) as H2.
  destruct (frameFallback _ _ _ _ _ _ w1) as [[cover temp] w2].
  cbn [fst snd] in H2 |- *. rewrite <- H2. clear H2 w1.
  rewrite bind_run.
  match goal with
  | |- context [attemptLoop opts ?env ?args ?n ?i ?e w2] =>
      pose proof (attemptLoop_count env args n i e w2 Henc) as H3;
      destruct (attemptLoop opts env args n i e w2) as [[okRun lastErr] w3]
  end.
  cbn [fst snd] in H3 |- *. rewrite <- H3. clear H3 w2.
  destruct okRun; [|reflexivity].
  rewrite bind_run.
  rewrite (traced_preserves noEncode encodeCount _ noEncode_count Hd).
  destruct temp as [tmp|]; [|reflexivity].
  apply (noEncode_count (AUnlink tmp)). exact I.
Qed.

Lemma runTask_count (trimRange : TrimRange) (total : nat)
    (input : jsstring) (w : World) :
  overwrite opts = true -> dryRun opts = false ->
  hasEncoder (extOut (format opts)) = true ->
  encodeCount (runTask pf opts trimRange total input w).2
  = (encodeCount w
     + attemptsMade (attemptFailure opts (taskEnv pf input))
         (attemptsOf opts) 0)%nat.
Proof.
  intros Hov Hdry Henc. unfold runTask. rewrite Hov, Hdry.
  cbn [negb when andb]. rewrite !bind_run.
  match goal with
  | |- context [tryBody pf opts trimRange input ?out ?env ?w1] =>
      pose proof (tryBody_count trimRange input out env w1 Hdry Henc) as Ht;
      assert (Hw1 : encodeCount w1 = encodeCount w)
        by (unfold when; destruct (onFileStart opts), (useBars opts);
            reflexivity);
      destruct (tryBody pf opts trimRange input out env w1) as [[res|e] w2]
  end; cbn [fst snd] in Ht |- *.
  - unfold ret. cbn [snd]. lia.
  - rewrite (traced_preserves noEncode encodeCount
               (catchBlock opts input _ e)); [lia|apply noEncode_count|].
    unfold catchBlock. trace; exact I.
Qed.

Lemma attemptsMade_bounds (fail : nat -> option jsstring) (n i : nat) :
  (attemptsMade fail n i <= n)%nat
  /\ (forall j, (j + 1 < attemptsMade fail n i)%nat ->
                 is_Some (fail (i + j)%nat))
  /\ ((0 < attemptsMade fail n i < n)%nat ->
      fail (i + attemptsMade fail n i - 1)%nat = None).
Proof.
  revert i. induction n as [|n IH]; intros i; simpl.
  - split; [lia|]. split; intros; lia.
  - destruct (fail i) as [err|] eqn:Hi.
    + destruct (IH (S i)) as (Hle & Hbefore & Hlast).
      split; [lia|]. split.
      * intros [|j] Hj; [rewrite Nat.add_0_r, Hi; eauto|].
        replace (i + S j)%nat with (S i + j)%nat by lia.
        apply Hbefore. lia.
      * intros Hlt.
        replace (i + S (attemptsMade fail n (S i)) - 1)%nat
          with (S i + attemptsMade fail n (S i) - 1)%nat by lia.
        apply Hlast. split; [|lia].
        destruct n as [|n']; [lia|]. simpl. lia.
    + split; [lia|]. split; [intros j Hj; lia|].
      intros _. by rewrite Nat.add_1_r, Nat.sub_succ, Nat.sub_0_r.
Qed.

(** X23. With [overwrite], outside a dry run and for a format with an
    encoder, the number of encodes a run starts is the sum over its
    candidates of the attempts made for each, and a candidate gets between
    one attempt and [attemptsOf]: the attempts go on while they fail, and
    stop at the first that resolves. *)
Theorem encodes_stop_at_the_first_success (inputs : list jsstring)
    (w : World) (trimRange : TrimRange) :
  overwrite opts = true -> dryRun opts = false ->
  hasEncoder (extOut (format opts)) = true ->
  parseTrim (trim opts) = Ok trimRange ->
  let made c :=
    attemptsMade (attemptFailure opts (taskEnv pf c)) (attemptsOf opts) 0 in
  encodeCount (convertPaths pf opts inputs w).2
  = (encodeCount w
     + sum_list (List.map made (candidatesOf pf (files w) inputs)))%nat
  /\ forall c,
       (1 <= made c <= attemptsOf opts)%nat
       /\ (forall i, (i + 1 < made c)%nat ->
                     is_Some (attemptFailure opts (taskEnv pf c) i))
       /\ ((made c < attemptsOf opts)%nat ->
           attemptFailure opts (taskEnv pf c) (made c - 1)%nat = None).
Proof.
  intros Hov Hdry Henc Htrim. cbv zeta. split.
  - unfold convertPaths.
    destruct (candidatesOf pf (files w) inputs) as [|c0 cs] eqn:Hcs;
      [simpl; lia|].
    rewrite bind_run, Htrim, bind_run.
    change (encodeCount w) with (encodeCount (pLimit
      (effectiveConcurrency (concurrency opts) (throttle opts) (cpus pf))
      w).2).
    generalize (pLimit
      (effectiveConcurrency (concurrency opts) (throttle opts) (cpus pf))
      w).2.
    generalize (length (c0 :: cs)). generalize (c0 :: cs). clear Hcs c0 cs.
    intros cs total. induction cs as [|c cs IH]; intros w1;
      [simpl; lia|].
    cbn [runTasks]. rewrite !bind_run. cbn [ret fst snd].
    cbn [ret fst snd] in IH. rewrite IH.
    rewrite runTask_count by done. simpl. lia.
  - intros c.
    pose proof attemptsOf_pos as Hpos.
    destruct (attemptsMade_bounds (attemptFailure opts (taskEnv pf c))
                (attemptsOf opts) 0) as (Hle & Hbefore & Hlast).
    assert (H1 : (1 <= attemptsMade (attemptFailure opts (taskEnv pf c))
                         (attemptsOf opts) 0)%nat).
    { destruct (attemptsOf opts); [lia|]. simpl. lia. }
    split; [lia|]. split; [exact Hbefore|].
    intros Hlt. apply Hlast. lia.
Qed.

(** *** Start indices *)

Lemma runTask_index (trimRange : TrimRange) (total : nat)
    (input : jsstring) (w : World) :
  onFileStart opts = true ->
  let w' := (runTask pf opts trimRange total input w).2 in
  (idxCounter w' = idxCounter w
   /\ startIndices (events w') = startIndices (events w))
  \/ (idxCounter w' = S (idxCounter w)
      /\ startIndices (events w')
         = startIndices (events w) ++ [idxCounter w]).
Proof.
  intros Hs. cbv zeta. unfold runTask. rewrite !bind_run.
  assert (Hm : forall b,
             idxCounter (when b (mkdirSync (outDirOf pf opts input)) w).2
             = idxCounter w
             /\ events (when b (mkdirSync (outDirOf pf opts input)) w).2
                = events w).
  { by intros []. }
  destruct (Hm (negb (dryRun opts))) as [Hi He].
  destruct (when _ _ w) as [[] w0]. cbn [fst snd] in Hi, He |- *.
  destruct (negb (overwrite opts) && _).
  { left. cbn [ret snd existsSync]. by rewrite Hi, He. }
  right. rewrite !bind_run.
  assert (Hb : useBars opts = false) by (unfold useBars; by rewrite Hs).
  rewrite Hs, Hb. cbn [when].
  match goal with
  | |- context [tryBody pf opts trimRange input ?out ?env ?w1] =>
      pose proof (traced_preserves bodyStep idxCounter _ bodyStep_idxCounter
                    (tryBody_body trimRange input out env) w1) as Ht1;
      pose proof (traced_preserves bodyStep
                    (fun w => startIndices (events w)) _
                    bodyStep_startIndices
                    (tryBody_body trimRange input out env) w1) as Ht2;
      destruct (tryBody pf opts trimRange input out env w1) as [r w2]
  end.
  cbn [fst snd nextIndex emit ret idxCounter events existsSync]
    in Ht1, Ht2 |- *.
  assert (Hend : idxCounter w2 = S (idxCounter w)
                 /\ startIndices (events w2)
                    = startIndices (events w) ++ [idxCounter w]).
  { rewrite Ht1, Ht2, Hi, He. split; [done|].
    unfold startIndices. by rewrite omap_app. }
  destruct r as [res|e]; [exact Hend|].
  rewrite (traced_preserves bodyStep idxCounter _ bodyStep_idxCounter
             (catchBlock_body input _ e)).
  rewrite (traced_preserves bodyStep (fun w => startIndices (events w)) _
             bodyStep_startIndices (catchBlock_body input _ e)).
  exact Hend.
Qed.

Lemma runTasks_index (trimRange : TrimRange) (total : nat)
    (cs : list jsstring) (w : World) :
  onFileStart opts = true ->
  let w' := (runTasks pf opts trimRange total cs w).2 in
  exists k, (k <= length cs)%nat
            /\ idxCounter w' = (idxCounter w + k)%nat
            /\ startIndices (events w')
               = startIndices (events w) ++ seq (idxCounter w) k.
Proof.
  intros Hs. cbv zeta. revert w.
  induction cs as [|c cs IH]; intros w.
  - exists 0%nat. simpl. split; [lia|]. split; [lia|]. by rewrite app_nil_r.
  - cbn [runTasks]. rewrite !bind_run. cbn [ret snd].
    pose proof (runTask_index trimRange total c w Hs) as Ht.
    cbv zeta in Ht.
    destruct (runTask pf opts trimRange total c w) as [r w1].
    cbn [fst snd] in Ht |- *.
    destruct (IH w1) as (k & Hk & Hi & He).
    destruct Ht as [[Hi1 He1]|[Hi1 He1]].
    + exists k. simpl. split; [lia|]. rewrite Hi, He, Hi1, He1. by split.
    + exists (S k). simpl. split; [lia|]. rewrite Hi, He, Hi1, He1.
      split; [lia|]. by rewrite <- app_assoc.
Qed.

(** X24. With the start callback supplied and the counter at 0, as it is at
    the start of every call, the indices handed to the callback are 0, 1, 2
    and so on in the order the start events are emitted, without gap or
    repetition; there are at most as many as candidates, so each index is
    below the total. *)
Theorem start_indices_count_the_started_files (inputs : list jsstring)
    (w : World) :
  onFileStart opts = true ->
  idxCounter w = 0%nat ->
  let run := convertPaths pf opts inputs w in
  exists k, (k <= length (candidatesOf pf (files w) inputs))%nat
            /\ startIndices (events run.2)
               = startIndices (events w) ++ seq 0 k.
Proof.
  intros Hs H0. cbv zeta. unfold convertPaths.
  destruct (candidatesOf pf (files w) inputs) as [|c0 cs] eqn:Hcs.
  { exists 0%nat. simpl. split; [lia|]. by rewrite app_nil_r. }
  rewrite bind_run.
  destruct (parseTrim (trim opts)) as [trimRange|e].
  2: { exists 0%nat. simpl. split; [lia|]. by rewrite app_nil_r. }
  rewrite bind_run. cbn [ret snd].
  match goal with
  | |- context [runTasks pf opts trimRange ?total ?l ?w1] =>
      destruct (runTasks_index trimRange total l w1 Hs) as (k & Hk & _ & He)
  end.
  exists k. split; [exact Hk|]. rewrite He. simpl. by rewrite H0.
Qed.

End Pipeline.

End ResultFacts.

(** ** Facts: the resume queue of the desktop shell *)

Module QueueFacts.
Import Regex Path Convert Task Spec Gui Props.

Lemma filter_filter (f g : jsstring -> bool) (l : list jsstring) :
  List.filter g (List.filter f l) = List.filter (fun x => f x && g x) l.
Proof.
  induction l as [|x l IH]; simpl; [done|].
  destruct (f x); simpl; [|exact IH]. destruct (g x); by rewrite IH.
Qed.

Lemma pending_fold (es : list Event) (q : Queue) :
  pending (fold_left onEventQueue es q)
  = List.filter (fun p => negb (reportedDone es p)) (pending q).
Proof.
  revert q. induction es as [|e es IH]; intros q; simpl.
  - induction (pending q) as [|p l IHl]; simpl; [done|]. by rewrite <- IHl.
  - rewrite IH.
    destruct e; simpl; try (apply List.filter_ext; intros p; reflexivity).
    rewrite filter_filter. apply List.filter_ext. intros p.
    by rewrite negb_orb.
Qed.

Lemma startConvert_queue (pf : Platform) (o : ConvertOptions) (q : Queue)
    (inputs : list jsstring) (w : World) (new : list Event) :
  events (convertPaths pf (handlerOptions o) (mergeInputs q inputs)
            (mkdirSync (outDir o) w).2).2 = events w ++ new ->
  (startConvert pf o true q inputs w).2
  = fold_left onEventQueue new (queueAtStart q inputs).
Proof.
  intros Hnew. unfold startConvert. cbn [snd]. rewrite Hnew.
  by rewrite drop_app_length.
Qed.

(** X25. With resume enabled, the paths pending after a run are the paths
    pending before it and the new inputs, each once, less those a done event
    was emitted for, whether it reported success or failure. *)
Theorem pending_shrinks_only_by_done_events (pf : Platform)
    (o : ConvertOptions) (q : Queue) (inputs : list jsstring) (w : World) :
  let run := startConvert pf o true q inputs w in
  let emitted := drop (length (events w)) (events run.1.2) in
  pending run.2
  = List.filter (fun p => negb (reportedDone emitted p))
      (mergeInputs q inputs)
  /\ NoDup (mergeInputs q inputs)
  /\ forall p, p ∈ mergeInputs q inputs <-> p ∈ pending q \/ p ∈ inputs.
Proof.
  cbv zeta. split; [|split].
  - unfold startConvert. cbn [fst snd]. by rewrite pending_fold.
  - apply ResolverFacts.NoDup_uniq.
  - intros p. unfold mergeInputs.
    rewrite ResolverFacts.elem_of_uniq, elem_of_app.
    split; [by intros [? _]|]. intros H. split; [done|].
    apply not_elem_of_nil.
Qed.

(** X26. A run in which every file is skipped, because its output is already
    there, succeeds for every file and yet leaves the queue as it was
    written at the start: nothing moves from pending to done. *)
Theorem skipped_files_stay_pending (pf : Platform) (o : ConvertOptions)
    (q : Queue) (inputs : list jsstring) (w : World) (trimRange : TrimRange) :
  overwrite o = false ->
  parseTrim (trim o) = Ok trimRange ->
  (forall c, c ∈ candidatesOf pf (files w) (mergeInputs q inputs) ->
             is_Some (files w !! outputOf pf (handlerOptions o) c)) ->
  let run := startConvert pf o true q inputs w in
  run.1.1 = Ok (List.map (fun c => doneResult c
                                     (outputOf pf (handlerOptions o) c))
                  (candidatesOf pf (files w) (mergeInputs q inputs)))
  /\ run.2 = queueAtStart q inputs.
Proof.
  intros Hov Htrim Hex. cbv zeta.
  destruct (TaskFacts.convertPaths_all_skipped pf (handlerOptions o)
              (mergeInputs q inputs) trimRange (mkdirSync (outDir o) w).2)
    as [Hr Hs]; [done|done|done|].
  split; [exact Hr|].
  rewrite (startConvert_queue pf o q inputs w []); [done|].
  destruct Hs as (_ & _ & -> & _). simpl. by rewrite app_nil_r.
Qed.

(** X27. A queued path that the converter does not take as a candidate (it
    is no media file, it is missing, or it is not the absolute path the
    converter resolves it to) is still pending after the run. *)
Theorem paths_that_are_no_candidates_stay_pending (pf : Platform)
    (o : ConvertOptions) (q : Queue) (inputs : list jsstring) (w : World)
    (p : jsstring) :
  p ∈ mergeInputs q inputs ->
  p ∉ candidatesOf pf (files w) (mergeInputs q inputs) ->
  p ∈ pending (startConvert pf o true q inputs w).2.
Proof.
  intros Hp Hno.
  destruct (RunProps.convertPaths_emitted pf (handlerOptions o)
              (mergeInputs q inputs) (mkdirSync (outDir o) w).2)
    as (new & Hnew & Hall).
  rewrite (startConvert_queue pf o q inputs w new) by exact Hnew.
  rewrite pending_fold. cbn [queueAtStart pending].
  apply list_elem_of_In, filter_In. split; [by apply list_elem_of_In|].
  apply negb_true_iff, not_true_iff_false. intros Hd.
  unfold reportedDone in Hd. apply existsb_exists in Hd as (e & He & Hp').
  rewrite Forall_forall in Hall.
  apply list_elem_of_In, Hall in He.
  destruct e; try discriminate.
  apply bool_decide_eq_true_1 in Hp'. subst input.
  destruct He as [[bound Hb]|(c & Hc & _ & -> & _)]; [discriminate|].
  by apply Hno.
Qed.

End QueueFacts.


(** ** Facts: where the candidates come from *)

Module SourceFacts.
Import Regex Path Convert Task Spec Props.

Section Sources.

Variable pf : Platform.

Lemma classify_closed (fs : gmap jsstring File) (inputs : list jsstring) :
  classify pf fs inputs
  = (List.map (absoluteOf pf)
       (List.filter (fun inp => truthy inp && isFile fs (absoluteOf pf inp))
          inputs),
     List.filter (fun inp => truthy inp
                             && negb (isFile fs (absoluteOf pf inp))
                             && isGlob inp) inputs).
Proof.
  induction inputs as [|inp rest IH]; [reflexivity|].
  cbn [classify List.filter]. rewrite IH.
  destruct (truthy inp); cbn [negb andb]; [|reflexivity].
  destruct (isFile fs (absoluteOf pf inp)); cbn [negb andb]; [reflexivity|].
  destruct (isGlob inp); reflexivity.
Qed.

(** X28. The paths that feed the candidate set are, in this order, the
    inputs that name an existing file, made absolute and in the order given,
    and then what the glob library returns; the library is asked only about
    the inputs that are not an existing file and hold a glob character, and
    not at all when there is none. An empty input, and one that is neither a
    file nor a pattern, is dropped without a word. *)
Theorem sources_are_the_files_then_the_glob_matches
    (fs : gmap jsstring File) (inputs : list jsstring) :
  let literal :=
    List.filter (fun inp => truthy inp && isFile fs (absoluteOf pf inp))
      inputs in
  let patterns :=
    List.filter (fun inp => truthy inp
                            && negb (isFile fs (absoluteOf pf inp))
                            && isGlob inp) inputs in
  sourcesOf pf fs inputs
  = List.map (absoluteOf pf) literal
    ++ match patterns with
       | [] => []
       | _ => fastGlob pf fs patterns
       end.
Proof. cbv zeta. unfold sourcesOf. by rewrite classify_closed. Qed.

Lemma uniq_sublist (seen l : list jsstring) : sublist (uniq seen l) l.
Proof.
  revert seen. induction l as [|x l IH]; intros seen; simpl.
  - constructor.
  - case_bool_decide.
    + apply sublist_cons, IH.
    + apply sublist_skip, IH.
Qed.

Lemma filter_sublist (f : jsstring -> bool) (l : list jsstring) :
  sublist (List.filter f l) l.
Proof.
  induction l as [|x l IH]; simpl; [constructor|].
  destruct (f x); [by apply sublist_skip|by apply sublist_cons].
Qed.

(** X29. The candidates come in the order of their sources: the candidate
    list is the source list with some entries left out, never reordered. So
    tasks are created, and results returned, for the literal files first and
    for the glob matches after them. *)
Theorem candidates_keep_the_order_of_the_sources
    (fs : gmap jsstring File) (inputs : list jsstring) :
  sublist (candidatesOf pf fs inputs) (sourcesOf pf fs inputs).
Proof.
  rewrite ResolverFacts.candidatesOf_sources.
  etransitivity; [apply filter_sublist|apply uniq_sublist].
Qed.

End Sources.

End SourceFacts.

(** ** Facts: the candidates as absolute paths of the inputs *)

Module ResolvedFacts.
Import Regex Path Convert Task Spec Props Demo Demo2.

Section Resolved.

Variable pf : Platform.

(** C9. Whatever the inputs, the candidate list holds no path twice, also
    when a file is named by a literal repeated, by a relative and an
    absolute literal, by several patterns, or by a literal and a pattern.
    Its members are exactly the paths with an extension of the media
    allow-list (compared in lower case) among these: the non-empty inputs
    that name an existing file, each resolved against the working
    directory unless it is a UNC or drive path, and the paths the glob
    library returns for the other non-empty inputs that hold a glob
    character.  On a disk with [a.mp4], [b.MKV] and [notes.txt] in
    [/work], the inputs [a.mp4], [/work/a.mp4], two patterns that both
    match [a.mp4], [notes.txt] and the empty string give [/work/a.mp4]
    and [/work/b.MKV], once each. *)
Theorem candidates_are_the_resolved_media_paths_once
    (fs : gmap jsstring File) (inputs : list jsstring) :
  let absolute inp :=
    if startsWith inp [92; 92]%N || test reDrive inp then inp
    else resolve pf (cwd pf) inp in
  let named inp := bool_decide (is_Some (fs !! absolute inp)) in
  let literal :=
    List.filter (fun inp => truthy inp && named inp) inputs in
  let patterns :=
    List.filter (fun inp => truthy inp && negb (named inp)
                            && test reGlob inp) inputs in
  let globbed :=
    match patterns with [] => [] | _ => fastGlob pf fs patterns end in
  NoDup (candidatesOf pf fs inputs)
  /\ (forall c, c ∈ candidatesOf pf fs inputs
                <-> (c ∈ List.map absolute literal \/ c ∈ globbed)
                    /\ toLowerCase (extname c) ∈ allowList)
  /\ candidatesOf (demoPlatform workGlobbed goodEnv) (files workDisk)
       workInputs
     = [js "/work/a.mp4"; js "/work/b.MKV"]
  /\ candidatesOf (demoPlatform [] goodEnv) (files workDisk)
       [js "a.mp4"; js "a.mp4"]
     = [js "/work/a.mp4"]
  /\ candidatesOf (demoPlatform [] goodEnv) (files driveDisk) [drivePath]
     = [drivePath].
Proof.
  cbv zeta. split; [apply ResolverFacts.candidatesOf_NoDup|].
  split; [|split; [|split]]; try (vm_compute; reflexivity).
  intros c. rewrite ResolverFacts.candidatesOf_sources.
  rewrite list_elem_of_In, filter_In, <- list_elem_of_In.
  rewrite ResolverFacts.elem_of_uniq, ResolverFacts.isMediaLike_allowList.
  unfold sourcesOf. rewrite SourceFacts.classify_closed.
  rewrite elem_of_app.
  split; [intros [[H _] ?]; by split|].
  intros [H ?]. split; [|done]. split; [exact H|apply not_elem_of_nil].
Qed.

End Resolved.

End ResolvedFacts.

(** ** Facts: which fields of the merged metadata follow [preferDetected] *)

Module MergeFacts.
Import Regex Path Convert Task Spec Props Demo Demo2.




End MergeFacts.

(** ** Facts: the patterns of the file-name heuristic, through the matcher *)

Module HeuristicFacts.
Import Regex RegexLoop Path Convert Task Spec Shapes.

(** *** The matcher, one construct at a time *)

Lemma m_seq s a b i c k :
  m s (Seq a b) i c k = m s a i c (fun j c' => m s b j c' k).
Proof. reflexivity. Qed.

Lemma m_group s n a i c k :
  m s (Group n a) i c k = m s a i c (fun j c' => k j ((n, (i, j)) :: c')).
Proof. reflexivity. Qed.

Lemma m_unit s p i c k :
  m s (Unit p) i c k
  = match s !! i with
    | Some u => if p u then k (S i) c else None
    | None => None
    end.
Proof. reflexivity. Qed.

Lemma m_bol s i c k : m s Bol i c k = if Nat.eqb i 0 then k i c else None.
Proof. reflexivity. Qed.

Lemma m_eol s i c k :
  m s Eol i c k = if Nat.eqb i (length s) then k i c else None.
Proof. reflexivity. Qed.

Lemma starLoop_unit_S s greedy p k n i c :
  starLoop s greedy (Unit p) k (S n) i c
  = let more :=
      match s !! i with
      | Some u => if p u then starLoop s greedy (Unit p) k n (S i) c else None
      | None => None
      end in
    if greedy then match more with Some x => Some x | None => k i c end
    else match k i c with Some x => Some x | None => more end.
Proof.
  cbn [starLoop]. rewrite !m_unit.
  assert (Hleb : Nat.leb (S i) i = false) by (apply Nat.leb_gt; lia).
  rewrite Hleb. reflexivity.
Qed.

(** *** Stars over one class *)

Lemma backtrack_top k c i d r :
  k (i + d)%nat c = Some r -> backtrack k c i d = Some r.
Proof.
  revert i. induction d as [|d IH]; intros i; simpl.
  - by rewrite Nat.add_0_r.
  - intros H. rewrite IH; [done|].
    by replace (S i + d)%nat with (i + S d)%nat by lia.
Qed.

(** A greedy star runs as far as its class holds and then gives the
    positions back one by one. *)
Lemma greedy_run s p k n i d c :
  (d < n)%nat ->
  (forall x, (i <= x < i + d)%nat -> exists u, s !! x = Some u /\ p u = true) ->
  match s !! (i + d)%nat with Some u => p u = false | None => True end ->
  starLoop s true (Unit p) k n i c = backtrack k c i d.
Proof.
  revert n i. induction d as [|d IH]; intros n i Hn Hrun Hend.
  - destruct n as [|n]; [lia|]. rewrite starLoop_unit_S. cbv zeta.
    rewrite Nat.add_0_r in Hend.
    destruct (s !! i) as [u|]; [rewrite Hend|]; reflexivity.
  - destruct n as [|n]; [lia|]. rewrite starLoop_unit_S. cbv zeta.
    destruct (Hrun i) as (u & -> & ->); [lia|].
    rewrite (IH n (S i)); [reflexivity|lia| |].
    + intros x Hx. apply Hrun. lia.
    + by replace (S i + d)%nat with (i + S d)%nat by lia.
Qed.

Lemma star_greedy_top s p k i e c r :
  (i <= e <= length s)%nat ->
  (forall x, (i <= x < e)%nat -> exists u, s !! x = Some u /\ p u = true) ->
  match s !! e with Some u => p u = false | None => True end ->
  k e c = Some r ->
  m s (Star true (Unit p)) i c k = Some r.
Proof.
  intros He Hrun Hend Hk. rewrite RegexFacts.m_star.
  rewrite (greedy_run s p k _ i (e - i)).
  - apply backtrack_top. by replace (i + (e - i))%nat with e by lia.
  - lia.
  - intros x Hx. apply Hrun. lia.
  - by replace (i + (e - i))%nat with e by lia.
Qed.

(** A greedy star whose continuation fails wherever the star can stop
    fails. *)
Lemma starLoop_greedy_fail s p k n i b c :
  (i <= b)%nat ->
  (forall x, (i <= x <= b)%nat -> k x c = None) ->
  (exists u, s !! b = Some u /\ p u = false) ->
  starLoop s true (Unit p) k n i c = None.
Proof.
  revert i. induction n as [|n IH]; intros i Hi Hk Hb.
  - simpl. apply Hk. lia.
  - rewrite starLoop_unit_S. cbv zeta.
    assert (Hki : k i c = None) by (apply Hk; lia).
    destruct (s !! i) as [u|] eqn:Hu; [|exact Hki].
    destruct (p u) eqn:Hp; [|exact Hki].
    rewrite IH; [exact Hki| | |exact Hb].
    + destruct (decide (i = b)) as [->|]; [|lia].
      destruct Hb as (u' & Hu' & Hp'). congruence.
    + intros x Hx. apply Hk.
      destruct (decide (i = b)) as [->|]; lia.
Qed.

Lemma star_greedy_fail s p k i b c :
  (i <= b)%nat ->
  (forall x, (i <= x <= b)%nat -> k x c = None) ->
  (exists u, s !! b = Some u /\ p u = false) ->
  m s (Star true (Unit p)) i c k = None.
Proof. intros. rewrite RegexFacts.m_star. by eapply starLoop_greedy_fail. Qed.

(** A greedy star whose continuation fails everywhere fails. *)
Lemma star_fail s greedy p k i c :
  (forall x, k x c = None) -> m s (Star greedy (Unit p)) i c k = None.
Proof.
  intros Hk. rewrite RegexFacts.m_star.
  generalize (S (length s - i)). intros n. revert i.
  induction n as [|n IH]; intros i; [apply Hk|].
  rewrite starLoop_unit_S. cbv zeta. rewrite Hk, IH.
  destruct greedy; by destruct (s !! i) as [u|]; [destruct (p u)|].
Qed.

(** A lazy star stops at the first position where its continuation
    succeeds. *)
Lemma starLoop_lazy_first s p k n i d c r :
  (d < n)%nat ->
  (forall x, (i <= x < i + d)%nat -> exists u, s !! x = Some u /\ p u = true) ->
  (forall x, (i <= x < i + d)%nat -> k x c = None) ->
  k (i + d)%nat c = Some r ->
  starLoop s false (Unit p) k n i c = Some r.
Proof.
  revert n i. induction d as [|d IH]; intros n i Hn Hrun Hfail Hhit.
  - destruct n as [|n]; [lia|]. rewrite starLoop_unit_S. cbv zeta.
    rewrite Nat.add_0_r in Hhit. by rewrite Hhit.
  - destruct n as [|n]; [lia|]. rewrite starLoop_unit_S. cbv zeta.
    rewrite Hfail by lia.
    destruct (Hrun i) as (u & -> & ->); [lia|].
    apply IH; [lia| | |].
    + intros x Hx. apply Hrun. lia.
    + intros x Hx. apply Hfail. lia.
    + by replace (S i + d)%nat with (i + S d)%nat by lia.
Qed.

Lemma star_lazy_first s p k i e c r :
  (i <= e <= length s)%nat ->
  (forall x, (i <= x < e)%nat -> exists u, s !! x = Some u /\ p u = true) ->
  (forall x, (i <= x < e)%nat -> k x c = None) ->
  k e c = Some r ->
  m s (Star false (Unit p)) i c k = Some r.
Proof.
  intros He Hrun Hfail Hhit. rewrite RegexFacts.m_star.
  apply (starLoop_lazy_first s p k _ i (e - i)).
  - lia.
  - intros x Hx. apply Hrun. lia.
  - intros x Hx. apply Hfail. lia.
  - by replace (i + (e - i))%nat with e by lia.
Qed.

(** *** The two-sided patterns *)

Lemma dash_shape : reArtistDashTitle = reSides (oneOf dashes).
Proof. reflexivity. Qed.

Lemma underscore_shape : reArtistUnderscoreTitle = reSides (eqU 95).
Proof. reflexivity. Qed.

Section Sides.

Variable sep : N -> bool.
Variable s : jsstring.

(** The left side ends at [la], the separator sits at [e1] and the right
    side starts at [e2]. *)
Variables la e1 e2 : nat.

Hypothesis bounds : (0 < la <= e1)%nat /\ (e1 < e2 < length s)%nat.
Hypothesis left_side :
  forall x, (x < la)%nat ->
    exists u, s !! x = Some u /\ isLineTerminator u = false /\ sep u = false.
Hypothesis left_end :
  exists u, s !! (la - 1)%nat = Some u /\ isSpace u = false.
Hypothesis space_before :
  forall x, (la <= x < e1)%nat -> exists u, s !! x = Some u /\ isSpace u = true.
Hypothesis separator :
  exists u, s !! e1 = Some u /\ sep u = true /\ isSpace u = false.
Hypothesis space_after :
  forall x, (e1 < x < e2)%nat -> exists u, s !! x = Some u /\ isSpace u = true.
Hypothesis right_start :
  exists u, s !! e2 = Some u /\ isSpace u = false.
Hypothesis right_side :
  forall x, (e2 <= x < length s)%nat ->
    exists u, s !! x = Some u /\ isLineTerminator u = false.

Lemma sides_matchAt :
  matchAt (reSides sep) s 0
  = Some (length s, [(2%nat, (e2, length s)); (1%nat, (0%nat, la))]).
Proof.
  destruct bounds as [[Hla He1] [He2 Hlen]].
  unfold matchAt, reSides. cbn [seqs]. unfold plus, dot, ws.
  rewrite m_seq, m_bol. cbn [Nat.eqb].
  rewrite m_seq, m_group, m_seq, m_unit.
  destruct (left_side 0%nat) as (u0 & -> & -> & _); [lia|]. cbn [negb].
  apply (star_lazy_first s _ _ 1 la).
  - lia.
  - intros x Hx. destruct (left_side x) as (u & Hu & Hlt & _); [lia|].
    exists u. by rewrite Hlt.
  - intros x Hx. cbv beta. rewrite m_seq.
    apply (star_greedy_fail s isSpace _ x (la - 1)); [lia| |exact left_end].
    intros y Hy. rewrite m_seq, m_unit.
    destruct (left_side y) as (u & -> & _ & ->); [lia|]. reflexivity.
  - cbv beta. rewrite m_seq.
    apply (star_greedy_top s isSpace _ la e1).
    + lia.
    + exact space_before.
    + destruct separator as (u & -> & _ & Hu). exact Hu.
    + rewrite m_seq, m_unit.
      destruct separator as (u & -> & -> & _).
      rewrite m_seq.
      apply (star_greedy_top s isSpace _ (S e1) e2).
      * lia.
      * intros x Hx. apply space_after. lia.
      * destruct right_start as (u' & -> & Hu'). exact Hu'.
      * rewrite m_seq, m_group, m_seq, m_unit.
        destruct (right_side e2) as (u' & -> & ->); [lia|]. cbn [negb].
        apply (star_greedy_top s _ _ (S e2) (length s)).
        -- lia.
        -- intros x Hx. destruct (right_side x) as (u2 & Hu2 & Hlt); [lia|].
           exists u2. by rewrite Hlt.
        -- by rewrite (proj2 (lookup_ge_None s (length s))) by lia.
        -- rewrite m_eol, Nat.eqb_refl. reflexivity.
Qed.

Lemma sides_match2 :
  match2 (reSides sep) s = Some (take la s, drop e2 s).
Proof.
  unfold match2, exec, execAfter. cbn [Nat.ltb Nat.leb].
  assert (Hex : forall fuel,
             execFrom (reSides sep) s fuel 0
             = Some (0%nat, length s,
                     [(2%nat, (e2, length s)); (1%nat, (0%nat, la))])).
  { intros fuel. destruct fuel; simpl; by rewrite sides_matchAt. }
  rewrite Hex. unfold group. cbn [capLookup Nat.eqb]. unfold slice.
  cbn [default]. rewrite drop_0, Nat.sub_0_r.
  by rewrite (take_ge (drop e2 s)) by (rewrite length_drop; lia).
Qed.

End Sides.

(** A name made of a left side, white space, a separator, white space
    and a right side is split into its two sides. *)
Lemma sides_of_name (sep : N -> bool) (a w1 : jsstring) (d : N)
    (w2 t : jsstring) :
  a <> [] ->
  Forall (fun u => isLineTerminator u = false /\ sep u = false) a ->
  (forall u, last a = Some u -> isSpace u = false) ->
  Forall (fun u => isSpace u = true) w1 ->
  sep d = true -> isSpace d = false ->
  Forall (fun u => isSpace u = true) w2 ->
  t <> [] ->
  (forall u, head t = Some u -> isSpace u = false) ->
  Forall (fun u => isLineTerminator u = false) t ->
  match2 (reSides sep) (a ++ w1 ++ d :: w2 ++ t) = Some (a, t).
Proof.
  intros Ha Hleft Hlast Hw1 Hd Hdspace Hw2 Ht Hhead Hright.
  set (s := a ++ w1 ++ d :: w2 ++ t).
  assert (Hlen : length s
                 = (length a + (length w1 + S (length w2 + length t)))%nat).
  { unfold s. rewrite !length_app. simpl. by rewrite length_app. }
  assert (Hla : (0 < length a)%nat) by (destruct a; [done|simpl; lia]).
  assert (Hlt : (0 < length t)%nat) by (destruct t; [done|simpl; lia]).
  assert (L1 : forall x, (x < length a)%nat -> s !! x = a !! x).
  { intros x Hx. unfold s. by rewrite lookup_app_l. }
  assert (L2 : forall x, (length a <= x < length a + length w1)%nat ->
                         s !! x = w1 !! (x - length a)%nat).
  { intros x Hx. unfold s. rewrite lookup_app_r by lia.
    by rewrite lookup_app_l by lia. }
  assert (L3 : forall x, (length a + length w1 <= x)%nat ->
                 s !! x = (d :: w2 ++ t) !! (x - length a - length w1)%nat).
  { intros x Hx. unfold s. rewrite lookup_app_r by lia.
    by rewrite lookup_app_r by lia. }
  assert (L4 : forall x, (length a + length w1 < x)%nat ->
                 s !! x = (w2 ++ t) !! (x - length a - length w1 - 1)%nat).
  { intros x Hx. rewrite L3 by lia. rewrite lookup_cons_ne_0 by lia.
    f_equal. lia. }
  rewrite (sides_match2 sep s (length a) (length a + length w1)
             (S (length a + length w1 + length w2))).
  - f_equal. f_equal.
    + unfold s. by rewrite take_app_length.
    + unfold s. rewrite drop_app_ge by lia. rewrite drop_app_ge by lia.
      replace (S (length a + length w1 + length w2) - length a - length w1)%nat
        with (S (length w2)) by lia.
      cbn [drop]. by rewrite drop_app_length.
  - lia.
  - intros x Hx. rewrite L1 by done.
    destruct (lookup_lt_is_Some_2 a x Hx) as [u Hu]. exists u.
    split; [done|]. rewrite Forall_lookup in Hleft. by apply (Hleft x).
  - rewrite L1 by lia. rewrite last_lookup in Hlast.
    replace (pred (length a)) with (length a - 1)%nat in Hlast by lia.
    destruct (lookup_lt_is_Some_2 a (length a - 1)) as [u Hu]; [lia|].
    exists u. split; [done|]. by apply Hlast.
  - intros x Hx. rewrite L2 by done.
    destruct (lookup_lt_is_Some_2 w1 (x - length a)) as [u Hu]; [lia|].
    exists u. split; [done|]. rewrite Forall_lookup in Hw1.
    by apply (Hw1 (x - length a)%nat).
  - exists d. rewrite L3 by lia.
    replace (length a + length w1 - length a - length w1)%nat with 0%nat
      by lia.
    by split.
  - intros x Hx. rewrite L4 by lia. rewrite lookup_app_l by lia.
    destruct (lookup_lt_is_Some_2 w2 (x - length a - length w1 - 1))
      as [u Hu]; [lia|].
    exists u. split; [done|]. rewrite Forall_lookup in Hw2.
    by apply (Hw2 (x - length a - length w1 - 1)%nat).
  - rewrite L4 by lia. rewrite lookup_app_r by lia.
    replace (S (length a + length w1 + length w2) - length a - length w1 - 1
             - length w2)%nat with 0%nat by lia.
    destruct t as [|u t']; [done|]. exists u.
    split; [done|]. by apply Hhead.
  - intros x Hx. rewrite L4 by lia. rewrite lookup_app_r by lia.
    destruct (lookup_lt_is_Some_2 t
                (x - length a - length w1 - 1 - length w2)) as [u Hu];
      [lia|].
    exists u. split; [done|]. rewrite Forall_lookup in Hright.
    by apply (Hright (x - length a - length w1 - 1 - length w2)%nat).
Qed.

(** *** Names the two-sided patterns do not match *)

Lemma execFrom_none r s fuel i :
  (forall j, matchAt r s j = None) -> execFrom r s fuel i = None.
Proof.
  intros Hno. revert i. induction fuel as [|fuel IH]; intros i; simpl;
    rewrite Hno; [done|apply IH].
Qed.

Lemma match2_none r s :
  (forall j, matchAt r s j = None) -> match2 r s = None.
Proof.
  intros Hno. unfold match2, exec, execAfter.
  destruct (Nat.ltb (length s) 0); [done|]. by rewrite execFrom_none.
Qed.

(** Without a separator in the name there is no match. *)
Lemma sides_need_a_separator (sep : N -> bool) (s : jsstring) :
  Forall (fun u => sep u = false) s -> match2 (reSides sep) s = None.
Proof.
  intros Hno. apply match2_none. intros j.
  unfold matchAt, reSides. cbn [seqs]. unfold plus, dot, ws.
  rewrite m_seq, m_bol. destruct (Nat.eqb j 0); [|done].
  rewrite m_seq, m_group, m_seq, m_unit.
  destruct (s !! j) as [u|]; [|done]. destruct (negb _); [|done].
  apply star_fail. intros x. rewrite m_seq.
  apply star_fail. intros y. rewrite m_seq, m_unit.
  destruct (s !! y) as [v|] eqn:Hv; [|done].
  rewrite Forall_lookup in Hno. by rewrite (Hno y v Hv).
Qed.

(** Without white space in the name [Title by Artist] does not match. *)
Lemma by_needs_white_space (s : jsstring) :
  Forall (fun u => isSpace u = false) s -> match2 reTitleByArtist s = None.
Proof.
  intros Hno. apply match2_none. intros j.
  unfold matchAt, reTitleByArtist. cbn [seqs]. unfold plus, dot, ws.
  rewrite m_seq, m_bol. destruct (Nat.eqb j 0); [|done].
  rewrite m_seq, m_group, m_seq, m_unit.
  destruct (s !! j) as [u|]; [|done]. destruct (negb _); [|done].
  apply star_fail. intros x. rewrite !m_seq, m_unit.
  destruct (s !! x) as [v|] eqn:Hv; [|done].
  rewrite Forall_lookup in Hno. by rewrite (Hno x v Hv).
Qed.

(** *** [Title by Artist] *)

Section By.

Variable s : jsstring.

(** The title ends at [la], the word [by] sits at [e1] and the artist
    starts at [e2]. *)
Variables la e1 e2 : nat.

Hypothesis bounds : (0 < la < e1)%nat /\ (e1 + 2 < e2 < length s)%nat.
Hypothesis title_side :
  forall x, (x < la)%nat -> exists u, s !! x = Some u /\ isSpace u = false.
Hypothesis space_before :
  forall x, (la <= x < e1)%nat -> exists u, s !! x = Some u /\ isSpace u = true.
Hypothesis letter_b :
  exists u, s !! e1 = Some u /\ lowerUnit u = 98%N.
Hypothesis letter_y :
  exists u, s !! (S e1) = Some u /\ lowerUnit u = 121%N.
Hypothesis space_after :
  forall x, (e1 + 2 <= x < e2)%nat ->
    exists u, s !! x = Some u /\ isSpace u = true.
Hypothesis artist_start :
  exists u, s !! e2 = Some u /\ isSpace u = false.
Hypothesis artist_side :
  forall x, (e2 <= x < length s)%nat ->
    exists u, s !! x = Some u /\ isLineTerminator u = false.

Lemma isSpace_false_not_terminator u :
  isSpace u = false -> isLineTerminator u = false.
Proof.
  unfold isSpace. destruct (isLineTerminator u); [|done].
  by rewrite !orb_true_l.
Qed.

Lemma by_matchAt :
  matchAt reTitleByArtist s 0
  = Some (length s, [(2%nat, (e2, length s)); (1%nat, (0%nat, la))]).
Proof.
  destruct bounds as [[Hla He1] [He2 Hlen]].
  unfold matchAt, reTitleByArtist. cbn [seqs]. unfold plus, dot, ws.
  change (litCI (js "by")) with (Seq (Unit (eqCI 98)) (Unit (eqCI 121))).
  rewrite m_seq, m_bol. cbn [Nat.eqb].
  rewrite m_seq, m_group, m_seq, m_unit.
  destruct (title_side 0%nat) as (u0 & -> & Hu0); [lia|].
  rewrite (isSpace_false_not_terminator _ Hu0). cbn [negb].
  apply (star_lazy_first s _ _ 1 la).
  - lia.
  - intros x Hx. destruct (title_side x) as (u & Hu & Hsp); [lia|].
    exists u. by rewrite (isSpace_false_not_terminator _ Hsp).
  - intros x Hx. cbv beta. rewrite !m_seq, m_unit.
    destruct (title_side x) as (u & -> & ->); [lia|]. reflexivity.
  - cbv beta. rewrite !m_seq, m_unit.
    destruct (space_before la) as (u & -> & ->); [lia|].
    apply (star_greedy_top s isSpace _ (S la) e1).
    + lia.
    + intros x Hx. apply space_before. lia.
    + destruct letter_b as (u' & -> & Hb). unfold isSpace.
      assert (Hu' : u' = 98%N \/ u' = 66%N).
      { unfold lowerUnit, isUpper in Hb.
        destruct ((65 <=? u') && (u' <=? 90))%N eqn:Hup; [right|left]; lia. }
      by destruct Hu' as [-> | ->].
    + rewrite !m_seq, m_unit.
      destruct letter_b as (ub & -> & Hb). unfold eqCI at 1.
      rewrite Hb. cbn [lowerUnit isUpper N.leb N.compare andb N.eqb].
      change ((98 =? 98)%N) with true. cbv iota.
      rewrite m_unit.
      destruct letter_y as (uy & -> & Hy). unfold eqCI at 1.
      rewrite Hy. change ((121 =? lowerUnit 121)%N) with true. cbv iota.
      rewrite !m_seq, m_unit.
      replace (S (S e1)) with (e1 + 2)%nat by lia.
      destruct (space_after (e1 + 2)%nat) as (u2 & -> & ->); [lia|].
      apply (star_greedy_top s isSpace _ (S (e1 + 2)) e2).
      * lia.
      * intros x Hx. apply space_after. lia.
      * destruct artist_start as (u' & -> & Hu'). exact Hu'.
      * rewrite m_seq, m_group, m_seq, m_unit.
        destruct (artist_side e2) as (u' & -> & ->); [lia|]. cbn [negb].
        apply (star_greedy_top s _ _ (S e2) (length s)).
        -- lia.
        -- intros x Hx. destruct (artist_side x) as (u3 & Hu3 & Hlt); [lia|].
           exists u3. by rewrite Hlt.
        -- by rewrite (proj2 (lookup_ge_None s (length s))) by lia.
        -- rewrite m_eol, Nat.eqb_refl. reflexivity.
Qed.

Lemma by_match2 :
  match2 reTitleByArtist s = Some (take la s, drop e2 s).
Proof.
  unfold match2, exec, execAfter. cbn [Nat.ltb Nat.leb].
  assert (Hex : forall fuel,
             execFrom reTitleByArtist s fuel 0
             = Some (0%nat, length s,
                     [(2%nat, (e2, length s)); (1%nat, (0%nat, la))])).
  { intros fuel. destruct fuel; simpl; by rewrite by_matchAt. }
  rewrite Hex. unfold group. cbn [capLookup Nat.eqb]. unfold slice.
  cbn [default]. rewrite drop_0, Nat.sub_0_r.
  by rewrite (take_ge (drop e2 s)) by (rewrite length_drop; lia).
Qed.

End By.

(** [Title by Artist] with white space on both sides of the word. *)
Lemma by_of_name (a w1 : jsstring) (b y : N) (w2 t : jsstring) :
  a <> [] ->
  Forall (fun u => isSpace u = false) a ->
  w1 <> [] ->
  Forall (fun u => isSpace u = true) w1 ->
  lowerUnit b = 98%N -> lowerUnit y = 121%N ->
  w2 <> [] ->
  Forall (fun u => isSpace u = true) w2 ->
  t <> [] ->
  (forall u, head t = Some u -> isSpace u = false) ->
  Forall (fun u => isLineTerminator u = false) t ->
  match2 reTitleByArtist (a ++ w1 ++ b :: y :: w2 ++ t) = Some (a, t).
Proof.
  intros Ha Hleft Hn1 Hw1 Hb Hy Hn2 Hw2 Ht Hhead Hright.
  set (s := a ++ w1 ++ b :: y :: w2 ++ t).
  assert (Hlen : length s
            = (length a + (length w1 + S (S (length w2 + length t))))%nat).
  { unfold s. rewrite !length_app. simpl. by rewrite length_app. }
  assert (Hla : (0 < length a)%nat) by (destruct a; [done|simpl; lia]).
  assert (Hl1 : (0 < length w1)%nat) by (destruct w1; [done|simpl; lia]).
  assert (Hl2 : (0 < length w2)%nat) by (destruct w2; [done|simpl; lia]).
  assert (Hlt : (0 < length t)%nat) by (destruct t; [done|simpl; lia]).
  assert (L1 : forall x, (x < length a)%nat -> s !! x = a !! x).
  { intros x Hx. unfold s. by rewrite lookup_app_l. }
  assert (L2 : forall x, (length a <= x < length a + length w1)%nat ->
                         s !! x = w1 !! (x - length a)%nat).
  { intros x Hx. unfold s. rewrite lookup_app_r by lia.
    by rewrite lookup_app_l by lia. }
  assert (L3 : forall x, (length a + length w1 <= x)%nat ->
             s !! x = (b :: y :: w2 ++ t) !! (x - length a - length w1)%nat).
  { intros x Hx. unfold s. rewrite lookup_app_r by lia.
    by rewrite lookup_app_r by lia. }
  assert (L4 : forall x, (length a + length w1 + 2 <= x)%nat ->
             s !! x = (w2 ++ t) !! (x - length a - length w1 - 2)%nat).
  { intros x Hx. rewrite L3 by lia. rewrite lookup_cons_ne_0 by lia.
    rewrite lookup_cons_ne_0 by lia. f_equal. lia. }
  rewrite (by_match2 s (length a) (length a + length w1)
             (length a + length w1 + 2 + length w2)).
  - f_equal. f_equal.
    + unfold s. by rewrite take_app_length.
    + unfold s. rewrite drop_app_ge by lia. rewrite drop_app_ge by lia.
      replace (length a + length w1 + 2 + length w2 - length a
               - length w1)%nat with (S (S (length w2))) by lia.
      cbn [drop]. by rewrite drop_app_length.
  - lia.
  - intros x Hx. rewrite L1 by done.
    destruct (lookup_lt_is_Some_2 a x Hx) as [u Hu]. exists u.
    split; [done|]. rewrite Forall_lookup in Hleft. by apply (Hleft x).
  - intros x Hx. rewrite L2 by done.
    destruct (lookup_lt_is_Some_2 w1 (x - length a)) as [u Hu]; [lia|].
    exists u. split; [done|]. rewrite Forall_lookup in Hw1.
    by apply (Hw1 (x - length a)%nat).
  - exists b. rewrite L3 by lia.
    replace (length a + length w1 - length a - length w1)%nat with 0%nat
      by lia.
    by split.
  - exists y. rewrite L3 by lia.
    replace (S (length a + length w1) - length a - length w1)%nat
      with 1%nat by lia.
    by split.
  - intros x Hx. rewrite L4 by lia. rewrite lookup_app_l by lia.
    destruct (lookup_lt_is_Some_2 w2 (x - length a - length w1 - 2))
      as [u Hu]; [lia|].
    exists u. split; [done|]. rewrite Forall_lookup in Hw2.
    by apply (Hw2 (x - length a - length w1 - 2)%nat).
  - rewrite L4 by lia. rewrite lookup_app_r by lia.
    replace (length a + length w1 + 2 + length w2 - length a - length w1 - 2
             - length w2)%nat with 0%nat by lia.
    destruct t as [|u t']; [done|]. exists u.
    split; [done|]. by apply Hhead.
  - intros x Hx. rewrite L4 by lia. rewrite lookup_app_r by lia.
    destruct (lookup_lt_is_Some_2 t
                (x - length a - length w1 - 2 - length w2)) as [u Hu];
      [lia|].
    exists u. split; [done|]. rewrite Forall_lookup in Hright.
    by apply (Hright (x - length a - length w1 - 2 - length w2)%nat).
Qed.

(** *** The split without a dash *)

Lemma splitByGo_none r s fuel p q :
  (forall j, matchAt r s j = None) -> splitByGo r s fuel p q = [drop p s].
Proof.
  intros Hno. revert q. induction fuel as [|fuel IH]; intros q; simpl;
    [done|].
  destruct (Nat.leb (length s) q); [done|]. by rewrite Hno.
Qed.

Lemma splitBy_none r s :
  (forall j, matchAt r s j = None) -> Regex.splitBy r s = [s].
Proof.
  intros Hno. unfold Regex.splitBy. destruct s as [|u s'].
  - by rewrite Hno.
  - by rewrite splitByGo_none.
Qed.

Lemma split_needs_a_dash (s : jsstring) :
  Forall (fun u => oneOf dashes u = false) s -> Regex.splitBy reDash s = [s].
Proof.
  intros Hno. apply splitBy_none. intros j.
  unfold matchAt, reDash. cbn [seqs]. unfold ws.
  rewrite m_seq. apply star_fail. intros x. rewrite m_seq, m_unit.
  destruct (s !! x) as [v|] eqn:Hv; [|done].
  rewrite Forall_lookup in Hno. by rewrite (Hno x v Hv).
Qed.

(** *** From the shapes to the facts about code units *)

Lemma forallb_Forall_true {A} (f : A -> bool) (l : list A) :
  forallb f l = true -> Forall (fun u => f u = true) l.
Proof.
  induction l as [|u l IH]; simpl; intros H; [constructor|].
  apply andb_prop in H. destruct H. constructor; auto.
Qed.

Lemma blank_spaces w : blank w = true -> Forall (fun u => isSpace u = true) w.
Proof. apply forallb_Forall_true. Qed.

Lemma solid_units a : solid a = true -> Forall (fun u => isSpace u = false) a.
Proof.
  intros H. apply forallb_Forall_true in H.
  eapply Forall_impl; [exact H|]. intros u Hu. by apply negb_true_iff.
Qed.

Lemma oneLine_units t :
  oneLine t = true -> Forall (fun u => isLineTerminator u = false) t.
Proof.
  intros H. apply forallb_Forall_true in H.
  eapply Forall_impl; [exact H|]. intros u Hu. by apply negb_true_iff.
Qed.

Lemma without_units cs a :
  without cs a = true -> Forall (fun u => oneOf cs u = false) a.
Proof.
  intros H. apply forallb_Forall_true in H.
  eapply Forall_impl; [exact H|]. intros u Hu. by apply negb_true_iff.
Qed.

Lemma tightStart_head t :
  tightStart t = true -> forall u, head t = Some u -> isSpace u = false.
Proof.
  unfold tightStart. intros H u Hu. rewrite Hu in H. by apply negb_true_iff.
Qed.

Lemma tightEnd_last a :
  tightEnd a = true -> forall u, last a = Some u -> isSpace u = false.
Proof.
  unfold tightEnd. intros H u Hu. rewrite Hu in H. by apply negb_true_iff.
Qed.

Lemma truthy_not_nil (a : jsstring) : truthy a = true -> a <> [].
Proof. by destruct a. Qed.

Lemma solid_tight a : solid a = true -> tightStart a = true /\ tightEnd a = true.
Proof.
  intros H. apply solid_units in H. unfold tightStart, tightEnd. split.
  - destruct a as [|u a']; [done|]. simpl. apply Forall_inv in H.
    by rewrite H.
  - destruct (last a) as [u|] eqn:Hu; [|done].
    rewrite last_lookup in Hu. rewrite Forall_lookup in H.
    by rewrite (H _ _ Hu).
Qed.

Lemma solid_oneLine a : solid a = true -> oneLine a = true.
Proof.
  unfold solid, oneLine. intros H. apply forallb_forall.
  intros u Hu. rewrite forallb_forall in H. specialize (H u Hu).
  apply negb_true_iff in H. apply negb_true_iff.
  by apply isSpace_false_not_terminator.
Qed.

Lemma dash_cases u : oneOf dashes u = true -> u = 45%N \/ u = 8211%N.
Proof.
  unfold oneOf, dashes. cbn [existsb]. rewrite orb_false_r.
  intros H. apply orb_prop in H. destruct H as [H|H];
    apply N.eqb_eq in H; auto.
Qed.

Lemma dash_not_space u : oneOf dashes u = true -> isSpace u = false.
Proof. intros H. by destruct (dash_cases u H) as [-> | ->]. Qed.

Lemma space_not_dash u : isSpace u = true -> oneOf dashes u = false.
Proof.
  intros H. destruct (oneOf dashes u) eqn:Hd; [|done].
  apply dash_not_space in Hd. congruence.
Qed.

Lemma letter_cases u c :
  lowerUnit u = c -> isUpper c = false -> u = c \/ (u + 32 = c)%N.
Proof.
  unfold lowerUnit. destruct (isUpper u); intros <-; auto.
Qed.

Lemma by_not_dash b y :
  lowerUnit b = 98%N -> lowerUnit y = 121%N ->
  oneOf dashes b = false /\ oneOf dashes y = false.
Proof.
  intros Hb Hy.
  destruct (letter_cases b 98 Hb eq_refl) as [-> | Hb'];
    destruct (letter_cases y 121 Hy eq_refl) as [-> | Hy'];
    try (replace b with 66%N by lia); try (replace y with 89%N by lia);
    done.
Qed.

Lemma without_cons c cs a :
  without (c :: cs) a = true ->
  Forall (fun u => eqU c u = false) a /\ without cs a = true.
Proof.
  unfold without. induction a as [|u a IH]; simpl; intros H; [by split|].
  apply andb_prop in H. destruct H as [Hu Ha].
  apply negb_true_iff in Hu. unfold oneOf in Hu. cbn [existsb] in Hu.
  apply orb_false_elim in Hu. destruct Hu as [Hc Hcs].
  destruct (IH Ha) as [IH1 IH2]. split.
  - constructor; [exact Hc|exact IH1].
  - unfold oneOf at 1. by rewrite Hcs, IH2.
Qed.

Ltac bools :=
  repeat match goal with
         | H : (_ && _) = true |- _ =>
             apply andb_prop in H; destruct H
         end.

(** *** The heuristic on names of each shape *)

Lemma dashed_name a w1 d w2 t :
  truthy a && oneLine a && without dashes a && tightEnd a = true ->
  blank w1 && oneOf dashes d && blank w2 = true ->
  truthy t && oneLine t && tightStart t = true ->
  match2 reArtistDashTitle (a ++ w1 ++ d :: w2 ++ t) = Some (a, t).
Proof.
  intros Ha Hd Ht. bools. rewrite dash_shape. apply sides_of_name.
  - by apply truthy_not_nil.
  - apply Forall_and. split; [by apply oneLine_units|by apply without_units].
  - by apply tightEnd_last.
  - by apply blank_spaces.
  - done.
  - by apply dash_not_space.
  - by apply blank_spaces.
  - by apply truthy_not_nil.
  - by apply tightStart_head.
  - by apply oneLine_units.
Qed.

Lemma detect_dashed s a t :
  match2 reArtistDashTitle s = Some (a, t) ->
  truthy (scrub a) && truthy (scrub t) = true ->
  detectFromFilename s = guessed (scrub a) (scrub t).
Proof.
  intros Hm Hs. unfold detectFromFilename. rewrite Hm. cbv zeta.
  by rewrite Hs.
Qed.

Lemma detect_by s a t :
  match2 reArtistDashTitle s = None ->
  match2 reTitleByArtist s = Some (t, a) ->
  truthy (scrub a) && truthy (scrub t) = true ->
  detectFromFilename s = guessed (scrub a) (scrub t).
Proof.
  intros Hm1 Hm Hs. unfold detectFromFilename. rewrite Hm1, Hm. cbv zeta.
  by rewrite Hs.
Qed.

Lemma detect_underscored s a t :
  match2 reArtistDashTitle s = None ->
  match2 reTitleByArtist s = None ->
  match2 reArtistUnderscoreTitle s = Some (a, t) ->
  truthy (scrub a) && truthy (scrub t) = true ->
  detectFromFilename s = guessed (scrub a) (scrub t).
Proof.
  intros Hm1 Hm2 Hm Hs. unfold detectFromFilename. rewrite Hm1, Hm2, Hm.
  cbv zeta. by rewrite Hs.
Qed.

Lemma by_name a w1 b y w2 t :
  truthy a && solid a && without dashes a = true ->
  truthy w1 && blank w1 && (lowerUnit b =? 98)%N && (lowerUnit y =? 121)%N
    && truthy w2 && blank w2 = true ->
  truthy t && oneLine t && tightStart t && without dashes t = true ->
  match2 reArtistDashTitle (a ++ w1 ++ b :: y :: w2 ++ t) = None
  /\ match2 reTitleByArtist (a ++ w1 ++ b :: y :: w2 ++ t) = Some (a, t).
Proof.
  intros Ha Hby Ht. bools.
  repeat match goal with
         | H : (_ =? _)%N = true |- _ => apply N.eqb_eq in H
         end.
  split.
  - rewrite dash_shape. apply sides_need_a_separator.
    destruct (by_not_dash b y) as [Hb Hy]; [done|done|].
    repeat (apply Forall_app; split); try by apply without_units.
    + eapply Forall_impl; [by apply blank_spaces|]. apply space_not_dash.
    + repeat constructor; [exact Hb|exact Hy|].
      apply Forall_app; split; [|by apply without_units].
      eapply Forall_impl; [by apply blank_spaces|]. apply space_not_dash.
  - apply by_of_name; try done.
    + by apply truthy_not_nil.
    + by apply solid_units.
    + by apply truthy_not_nil.
    + by apply blank_spaces.
    + by apply truthy_not_nil.
    + by apply blank_spaces.
    + by apply truthy_not_nil.
    + by apply tightStart_head.
    + by apply oneLine_units.
Qed.

Lemma underscored_name a t :
  truthy a && solid a && without (underscore :: dashes) a = true ->
  truthy t && solid t && without dashes t = true ->
  match2 reArtistDashTitle (a ++ underscore :: t) = None
  /\ match2 reTitleByArtist (a ++ underscore :: t) = None
  /\ match2 reArtistUnderscoreTitle (a ++ underscore :: t) = Some (a, t).
Proof.
  intros Ha Ht. bools.
  destruct (without_cons underscore dashes a) as [Hau Had]; [done|].
  destruct (solid_tight a) as [_ Hae]; [done|].
  destruct (solid_tight t) as [Hts _]; [done|].
  split; [|split].
  - rewrite dash_shape. apply sides_need_a_separator.
    apply Forall_app; split; [by apply without_units|].
    constructor; [done|by apply without_units].
  - apply by_needs_white_space.
    apply Forall_app; split; [by apply solid_units|].
    constructor; [done|by apply solid_units].
  - rewrite underscore_shape.
    apply (sides_of_name (eqU 95) a [] underscore [] t).
    + by apply truthy_not_nil.
    + apply Forall_and. split; [|exact Hau].
      apply oneLine_units. by apply solid_oneLine.
    + by apply tightEnd_last.
    + constructor.
    + done.
    + done.
    + constructor.
    + by apply truthy_not_nil.
    + by apply tightStart_head.
    + apply oneLine_units. by apply solid_oneLine.
Qed.

Lemma plain_name s :
  solid s && without (underscore :: dashes) s = true ->
  detectFromFilename s = noGuess.
Proof.
  intros Hs. bools.
  destruct (without_cons underscore dashes s) as [Hu Hd]; [done|].
  unfold detectFromFilename.
  rewrite dash_shape, (sides_need_a_separator _ s)
    by (by apply without_units).
  rewrite (by_needs_white_space s) by (by apply solid_units).
  rewrite underscore_shape, (sides_need_a_separator _ s) by exact Hu.
  by rewrite split_needs_a_dash by (by apply without_units).
Qed.

(** *** The heuristic as a whole *)

Lemma patterns_in_order fileBase :
  detectFromFilename fileBase
  = guessOf (firstWinner patternsInOrder fileBase).
Proof.
  unfold detectFromFilename, patternsInOrder, firstWinner, candidate,
    artistDashTitle, titleByArtist, artistUnderscoreTitle, dashSplit, guessOf.
  destruct (match2 reArtistDashTitle fileBase) as [[a1 t1]|];
    [destruct (truthy (scrub a1) && truthy (scrub t1)); [reflexivity|]|];
  (destruct (match2 reTitleByArtist fileBase) as [[t2 a2]|];
    [destruct (truthy (scrub a2) && truthy (scrub t2)); [reflexivity|]|]);
  (destruct (match2 reArtistUnderscoreTitle fileBase) as [[a3 t3]|];
    [destruct (truthy (scrub a3) && truthy (scrub t3)); [reflexivity|]|]);
  (destruct (Regex.splitBy reDash fileBase) as [|p0 [|p1 [|p2 ps]]];
    try reflexivity;
    destruct (truthy (scrub p0) && truthy (scrub p1)); reflexivity).
Qed.

(** C8. [detectFromFilename] tries Artist - Title, Title by Artist,
    Artist _ Title and the dash split, in this order, scrubs both sides of
    each proposal and returns the first one whose two scrubbed sides are
    non-empty, nothing when there is none.
    - A name made of a one-line left side without a dash that does not end
      in white space, a dash (hyphen or en dash) with any white space
      around it, and a one-line right side that does not start with white
      space gives the scrubbed left side as artist and the scrubbed right
      side as title, when both are non-empty.
    - A name without a dash made of a word, white space, [by] in either
      case, white space and a one-line right side gives the scrubbed word
      as title and the scrubbed right side as artist.
    - A name without dash and white space with an underscore gives what
      stands before the first underscore as artist and the rest as title.
    - A name without dash, underscore and white space gives nothing.
    - Scrubbing replaces an annotation in round, square or curly brackets
      by a blank, deletes the noise words (official video, official audio,
      lyrics, audio only, hd, 4k, remaster, remastered, mv, clip, in either
      case, as whole words), collapses runs of white space and trims.
    - A dash decides before [by], [by] before an underscore; a proposal
      with an empty scrubbed side is passed over; the dash split is
      reached by a name whose right side has a line break.
    - "Daft Punk - One More Time (Official Video)" with no container tags
      gives artist "Daft Punk" and title "One More Time". *)
Theorem filename_heuristic_splits_scrubs_and_orders :
  (forall fileBase,
      detectFromFilename fileBase
      = guessOf (firstWinner patternsInOrder fileBase))
  /\ (forall a w1 d w2 t,
        truthy a && oneLine a && without dashes a && tightEnd a = true ->
        blank w1 && oneOf dashes d && blank w2 = true ->
        truthy t && oneLine t && tightStart t = true ->
        truthy (scrub a) && truthy (scrub t) = true ->
        detectFromFilename (a ++ w1 ++ d :: w2 ++ t)
        = guessed (scrub a) (scrub t))
  /\ (forall t w1 b y w2 a,
        truthy t && solid t && without dashes t = true ->
        truthy w1 && blank w1 && (lowerUnit b =? 98)%N
          && (lowerUnit y =? 121)%N && truthy w2 && blank w2 = true ->
        truthy a && oneLine a && tightStart a && without dashes a = true ->
        truthy (scrub a) && truthy (scrub t) = true ->
        detectFromFilename (t ++ w1 ++ b :: y :: w2 ++ a)
        = guessed (scrub a) (scrub t))
  /\ (forall a t,
        truthy a && solid a && without (underscore :: dashes) a = true ->
        truthy t && solid t && without dashes t = true ->
        truthy (scrub a) && truthy (scrub t) = true ->
        detectFromFilename (a ++ underscore :: t)
        = guessed (scrub a) (scrub t))
  /\ (forall s,
        solid s && without (underscore :: dashes) s = true ->
        detectFromFilename s = noGuess)
  /\ (scrub (js "One More Time (Official Video)") = js "One More Time"
      /\ scrub (js "One [live] More {x} Time (y)") = js "One More Time"
      /\ scrub (js "One More Time Official Video HD") = js "One More Time"
      /\ scrub (js "Lyrics   of   the 4K remastered MV clip") = js "of the"
      /\ scrub (js "Audio Only remaster official audio night") = js "night"
      /\ scrub (js "Clipper MVP") = js "Clipper MVP")
  /\ (detectFromFilename
        (js "Stardust - Music Sounds Better With You Official Video HD")
      = guessed (js "Stardust") (js "Music Sounds Better With You")
      /\ detectFromFilename (js "Daft Punk - One More Time - Live")
         = guessed (js "Daft Punk") (js "One More Time - Live")
      /\ detectFromFilename (js "Title by Artist - Extra")
         = guessed (js "Title by Artist") (js "Extra")
      /\ detectFromFilename (js "One More Time by Daft_Punk")
         = guessed (js "Daft_Punk") (js "One More Time")
      /\ detectFromFilename (js "Daft Punk_One More Time")
         = guessed (js "Daft Punk") (js "One More Time")
      /\ detectFromFilename (js "(live) - x by y")
         = guessed (js "y") (js "- x")
      /\ detectFromFilename (js "A - B" ++ [10%N] ++ js "C")
         = guessed (js "A") (js "B" ++ [10%N] ++ js "C")
      /\ detectFromFilename (js "(live) - (remix)") = noGuess
      /\ detectFromFilename (js "song") = noGuess)
  /\ detectFromFilename (js "Daft Punk - One More Time (Official Video)")
     = guessed (js "Daft Punk") (js "One More Time")
  /\ (let input := js "Daft Punk - One More Time (Official Video).mp4" in
      let detected :=
        detectedTags ∅ (fileNameTagsOf None (baseOf input)) in
      prop detected (js "artist") = Some (js "Daft Punk")
      /\ prop detected (js "title") = Some (js "One More Time")).
Proof.
  split; [exact patterns_in_order|].
  split.
  { intros a w1 d w2 t Ha Hd Ht Hs.
    apply detect_dashed; [by apply dashed_name|exact Hs]. }
  split.
  { intros t w1 b y w2 a Ht Hby Ha Hs.
    destruct (by_name t w1 b y w2 a Ht Hby Ha) as [H1 H2].
    by apply detect_by. }
  split.
  { intros a t Ha Ht Hs.
    destruct (underscored_name a t Ha Ht) as (H1 & H2 & H3).
    by apply detect_underscored. }
  split; [exact plain_name|].
  split; [repeat split; vm_compute; reflexivity|].
  split; [repeat split; vm_compute; reflexivity|].
  split; [vm_compute; reflexivity|].
  split; vm_compute; reflexivity.
Qed.

Lemma filename_heuristic_witness :
  detectFromFilename
    (js "Stardust" ++ js " " ++ 45%N :: js "  "
       ++ js "Music Sounds Better With You [HQ] lyrics")
  = guessed (js "Stardust") (js "Music Sounds Better With You")
  /\ detectFromFilename
       (js "Yesterday" ++ js " " ++ 66%N :: 121%N :: js " "
          ++ js "The Beatles (remastered)")
     = guessed (js "The Beatles") (js "Yesterday")
  /\ detectFromFilename (js "Stardust" ++ underscore :: js "Sounds")
     = guessed (js "Stardust") (js "Sounds").
Proof.
  destruct filename_heuristic_splits_scrubs_and_orders
    as (_ & Hdash & Hby & Hunder & _).
  split; [|split].
  - rewrite Hdash by (vm_compute; reflexivity). vm_compute. reflexivity.
  - rewrite Hby by (vm_compute; reflexivity). vm_compute. reflexivity.
  - rewrite Hunder by (vm_compute; reflexivity). vm_compute. reflexivity.
Defined.

End HeuristicFacts.

(** ** Facts: further runs of the model on concrete requests *)

Module DemoFacts2.
Import Path Num Convert Concurrency Task Spec Props Gui Demo Demo2.

Lemma fresh_candidates (env : TaskEnv) :
  candidatesOf (demoPlatform [] env) (files freshDisk) [song] = [song].
Proof. vm_compute. reflexivity. Qed.

Lemma preview_witness :
  previewName None song (Some 192) None
  = outputFileName None None song (Some 192) None.
Proof.
  apply NameFacts.preview_matches_output_for_default_template.
  - intros H. apply list_elem_of_In in H. vm_compute in H.
    repeat destruct H as [H|H]; try discriminate. done.
  - intros H. apply list_elem_of_In in H. vm_compute in H.
    repeat destruct H as [H|H]; try discriminate. done.
Defined.

Lemma dry_run_witness :
  files (convertPaths (demoPlatform [] goodEnv) dryRequest [song]
           freshDisk).2 = files freshDisk
  /\ calls (convertPaths (demoPlatform [] goodEnv) dryRequest [song]
              freshDisk).2 = calls freshDisk.
Proof.
  pose proof (RunProps.dry_run_touches_nothing (demoPlatform [] goodEnv)
                dryRequest [song] freshDisk eq_refl) as H.
  cbv zeta in H. destruct H as (Hf & _ & Hc & _). by split.
Defined.

Lemma untouched_input_witness :
  files (convertPaths (demoPlatform [] goodEnv) (request true) [song]
           freshDisk).2 !! song
  = files freshDisk !! song.
Proof.
  apply RunProps.run_changes_only_outputs_and_temp_covers.
  intros c Hc. rewrite fresh_candidates in Hc.
  apply list_elem_of_singleton in Hc. subst c.
  split; [|split]; vm_compute; discriminate.
Defined.

Lemma results_witness :
  List.map resInput [doneResult song songOut]
  = candidatesOf (demoPlatform [] goodEnv) (files freshDisk) [song].
Proof.
  apply (proj1 (ResultFacts.results_follow_the_candidates
                  (demoPlatform [] goodEnv) (request true) [song] freshDisk
                  [doneResult song songOut] ltac:(vm_compute; reflexivity))).
Defined.

Lemma retries_witness :
  (convertPaths (demoPlatform [] flakyEnv) retryRequest [song] freshDisk).1
  = Ok (List.map (taskOutcome (demoPlatform [] flakyEnv) retryRequest)
          (candidatesOf (demoPlatform [] flakyEnv) (files freshDisk) [song])).
Proof.
  apply (proj1 (ResultFacts.retries_decide_the_result
                  (demoPlatform [] flakyEnv) retryRequest [song] freshDisk
                  emptyRange eq_refl eq_refl eq_refl)).
Defined.

Lemma flac_witness :
  encodeCount (convertPaths (demoPlatform [] goodEnv) flacRequest [song]
                 freshDisk).2 = encodeCount freshDisk
  /\ (convertPaths (demoPlatform [] goodEnv) flacRequest [song] freshDisk).1
     = Ok [failedResult song (js "/out/song.flac") notAFunction].
Proof.
  pose proof (ResultFacts.format_without_encoder_fails_every_file
                (demoPlatform [] goodEnv) flacRequest [song] freshDisk
                emptyRange ltac:(vm_compute; reflexivity)) as [Hc Hr].
  split; [exact Hc|].
  rewrite (Hr eq_refl eq_refl eq_refl). vm_compute. reflexivity.
Defined.

Lemma encodes_witness :
  encodeCount (convertPaths (demoPlatform [] flakyEnv) retryRequest [song]
                 freshDisk).2 = 3%nat.
Proof.
  rewrite (proj1 (ResultFacts.encodes_stop_at_the_first_success
                    (demoPlatform [] flakyEnv) retryRequest [song] freshDisk
                    emptyRange eq_refl eq_refl
                    ltac:(vm_compute; reflexivity) eq_refl)).
  vm_compute. reflexivity.
Defined.

Lemma start_indices_witness :
  exists k,
    (k <= length (candidatesOf (demoPlatform [] goodEnv) (files freshDisk)
                    [song]))%nat
    /\ startIndices (events (convertPaths (demoPlatform [] goodEnv)
                               (request true) [song] freshDisk).2)
       = startIndices (events freshDisk) ++ seq 0 k.
Proof.
  apply (ResultFacts.start_indices_count_the_started_files
           (demoPlatform [] goodEnv) (request true) [song] freshDisk
           eq_refl eq_refl).
Defined.

Lemma skipped_queue_witness :
  (startConvert (demoPlatform [] goodEnv) (request true) true emptyQueue
     [song] convertedDisk).2
  = {| pending := [song]; done := []; fail := [] |}.
Proof.
  refine (proj2 (QueueFacts.skipped_files_stay_pending
                   (demoPlatform [] goodEnv) (request true) emptyQueue [song]
                   convertedDisk emptyRange eq_refl eq_refl _)).
  intros c Hc.
  assert (Hcs : candidatesOf (demoPlatform [] goodEnv) (files convertedDisk)
                  (mergeInputs emptyQueue [song]) = [song])
    by (vm_compute; reflexivity).
  rewrite Hcs in Hc. apply list_elem_of_singleton in Hc. subst c.
  vm_compute. eexists. reflexivity.
Defined.

Lemma stuck_path_witness :
  notes ∈ pending (startConvert (demoPlatform [] goodEnv) (request true) true
                     emptyQueue [song; notes] mixedDisk).2.
Proof.
  apply QueueFacts.paths_that_are_no_candidates_stay_pending.
  - apply list_elem_of_In. vm_compute. auto.
  - intros H. apply list_elem_of_In in H. vm_compute in H.
    destruct H as [H|[]]. discriminate.
Defined.

End DemoFacts2.

